(** * Bucket browser: tree builder, folder statistics and archive tasks

    A shallow embedding of [app.py]: the tree builder and its renderer, the
    folder statistics, the registry of download tasks, the progress-driven
    archive generator as a step machine interleaved with the other request
    handlers, and the legacy synchronous folder download. *)

From Stdlib Require Import ZArith String Ascii List Lia Bool.
From stdpp Require Import base option list strings gmap.

Local Open Scope string_scope.

(** ** Strings as Python uses them *)

Module PyStr.

Definition slash : ascii := "/"%char.

(** [s.split('/')]: never empty, an empty segment around every extra
    delimiter. *)
Fixpoint split (s : string) : list string :=
  match s with
  | EmptyString => [EmptyString]
  | String c rest =>
      if Ascii.eqb c slash then EmptyString :: split rest
      else match split rest with
           | [] => [String c EmptyString]
           | seg :: segs => String c seg :: segs
           end
  end.

(** [s.endswith('/')] *)
Fixpoint endswith_slash (s : string) : bool :=
  match s with
  | EmptyString => false
  | String c EmptyString => Ascii.eqb c slash
  | String _ rest => endswith_slash rest
  end.

(** [s.startswith(p)] *)
Definition startswith (p s : string) : bool := String.prefix p s.

(** [s[n:]] *)
Fixpoint drop (n : nat) (s : string) : string :=
  match n, s with
  | O, _ => s
  | S _, EmptyString => EmptyString
  | S n', String _ rest => drop n' rest
  end.

(** ['/' in s] *)
Fixpoint contains_slash (s : string) : bool :=
  match s with
  | EmptyString => false
  | String c rest => Ascii.eqb c slash || contains_slash rest
  end.

(** [s.rstrip('/')] *)
Fixpoint rstrip_slash (s : string) : string :=
  match s with
  | EmptyString => EmptyString
  | String c rest =>
      match rstrip_slash rest with
      | EmptyString => if Ascii.eqb c slash then EmptyString else String c EmptyString
      | rest' => String c rest'
      end
  end.

(** [os.path.basename(s)]: what follows the last delimiter. *)
Definition basename (s : string) : string := List.last (split s) EmptyString.

(** truthiness of a string *)
Definition nonempty (s : string) : bool :=
  match s with EmptyString => false | _ => true end.

(** [parts[:-1]], [parts[-1]] *)
Definition init {A} (l : list A) : list A := List.removelast l.
Definition last1 (l : list string) : string := List.last l EmptyString.

(** [repr(s)] for a string of characters below 128: the apostrophe as
    quote, the double quote instead when the string holds an apostrophe
    and no double quote; a backslash before the quote and the backslash;
    [\t], [\n], [\r]; [\xhh] for the other control characters and for
    127.  A character from 128 on is kept as it is, as [repr] keeps a
    printable character. *)
Definition squote : ascii := "'"%char.
Definition dquote : ascii := ascii_of_nat 34.
Definition backslash : ascii := ascii_of_nat 92.

Fixpoint has (c : ascii) (s : string) : bool :=
  match s with
  | EmptyString => false
  | String c' rest => Ascii.eqb c c' || has c rest
  end.

Definition hex (n : nat) : ascii :=
  nth n (list_ascii_of_string "0123456789abcdef") "0"%char.

Definition escape (quote c : ascii) : string :=
  let n := nat_of_ascii c in
  if Ascii.eqb c quote || Ascii.eqb c backslash then
    String backslash (String c EmptyString)
  else if Nat.eqb n 9 then String backslash "t"
  else if Nat.eqb n 10 then String backslash "n"
  else if Nat.eqb n 13 then String backslash "r"
  else if Nat.ltb n 32 || Nat.eqb n 127 then
    String backslash
      (String "x"%char
         (String (hex (n / 16)) (String (hex (n mod 16)) EmptyString)))
  else String c EmptyString.

Fixpoint escape_all (quote : ascii) (s : string) : string :=
  match s with
  | EmptyString => EmptyString
  | String c rest => escape quote c ++ escape_all quote rest
  end.

Definition repr (s : string) : string :=
  let quote := if has squote s && negb (has dquote s) then dquote else squote in
  String quote (escape_all quote s ++ String quote EmptyString).

End PyStr.

(** ** Object records and the tree *)

Record ObjectRecord := { Key : string; Size : Z }.

Record FileEntry := { key : string; size : Z }.

(** A tree level is a dict from names to nodes; a node is the dict
    [{"files": [...], "folders": {...}}].  Python dicts keep insertion
    order and [tree.items()] walks them in that order, so a level is an
    association list with at most one binding per name. *)
#[warnings="-register-all"]
Inductive Node : Type :=
  mkNode { files : list FileEntry; folders : list (string * Node) }.

Abbreviation Tree := (list (string * Node)).

Definition empty_node : Node := mkNode [] [].

(** Induction on nodes that reaches the nodes bound in ["folders"]. *)
Fixpoint node_induction (P : Node -> Prop)
    (step : forall fs fo, Forall (fun kc => P (snd kc)) fo -> P (mkNode fs fo))
    (n : Node) : P n :=
  match n with
  | mkNode fs fo =>
      step fs fo
        ((fix all (l : Tree) : Forall (fun kc => P (snd kc)) l :=
            match l with
            | [] => List.Forall_nil _
            | kc :: l' =>
                List.Forall_cons _ kc l' (node_induction P step (snd kc)) (all l')
            end) fo)
  end.

Module Dict.

(** [d.get(k)] *)
Fixpoint get (k : string) (d : Tree) : option Node :=
  match d with
  | [] => None
  | (k', v) :: d' => if String.eqb k k' then Some v else get k d'
  end.

(** [k in d] *)
Definition mem (k : string) (d : Tree) : bool :=
  match get k d with Some _ => true | None => false end.

(** [d[k] = v] *)
Fixpoint set (k : string) (v : Node) (d : Tree) : Tree :=
  match d with
  | [] => [(k, v)]
  | (k', v') :: d' =>
      if String.eqb k k' then (k', v) :: d' else (k', v') :: set k v d'
  end.

(** in-place mutation of the object bound to [k] *)
Fixpoint alter (f : Node -> Node) (k : string) (d : Tree) : Tree :=
  match d with
  | [] => []
  | (k', v) :: d' =>
      if String.eqb k k' then (k', f v) :: d' else (k', v) :: alter f k d'
  end.

End Dict.

Definition root_files_key : string := "_root_files".

(** with_folders n f: the node [n] after its ["folders"] dict became [f] *)
Definition with_folders (n : Node) (f : Tree) : Node := mkNode (files n) f.

(** [node["files"].append(e)] *)
Definition append_file (e : FileEntry) (n : Node) : Node :=
  mkNode (app (files n) [e]) (folders n).

(** [if k not in current: current[k] = {"files": [], "folders": {}}] *)
Definition ensured (k : string) (current : Tree) : Tree :=
  if Dict.mem k current then current else Dict.set k empty_node current.

(** The folder walk of [build_tree] (the loop over [parts[:-1]]): every
    missing part is created, then the walk moves into its ["folders"]. *)
Fixpoint walk_create (parts : list string) (current : Tree) : Tree :=
  match parts with
  | [] => current
  | part :: rest =>
      Dict.alter (fun n => with_folders n (walk_create rest (folders n)))
                 part (ensured part current)
  end.

(** The second walk of [build_tree], over [parts[:-2]], followed by the
    append under [parts[-2]].  [None] stands for a lookup of a missing
    part (a [KeyError] below the top level); [walk_create] has made every
    part before, see [add_file_after_walk]. *)
Fixpoint add_file (dirs : list string) (parent : string) (e : FileEntry)
    (current : Tree) : option Tree :=
  match dirs with
  | [] => Some (Dict.alter (append_file e) parent (ensured parent current))
  | part :: rest =>
      match Dict.get part current with
      | None => None
      | Some n =>
          match add_file rest parent e (folders n) with
          | None => None
          | Some f => Some (Dict.set part (with_folders n f) current)
          end
      end
  end.

(** The root branch: [tree["_root_files"] = tree.get("_root_files", ...)]
    and the append. *)
Definition add_root_file (e : FileEntry) (tree : Tree) : Tree :=
  let tree1 :=
    Dict.set root_files_key
      (match Dict.get root_files_key tree with
       | Some n => n
       | None => empty_node
       end) tree in
  Dict.alter (append_file e) root_files_key tree1.

(** One iteration of the loop over [objects]. *)
Definition add_object (tree : Tree) (obj : ObjectRecord) : option Tree :=
  let parts := PyStr.split (Key obj) in
  let e := {| key := Key obj; size := Size obj |} in
  let tree1 := walk_create (PyStr.init parts) tree in
  if PyStr.nonempty (PyStr.last1 parts) then
    if Nat.ltb 1 (length parts) then
      add_file (PyStr.init (PyStr.init parts))
               (PyStr.last1 (PyStr.init parts)) e tree1
    else Some (add_root_file e tree1)
  else Some tree1.

Fixpoint build_from (tree : Tree) (objects : list ObjectRecord) : option Tree :=
  match objects with
  | [] => Some tree
  | obj :: rest =>
      match add_object tree obj with
      | None => None
      | Some tree' => build_from tree' rest
      end
  end.

Definition build_tree (objects : list ObjectRecord) : option Tree :=
  build_from [] objects.

(** ** Measures on trees *)

(** Number of nodes bound anywhere in a level, and number of file entries
    held by them. *)
Fixpoint node_count (n : Node) : nat :=
  match n with
  | mkNode _ fo =>
      (fix level (d : Tree) : nat :=
         match d with
         | [] => 0
         | (_, c) :: d' => 1 + node_count c + level d'
         end) fo
  end.

(** Nodes bound anywhere in a level; a binding of the level itself counts
    [w name]. *)
Fixpoint level_measure (w : string -> nat) (d : Tree) : nat :=
  match d with
  | [] => 0
  | (k, c) :: d' => w k + node_count c + level_measure w d'
  end.

Fixpoint node_files (n : Node) : nat :=
  match n with
  | mkNode fs fo =>
      length fs +
      (fix level (d : Tree) : nat :=
         match d with
         | [] => 0
         | (_, c) :: d' => node_files c + level d'
         end) fo
  end.

Fixpoint level_files (d : Tree) : nat :=
  match d with
  | [] => 0
  | (_, c) :: d' => node_files c + level_files d'
  end.

(** The node bound to the reserved key at the top holds the files of the
    root; it is no folder.  The folder nodes of a tree are all the
    others. *)
Definition folder_weight (k : string) : nat :=
  if String.eqb k root_files_key then 0 else 1.

Definition folder_count (tree : Tree) : nat :=
  level_measure folder_weight tree.

Definition file_entry_count (tree : Tree) : nat := level_files tree.

(** The node reached from [n] along a chain of folder names. *)
Fixpoint node_at (chain : list string) (n : Node) : option Node :=
  match chain with
  | [] => Some n
  | part :: rest =>
      match Dict.get part (folders n) with
      | None => None
      | Some c => node_at rest c
      end
  end.

Definition root_files (tree : Tree) : list FileEntry :=
  match Dict.get root_files_key tree with
  | Some n => files n
  | None => []
  end.

(** The file list of the node at a chain of folder names from the top. *)
Definition files_at (chain : list string) (tree : Tree) : list FileEntry :=
  match node_at chain (mkNode [] tree) with
  | Some n => files n
  | None => []
  end.

(** The file list a key's folder chain leads to: the files of the root
    for the empty chain, otherwise the files of the node at the chain. *)
Definition files_under (chain : list string) (tree : Tree) : list FileEntry :=
  match chain with
  | [] => root_files tree
  | _ => files_at chain tree
  end.

Definition entry_of (obj : ObjectRecord) : FileEntry :=
  {| key := Key obj; size := Size obj |}.

(** The display name of a file entry, as the renderer computes it. *)
Definition file_name (e : FileEntry) : string := PyStr.basename (key e).

(** ** The renderer

    [render_tree] builds markup by string concatenation; the model keeps
    the structure of that markup: a [<ul>] is the list of its items.  The
    element ids and the human-readable size string (a float format) are
    left out; a file item carries the size in bytes. *)

#[warnings="-register-all"]
Inductive Html : Type :=
  | FileLi (href_key filename : string) (size_bytes : Z)
  | FolderLi (folder_name folder_path : string)
             (files_ul : list Html) (folders_ul : option (list Html)).

Definition file_li (e : FileEntry) : Html :=
  FileLi (key e) (PyStr.basename (key e)) (size e).

Section Sorted.
Context {A : Type} (keyf : A -> string).

Fixpoint insert_sorted (x : A) (l : list A) : list A :=
  match l with
  | [] => [x]
  | y :: l' =>
      if String.ltb (keyf x) (keyf y) then x :: y :: l'
      else y :: insert_sorted x l'
  end.

(** [sorted(l, key=keyf)], stable *)
Definition sorted (l : list A) : list A :=
  fold_left (fun acc x => insert_sorted x acc) l [].
End Sorted.

Definition join_path (parent_path folder_name : string) : string :=
  if PyStr.nonempty parent_path then parent_path ++ "/" ++ folder_name
  else folder_name.

(** The [<li class="folder">] of one binding. Rendering a binding does
    not depend on its position, so the bindings are rendered first and
    the rendered items are put in the order of [sorted(tree.items())]. *)
Fixpoint render_folder (parent_path folder_name : string) (content : Node)
    : Html :=
  match content with
  | mkNode fs fo =>
      let folder_path := join_path parent_path folder_name in
      FolderLi folder_name folder_path
        (map file_li (sorted key fs))
        (match fo with
         | [] => None
         | _ =>
             Some
               (app (map file_li (root_files fo))
                (map snd
                  (sorted fst
                     ((fix items (d : Tree) : list (string * Html) :=
                         match d with
                         | [] => []
                         | (k, c) :: d' =>
                             if String.eqb k root_files_key then items d'
                             else (k, render_folder folder_path k c) :: items d'
                         end) fo))))
         end)
  end.

Fixpoint folder_items (parent_path : string) (d : Tree)
    : list (string * Html) :=
  match d with
  | [] => []
  | (k, c) :: d' =>
      if String.eqb k root_files_key then folder_items parent_path d'
      else (k, render_folder parent_path k c) :: folder_items parent_path d'
  end.

Definition render_tree (tree : Tree) (parent_path : string) : list Html :=
  app (map file_li (root_files tree))
      (map snd (sorted fst (folder_items parent_path tree))).

(** Names of all the folder items of a piece of markup. *)
Fixpoint rendered_folders (h : Html) : list string :=
  match h with
  | FileLi _ _ _ => []
  | FolderLi name _ _ sub =>
      name ::
      match sub with
      | None => []
      | Some items =>
          (fix all (l : list Html) : list string :=
             match l with
             | [] => []
             | h' :: l' => app (rendered_folders h') (all l')
             end) items
      end
  end.

Definition rendered_folders_ul (ul : list Html) : list string :=
  flat_map rendered_folders ul.

(** Keys of the file items shown directly in a [<ul>]. *)
Definition shown_files (ul : list Html) : list string :=
  flat_map (fun h => match h with FileLi k _ _ => [k] | _ => [] end) ul.

(** ** The storage collaborator and the listing loop *)

Abbreviation Bytes := (list Byte.byte).

(** What a call to the collaborator does: it returns, or it raises an
    exception whose [str] is the message. *)
Inductive Outcome (A : Type) : Type :=
  | Returned (a : A)
  | Raised (message : string).
Arguments Returned {A} a.
Arguments Raised {A} message.

(** What the handlers take from outside the repository.
    [list_pages prefix]: the pages that the successive [list_objects_v2]
    calls of one listing loop return for [prefix], up to the first page
    that is not truncated, unless a call raises.  [get_object key]: the
    body of an object; [None] when the call raises.
    [key_error_text k]: the text of [str(KeyError(k))], which Python
    makes with [repr(k)]; nothing is assumed of it. *)
Record Storage := {
  list_pages : string -> Outcome (list (list ObjectRecord));
  get_object : string -> option Bytes;
  key_error_text : string -> string
}.

(** The [while True] loop shared by the three folder handlers:
    [objects.extend(page_objects)] for every page. *)
Definition list_all (s : Storage) (prefix : string)
    : Outcome (list ObjectRecord) :=
  match list_pages s prefix with
  | Raised msg => Raised msg
  | Returned pages => Returned (concat pages)
  end.

(** [if not folder_path.endswith('/'): folder_path += '/'] *)
Definition normalize (folder_path : string) : string :=
  if PyStr.endswith_slash folder_path then folder_path
  else folder_path ++ "/".

(** ** Folder statistics *)

Module Info.

Record Stats := {
  total_size : Z;
  file_count : nat;
  subfolders : gset string
}.

Definition stats_init : Stats :=
  {| total_size := 0; file_count := 0; subfolders := ∅ |}.

(** One iteration of the statistics loop of [folder_info]. *)
Definition stats_step (folder_path : string) (st : Stats)
    (obj : ObjectRecord) : Stats :=
  if String.eqb (Key obj) folder_path then st
  else
    let total := (total_size st + Size obj)%Z in
    let relative_path := PyStr.drop (String.length folder_path) (Key obj) in
    if PyStr.contains_slash relative_path then
      {| total_size := total;
         file_count := file_count st;
         subfolders :=
           {[ hd EmptyString (PyStr.split relative_path) ]} ∪ subfolders st |}
    else if PyStr.nonempty relative_path then
      {| total_size := total;
         file_count := S (file_count st);
         subfolders := subfolders st |}
    else
      {| total_size := total;
         file_count := file_count st;
         subfolders := subfolders st |}.

(** The JSON answer, without the float-formatted ['total_size']. *)
Record FolderInfo := {
  info_path : string;
  info_file_count : nat;
  info_total_size_bytes : Z;
  info_subfolder_count : nat
}.

Inductive InfoResponse : Type :=
  | InfoOk (info : FolderInfo)
  | InfoError (message : string).

Definition folder_info (s : Storage) (folder_path : string) : InfoResponse :=
  let folder_path := normalize folder_path in
  match list_all s folder_path with
  | Raised msg => InfoError msg
  | Returned objects =>
      let st := fold_left (stats_step folder_path) objects stats_init in
      let total_files := length objects in
      InfoOk {| info_path := PyStr.rstrip_slash folder_path;
                info_file_count := total_files;
                info_total_size_bytes := total_size st;
                info_subfolder_count := base.size (subfolders st) |}
  end.

End Info.

(** ** Archives and the task registry *)

Inductive Compression : Type := ZIP_STORED | ZIP_DEFLATED.

(** What a [ZipFile] over a [BytesIO] holds: the members written so far
    and whether the archive was closed, which writes the central
    directory. *)
Record ZipFile := {
  compression : Compression;
  members : list (string * Bytes);
  closed : bool
}.

Definition zip_open (c : Compression) : ZipFile :=
  {| compression := c; members := []; closed := false |}.

Definition writestr (name : string) (data : Bytes) (z : ZipFile) : ZipFile :=
  {| compression := compression z;
     members := app (members z) [(name, data)];
     closed := closed z |}.

Definition zip_close (z : ZipFile) : ZipFile :=
  {| compression := compression z; members := members z; closed := true |}.

(** An entry of [download_tasks]. *)
Record Task := {
  cancelled : bool;
  zip_buffer : option ZipFile;
  folder_name : option string
}.

Definition fresh_task : Task :=
  {| cancelled := false; zip_buffer := None; folder_name := None |}.

(** The registry and the cleanup threads that sleep: each with the time
    left to sleep and the id it will delete. *)
Record Server := {
  download_tasks : gmap string Task;
  cleanups : list (nat * string)
}.

(** [download_tasks.get(task_id, {}).get('cancelled', False)] *)
Definition cancel_requested (tasks : gmap string Task) (task_id : string)
    : bool :=
  match tasks !! task_id with
  | Some t => cancelled t
  | None => false
  end.

(** [POST /cancel-download/<task_id>]: [true] for the 200 answer. *)
Definition cancel_download (task_id : string) (srv : Server)
    : bool * Server :=
  match download_tasks srv !! task_id with
  | Some t =>
      (true,
       {| download_tasks :=
            <[task_id := {| cancelled := true;
                            zip_buffer := zip_buffer t;
                            folder_name := folder_name t |}]>
              (download_tasks srv);
          cleanups := cleanups srv |})
  | None => (false, srv)
  end.

Inductive ZipResponse : Type :=
  | NotFound
  | NotReady
  | ZipSent (zip_data : ZipFile) (zip_filename : string).

Definition eviction_delay : nat := 60.

(** [GET /get-zip/<task_id>]; a successful answer starts a cleanup thread
    that sleeps [eviction_delay]. *)
Definition get_zip (task_id : string) (srv : Server)
    : ZipResponse * Server :=
  match download_tasks srv !! task_id with
  | None => (NotFound, srv)
  | Some task =>
      match zip_buffer task with
      | None => (NotReady, srv)
      | Some buf =>
          let name :=
            match folder_name task with
            | Some n => n
            | None => "download"
            end in
          (ZipSent buf (name ++ ".zip"),
           {| download_tasks := download_tasks srv;
              cleanups := app (cleanups srv) [(eviction_delay, task_id)] |})
      end
  end.

(** A cleanup thread whose sleep is over:
    [if task_id in download_tasks: del download_tasks[task_id]]. *)
Definition wake (m : gmap string Task) (c : nat * string) : gmap string Task :=
  if Nat.eqb (fst c) 0 then delete (snd c) m else m.

(** One time unit passes: every sleeping cleanup has one unit less to
    sleep; those that wake delete their id if it is there. *)
Definition tick (srv : Server) : Server :=
  let aged := map (fun c => (Nat.pred (fst c), snd c)) (cleanups srv) in
  {| download_tasks := fold_left wake aged (download_tasks srv);
     cleanups := List.filter (fun c => negb (Nat.eqb (fst c) 0)) aged |}.

(** ** The archive generator

    [generate] of [download_folder_progress] is a Python generator that
    runs while other requests are served.  It is a machine that takes one
    step at a time; a step contains at most one access to
    [download_tasks], so that the other handlers can run between any two
    accesses. *)

Inductive Event : Type :=
  | EvError (message : string)
  | EvCancelled
  | EvProgress (current total : nat)
  | EvComplete (files_in_zip : nat).

Inductive Pc : Type :=
  | AtListing                               (* before the listing loop *)
  | AtInit                                  (* download_tasks[task_id] = {...} *)
  | AtLoop (pending : list ObjectRecord)    (* head of the for loop *)
  | AtRecheck                               (* the check after the with block *)
  | AtStoreBuffer                           (* ...['zip_buffer'] = zip_buffer *)
  | AtStoreName                             (* ...['folder_name'] = ... *)
  | AtComplete                              (* the last yield *)
  | Finished.

Record Gen := {
  pc : Pc;
  objects : list ObjectRecord;
  zip_file : ZipFile;
  file_count : nat;
  total_bytes : nat;
  emitted : list Event
}.

Definition gen_start : Gen :=
  {| pc := AtListing; objects := []; zip_file := zip_open ZIP_DEFLATED;
     file_count := 0; total_bytes := 0; emitted := [] |}.

(** [yield] of an event, then going on at [next]. *)
Definition yield (e : Event) (next : Pc) (g : Gen) : Gen :=
  {| pc := next; objects := objects g; zip_file := zip_file g;
     file_count := file_count g; total_bytes := total_bytes g;
     emitted := app (emitted g) [e] |}.

Definition goto (next : Pc) (g : Gen) : Gen :=
  {| pc := next; objects := objects g; zip_file := zip_file g;
     file_count := file_count g; total_bytes := total_bytes g;
     emitted := emitted g |}.

Definition with_tasks (tasks : gmap string Task) (srv : Server) : Server :=
  {| download_tasks := tasks; cleanups := cleanups srv |}.

(** [str(e)] for the [KeyError] that [download_tasks[task_id]] raises
    when the entry is gone. *)
Definition key_error (s : Storage) (task_id : string) : string :=
  key_error_text s task_id.

Section Generate.
Variable s : Storage.
Variable folder_path : string.
Variable task_id : string.

Definition folder_path_normalized : string := normalize folder_path.

(** The body of the for loop after the cancellation check. *)
Definition process (obj : ObjectRecord) (rest : list ObjectRecord)
    (g : Gen) : Gen :=
  if String.eqb (Key obj) folder_path_normalized then goto (AtLoop rest) g
  else
    match get_object s (Key obj) with
    | None => goto (AtLoop rest) g
    | Some file_data =>
        let relative_path :=
          PyStr.drop (String.length folder_path_normalized) (Key obj) in
        if PyStr.nonempty relative_path then
          let g1 :=
            {| pc := pc g; objects := objects g;
               zip_file := writestr relative_path file_data (zip_file g);
               file_count := S (file_count g);
               total_bytes := total_bytes g + length file_data;
               emitted := emitted g |} in
          yield (EvProgress (file_count g1) (length (objects g1)))
                (AtLoop rest) g1
        else goto (AtLoop rest) g
    end.

(** Leaving the with block closes the archive. *)
Definition close_zip (g : Gen) : Gen :=
  {| pc := pc g; objects := objects g; zip_file := zip_close (zip_file g);
     file_count := file_count g; total_bytes := total_bytes g;
     emitted := emitted g |}.

Definition gen_step (srv : Server) (g : Gen) : Server * Gen :=
  match pc g with
  | AtListing =>
      match list_all s folder_path_normalized with
      | Raised msg => (srv, yield (EvError msg) Finished g)
      | Returned objs =>
          if Nat.eqb (length objs) 0 then
            (srv, yield (EvError "No files found in folder") Finished g)
          else
            (srv,
             {| pc := AtInit; objects := objs; zip_file := zip_file g;
                file_count := file_count g; total_bytes := total_bytes g;
                emitted := emitted g |})
      end
  | AtInit =>
      let compression :=
        if Nat.ltb 100 (length (objects g)) then ZIP_STORED
        else ZIP_DEFLATED in
      (with_tasks (<[task_id := fresh_task]> (download_tasks srv)) srv,
       {| pc := AtLoop (objects g); objects := objects g;
          zip_file := zip_open compression;
          file_count := 0; total_bytes := 0; emitted := emitted g |})
  | AtLoop [] => (srv, goto AtRecheck (close_zip g))
  | AtLoop (obj :: rest) =>
      if cancel_requested (download_tasks srv) task_id then
        (srv, close_zip (yield EvCancelled Finished g))
      else (srv, process obj rest g)
  | AtRecheck =>
      if cancel_requested (download_tasks srv) task_id then
        (srv, yield EvCancelled Finished g)
      else (srv, goto AtStoreBuffer g)
  | AtStoreBuffer =>
      match download_tasks srv !! task_id with
      | None => (srv, yield (EvError (key_error s task_id)) Finished g)
      | Some t =>
          (with_tasks
             (<[task_id := {| cancelled := cancelled t;
                              zip_buffer := Some (zip_file g);
                              folder_name := folder_name t |}]>
                (download_tasks srv)) srv,
           goto AtStoreName g)
      end
  | AtStoreName =>
      match download_tasks srv !! task_id with
      | None => (srv, yield (EvError (key_error s task_id)) Finished g)
      | Some t =>
          (with_tasks
             (<[task_id := {| cancelled := cancelled t;
                              zip_buffer := zip_buffer t;
                              folder_name :=
                                Some (PyStr.basename
                                        (PyStr.rstrip_slash folder_path)) |}]>
                (download_tasks srv)) srv,
           goto AtComplete g)
      end
  | AtComplete => (srv, yield (EvComplete (file_count g)) Finished g)
  | Finished => (srv, g)
  end.

(** *** The generator among the other requests *)

Inductive Label : Type :=
  | LGen                          (* the generator takes its next step *)
  | LCancel (id : string)        (* a cancel request is served *)
  | LGetZip (id : string)        (* a get-zip request is served *)
  | LTick.                        (* one time unit passes *)

Record System := { server : Server; gen : Gen }.

Definition env_step (l : Label) (srv : Server) : Server :=
  match l with
  | LGen => srv
  | LCancel id => snd (cancel_download id srv)
  | LGetZip id => snd (get_zip id srv)
  | LTick => tick srv
  end.

Definition step (sys : System) (l : Label) : System :=
  match l with
  | LGen =>
      let '(srv, g) := gen_step (server sys) (gen sys) in
      {| server := srv; gen := g |}
  | _ => {| server := env_step l (server sys); gen := gen sys |}
  end.

Definition run (sched : list Label) (sys : System) : System :=
  fold_left step sched sys.

Definition start (srv : Server) : System :=
  {| server := srv; gen := gen_start |}.

(** The generator alone, with no other request in between. *)
Definition run_alone (n : nat) (srv : Server) : System :=
  run (repeat LGen n) (start srv).

End Generate.

#[global] Instance Label_eq_dec : EqDecision Label.
Proof. solve_decision. Defined.

(** The other handlers alone. *)
Definition run_env (sched : list Label) (srv : Server) : Server :=
  fold_left (fun srv l => env_step l srv) sched srv.

Definition is_gen (l : Label) : bool :=
  match l with LGen => true | _ => false end.

(** The [current] and [total] of the progress events of a stream. *)
Definition progress_of (evs : list Event) : list (nat * nat) :=
  flat_map (fun e => match e with
                     | EvProgress c t => [(c, t)]
                     | _ => []
                     end) evs.

(** The registry holds an archive for [task_id]. *)
Definition holds_buffer (srv : Server) (task_id : string) : bool :=
  match download_tasks srv !! task_id with
  | Some t => match zip_buffer t with Some _ => true | None => false end
  | None => false
  end.

(** The generator has registered its task and not yet reached the
    statement after the store of the archive. *)
Definition before_store (g : Gen) : bool :=
  match pc g with
  | AtLoop _ | AtRecheck | AtStoreBuffer => true
  | _ => false
  end.

(** The generator has left the with block and goes on. *)
Definition after_loop (g : Gen) : bool :=
  match pc g with
  | AtRecheck | AtStoreBuffer | AtStoreName | AtComplete => true
  | _ => false
  end.

(** The generator has run [download_tasks[task_id] = {...}]: it has
    finished only after that when the listing was not empty. *)
Definition registered (g : Gen) : bool :=
  match pc g with
  | AtListing | AtInit => false
  | Finished => negb (Nat.eqb (length (objects g)) 0)
  | _ => true
  end.

(** Time units that pass in a schedule. *)
Definition ticks (sched : list Label) : nat :=
  length (List.filter (fun l => match l with LTick => true | _ => false end)
                      sched).

(** No cleanup thread sleeps for [id]. *)
Definition no_cleanup_for (id : string) (srv : Server) : Prop :=
  forall c, In c (cleanups srv) -> snd c <> id.

(** What a handler other than the generator can do to one entry: delete
    it, or keep its archive and name and at most raise its flag. *)
Definition kept (before after : option Task) : Prop :=
  after = None \/
  exists t t', before = Some t /\ after = Some t' /\
               zip_buffer t' = zip_buffer t /\
               folder_name t' = folder_name t /\
               (cancelled t = true -> cancelled t' = true).

(** A cleanup that sleeps for [id] with at most [r] units left, or no
    entry for [id] at all. *)
Definition evicted_within (r : nat) (id : string) (srv : Server) : Prop :=
  download_tasks srv !! id = None \/
  exists n, In (n, id) (cleanups srv) /\ 1 <= n <= r.

(** The answer of [get_zip] alone. *)
Definition get_zip_answer (id : string) (srv : Server) : ZipResponse :=
  fst (get_zip id srv).


(** *** What holds of the generator at every moment *)

(** The generator on its own, whatever the registry holds. *)
Record GenInv (s : Storage) (folder_path : string) (g : Gen) : Prop := {
  gi_start : pc g = AtListing -> g = gen_start;
  gi_init : pc g = AtInit -> emitted g = [] /\ file_count g = 0;
  gi_listed :
    pc g = AtInit \/ registered g = true ->
    list_all s (normalize folder_path) = Returned (objects g) /\
    objects g <> [];
  gi_progress :
    progress_of (emitted g) =
    map (fun c => (c, length (objects g))) (seq 1 (file_count g));
  gi_loop :
    forall pending,
      pc g = AtLoop pending ->
      file_count g + length pending <= length (objects g);
  gi_bound : file_count g <= length (objects g);
  gi_members :
    registered g = true -> length (members (zip_file g)) = file_count g;
  gi_mode :
    registered g = true ->
    compression (zip_file g) =
    if Nat.ltb 100 (length (objects g)) then ZIP_STORED else ZIP_DEFLATED;
  gi_closed : after_loop g = true -> closed (zip_file g) = true;
  gi_complete :
    forall n,
      In (EvComplete n) (emitted g) ->
      pc g = Finished /\ closed (zip_file g) = true /\
      n = file_count g /\ registered g = true;
  gi_cancelled :
    In EvCancelled (emitted g) ->
    pc g = Finished /\ registered g = true /\
    forall n, ~ In (EvComplete n) (emitted g)
}.

(** The generator and the entry of its task. *)
Record SysInv (task_id : string) (sys : System) : Prop := {
  si_before_store :
    before_store (gen sys) = true ->
    holds_buffer (server sys) task_id = false;
  si_cancelled :
    In EvCancelled (emitted (gen sys)) ->
    holds_buffer (server sys) task_id = false;
  si_buffer :
    registered (gen sys) = true ->
    forall t z,
      download_tasks (server sys) !! task_id = Some t ->
      zip_buffer t = Some z ->
      z = zip_file (gen sys) /\ closed z = true
}.



(** ** The legacy synchronous download *)

Inductive HttpResponse : Type :=
  | SendFile (zip_data : ZipFile) (download_name : string)
  | Http404 (body : string)
  | Http500 (body : string).

Definition legacy_add (s : Storage) (folder_path : string) (z : ZipFile)
    (obj : ObjectRecord) : ZipFile :=
  if String.eqb (Key obj) folder_path then z
  else
    match get_object s (Key obj) with
    | None => z
    | Some file_data =>
        let relative_path :=
          PyStr.drop (String.length folder_path) (Key obj) in
        if PyStr.nonempty relative_path then writestr relative_path file_data z
        else z
    end.

Definition download_folder (s : Storage) (folder_path : string)
    : HttpResponse :=
  let folder_path := normalize folder_path in
  match list_all s folder_path with
  | Raised msg => Http500 ("Error downloading folder: " ++ msg)
  | Returned objects =>
      if Nat.eqb (length objects) 0 then
        Http404 "No files found in this folder"
      else
        let compression :=
          if Nat.ltb 100 (length objects) then ZIP_STORED
          else ZIP_DEFLATED in
        let zip_file :=
          zip_close
            (fold_left (legacy_add s folder_path) objects
                       (zip_open compression)) in
        let folder_name := PyStr.basename (PyStr.rstrip_slash folder_path) in
        SendFile zip_file (folder_name ++ ".zip")
  end.

(** ** The listing of the scenarios *)

Definition scenario_listing : list ObjectRecord :=
  [ {| Key := "a/b.txt"; Size := 10 |};
    {| Key := "a/c/d.txt"; Size := 20 |};
    {| Key := "root.txt"; Size := 5 |} ].

(** A bucket that answers a listing in one page, with the objects whose
    key starts with the prefix, and whose objects hold [Size] zero bytes;
    the text of a [KeyError] is the [repr] of its key. *)
Definition bucket_storage (bucket : list ObjectRecord) : Storage :=
  {| list_pages := fun prefix =>
       Returned [List.filter (fun o => PyStr.startswith prefix (Key o)) bucket];
     get_object := fun k =>
       match List.find (fun o => String.eqb (Key o) k) bucket with
       | Some o => Some (repeat Byte.x00 (Z.to_nat (Size o)))
       | None => None
       end;
     key_error_text := PyStr.repr |}.

Definition scenario_storage : Storage := bucket_storage scenario_listing.

(** The server after its start: no task, no cleanup. *)
Definition fresh_server : Server := {| download_tasks := ∅; cleanups := [] |}.

(** A bucket with [n] objects under the prefix big/. *)
Definition big_bucket (n : nat) : list ObjectRecord :=
  map (fun i =>
         {| Key := "big/" ++ string_of_list_ascii (repeat "x"%char (S i));
            Size := 1 |})
      (seq 0 n).

(** A server that holds one finished archive nobody has fetched: the
    generator ran alone to its end on the scenario, for the prefix a/. *)
Definition finished_server : Server :=
  server (run_alone scenario_storage "a" "t1" 9 fresh_server).

(** The archive of the scenario for the prefix a/, and the server once a
    get-zip request has fetched it. *)
Definition scenario_archive : ZipFile :=
  {| compression := ZIP_DEFLATED;
     members := [ ("b.txt", repeat Byte.x00 10);
                  ("c/d.txt", repeat Byte.x00 20) ];
     closed := true |}.

Definition fetched_server : Server := snd (get_zip "t1" finished_server).

(** A server whose registry still holds, under ["t1"], the finished and
    then cancelled task of an earlier run. *)
Definition used_server : Server := snd (cancel_download "t1" finished_server).

(** The scenario with the folder marker a/ (7 bytes) listed first. *)
Definition marker_listing : list ObjectRecord :=
  {| Key := "a/"; Size := 7 |} :: scenario_listing.

(** The generator of the scenario, run alone, right after its last check
    of the flag. *)
Definition checked_system : System :=
  {| server := {| download_tasks := {[ "t1" := fresh_task ]}; cleanups := [] |};
     gen := {| pc := AtStoreBuffer;
               objects := [ {| Key := "a/b.txt"; Size := 10 |};
                            {| Key := "a/c/d.txt"; Size := 20 |} ];
               zip_file := scenario_archive;
               file_count := 2;
               total_bytes := 30;
               emitted := [EvProgress 1 2; EvProgress 2 2] |} |}.

(** ** What the index page links to *)

(** The keys that a piece of markup links to, at any depth. *)
Fixpoint links (h : Html) : list string :=
  match h with
  | FileLi k _ _ => [k]
  | FolderLi _ _ fl sub =>
      app ((fix all (l : list Html) : list string :=
              match l with
              | [] => []
              | h' :: l' => app (links h') (all l')
              end) fl)
          (match sub with
           | None => []
           | Some items =>
               (fix all (l : list Html) : list string :=
                  match l with
                  | [] => []
                  | h' :: l' => app (links h') (all l')
                  end) items
           end)
  end.

Definition links_ul (ul : list Html) : list string := flat_map links ul.

(** The entry [e] is in the file list of a node that is bound, name by
    name along [chain], below [n]. *)
Fixpoint in_node (chain : list string) (n : Node) (e : FileEntry) : Prop :=
  match chain with
  | [] => In e (files n)
  | k :: rest => exists c, In (k, c) (folders n) /\ in_node rest c e
  end.

Definition at_path (chain : list string) (tree : Tree) (e : FileEntry) : Prop :=
  in_node chain (mkNode [] tree) e.

(** A folder chain that the renderer walks to its end: the reserved name
    occurs in it at most as its last name. *)
Definition visible (chain : list string) : Prop :=
  ~ In root_files_key (removelast chain).

(** An object that gives a file entry: its last segment is not empty. *)
Definition is_file (obj : ObjectRecord) : bool :=
  PyStr.nonempty (PyStr.last1 (PyStr.split (Key obj))).

(** The folder chain of a key: all its segments but the last. *)
Definition folder_chain (k : string) : list string :=
  PyStr.init (PyStr.split k).

(** [GET /]: one [list_objects_v2] call with no prefix and no
    continuation, so the first page of the listing of the whole bucket
    (which is the listing of the empty prefix), then the tree and its
    markup. *)
Inductive IndexResponse : Type :=
  | IndexPage (tree_html : list Html)
  | IndexError (message : string).

Definition index (s : Storage) : IndexResponse :=
  match list_pages s "" with
  | Raised msg => IndexError msg
  | Returned pages =>
      let contents := hd [] pages in
      match build_tree contents with
      | Some tree => IndexPage (render_tree tree "")
      | None => IndexError "KeyError"
      end
  end.

(** A storage that serves the listing of the empty prefix in the given
    pages. *)
Definition paged_storage (pages : list (list ObjectRecord)) : Storage :=
  {| list_pages := fun prefix =>
       Returned (map (List.filter (fun o => PyStr.startswith prefix (Key o)))
                     pages);
     get_object := fun _ => None;
     key_error_text := PyStr.repr |}.

(** Where one iteration of the loop over [objects] can put an entry. *)
Definition home (obj : ObjectRecord) (chain : list string) : Prop :=
  is_file obj = true /\
  match folder_chain (Key obj) with
  | [] => chain = [root_files_key]
  | fc => chain = fc
  end.

(** The two pages of a bucket whose listing does not fit in one. *)
Definition two_pages : list (list ObjectRecord) :=
  [ [ {| Key := "a.txt"; Size := 1 |} ]; [ {| Key := "b.txt"; Size := 2 |} ] ].

(** ** What an archive of a listing holds *)

(** The member that one object of the listing gives, if any: none for the
    folder marker, for an object whose fetch raises, and for an empty
    relative path. *)
Definition member_of (s : Storage) (prefix : string) (obj : ObjectRecord)
    : list (string * Bytes) :=
  if String.eqb (Key obj) prefix then []
  else
    match get_object s (Key obj) with
    | None => []
    | Some file_data =>
        let relative_path := PyStr.drop (String.length prefix) (Key obj) in
        if PyStr.nonempty relative_path then [(relative_path, file_data)]
        else []
    end.

(** The closed archive of a whole listing. *)
Definition archive_of (s : Storage) (prefix : string)
    (objects : list ObjectRecord) : ZipFile :=
  {| compression :=
       if Nat.ltb 100 (length objects) then ZIP_STORED else ZIP_DEFLATED;
     members := flat_map (member_of s prefix) objects;
     closed := true |}.

(** An event that ends a stream. *)
Definition terminal (e : Event) : bool :=
  match e with
  | EvProgress _ _ => false
  | _ => true
  end.

(** The progress events 1 .. k of a run over [total] objects. *)
Definition progress_events (total k : nat) : list Event :=
  map (fun c => EvProgress c total) (seq 1 k).


(** The stream so far: the progress events 1 .. file_count, followed by
    one terminal event when the generator has finished, and by nothing
    before. *)
Definition stream_shape (g : Gen) : Prop :=
  exists tail,
    emitted g =
      app (progress_events (length (objects g)) (file_count g)) tail /\
    ((pc g <> Finished /\ tail = []) \/
     (pc g = Finished /\ exists t, tail = [t] /\ terminal t = true)).




(** ** What the generator has written, and under which name it is sent *)

(** The archive while the loop runs holds the members of the objects done
    so far; after the loop, unless the generator was cancelled, it is the
    closed archive of the whole listing. *)
Definition zip_inv (s : Storage) (folder_path : string) (g : Gen) : Prop :=
  let prefix := normalize folder_path in
  match pc g with
  | AtListing | AtInit => True
  | AtLoop pending =>
      compression (zip_file g) =
        (if Nat.ltb 100 (length (objects g)) then ZIP_STORED
         else ZIP_DEFLATED) /\
      app (members (zip_file g)) (flat_map (member_of s prefix) pending) =
        flat_map (member_of s prefix) (objects g)
  | Finished =>
      registered g = true -> ~ In EvCancelled (emitted g) ->
      zip_file g = archive_of s prefix (objects g)
  | _ => zip_file g = archive_of s prefix (objects g)
  end.

(** The folder name of the entry: none up to the second store, the base
    name of the folder after it. *)
Definition name_inv (folder_path task_id : string) (sys : System) : Prop :=
  forall t,
    download_tasks (server sys) !! task_id = Some t ->
    match pc (gen sys) with
    | AtListing | AtInit => True
    | AtLoop _ | AtRecheck | AtStoreBuffer | AtStoreName =>
        folder_name t = None
    | AtComplete =>
        folder_name t = Some (PyStr.basename (PyStr.rstrip_slash folder_path))
    | Finished =>
        registered (gen sys) = true -> zip_buffer t <> None ->
        folder_name t = Some (PyStr.basename (PyStr.rstrip_slash folder_path))
    end.

(** ** One task among the others *)

(** Two servers that agree on the entry of [id] and on the cleanups that
    sleep for it. *)
Definition same_for (id : string) (srv1 srv2 : Server) : Prop :=
  download_tasks srv1 !! id = download_tasks srv2 !! id /\
  List.filter (fun c => String.eqb (snd c) id) (cleanups srv1) =
  List.filter (fun c => String.eqb (snd c) id) (cleanups srv2).

(** ** The statistics of a folder, said at once *)

(** The objects whose size is added: all but the folder marker. *)
Definition counted (prefix : string) (obj : ObjectRecord) : bool :=
  negb (String.eqb (Key obj) prefix).

(** The subfolder that an object lies in, when it is not a direct
    member of the folder. *)
Definition subfolder_of (prefix : string) (obj : ObjectRecord)
    : list string :=
  let relative_path := PyStr.drop (String.length prefix) (Key obj) in
  if counted prefix obj && PyStr.contains_slash relative_path
  then [hd EmptyString (PyStr.split relative_path)]
  else [].

Definition sum_sizes (objs : list ObjectRecord) : Z :=
  fold_right (fun o acc => (Size o + acc)%Z) 0%Z objs.

(** The entry of [id] holds the archive [z] under the name [fn], and
    every cleanup that sleeps for [id] has more than [r] units left. *)
Definition available (id : string) (z : ZipFile) (fn : option string)
    (r : nat) (srv : Server) : Prop :=
  (exists t, download_tasks srv !! id = Some t /\
             zip_buffer t = Some z /\ folder_name t = fn) /\
  r < eviction_delay /\
  forall n, In (n, id) (cleanups srv) -> r < n.

(** ** The folder actions of the markup *)

(** The folder items of a piece of markup, at any depth: the path that
    the Download and Info actions of the item pass on, with the keys that
    the item links to. *)
Fixpoint actions (h : Html) : list (string * list string) :=
  match h with
  | FileLi _ _ _ => []
  | FolderLi _ path _ sub =>
      (path, links h) ::
      match sub with
      | None => []
      | Some items =>
          (fix all (l : list Html) : list (string * list string) :=
             match l with
             | [] => []
             | h' :: l' => app (actions h') (all l')
             end) items
      end
  end.

Definition actions_ul (ul : list Html) : list (string * list string) :=
  flat_map actions ul.

(** The node [m] is bound, name by name along [chain], below [n], and no
    name of the chain is the reserved one. *)
Fixpoint reach (chain : list string) (n m : Node) : Prop :=
  match chain with
  | [] => m = n
  | k :: rest =>
      k <> root_files_key /\
      exists c, In (k, c) (folders n) /\ reach rest c m
  end.

(** ** A cancellation that comes in time *)



(** ** Evictions and the generator *)

(** The generator has passed [download_tasks[task_id] = {...}], or has
    ended before it: it binds no id any more. *)
Definition registration_done (g : Gen) : bool :=
  match pc g with
  | AtListing | AtInit => false
  | _ => true
  end.


(** * Properties *)

(** ** Dictionaries *)

Section DictFacts.
Implicit Types (k : string) (d : Tree) (n v : Node).

Lemma get_set k k' v d :
  Dict.get k (Dict.set k' v d) =
  if String.eqb k k' then Some v else Dict.get k d.
Proof.
  induction d as [|[k0 v0] d IH]; simpl.
  - destruct (String.eqb k k'); reflexivity.
  - destruct (String.eqb k' k0) eqn:E0; simpl.
    + apply String.eqb_eq in E0. subst k0.
      destruct (String.eqb k k'); reflexivity.
    + destruct (String.eqb k k0) eqn:E1.
      * apply String.eqb_eq in E1. subst k0.
        rewrite String.eqb_sym in E0. rewrite E0. reflexivity.
      * exact IH.
Qed.

Lemma get_alter f k k' d :
  Dict.get k (Dict.alter f k' d) =
  if String.eqb k k' then option_map f (Dict.get k d) else Dict.get k d.
Proof.
  induction d as [|[k0 v0] d IH]; simpl.
  - destruct (String.eqb k k'); reflexivity.
  - destruct (String.eqb k' k0) eqn:E0; simpl.
    + apply String.eqb_eq in E0. subst k0.
      destruct (String.eqb k k'); reflexivity.
    + destruct (String.eqb k k0) eqn:E1.
      * apply String.eqb_eq in E1. subst k0.
        rewrite String.eqb_sym in E0. rewrite E0. reflexivity.
      * exact IH.
Qed.

Lemma mem_get k d : Dict.mem k d = true <-> exists n, Dict.get k d = Some n.
Proof.
  unfold Dict.mem. destruct (Dict.get k d); split; eauto.
  - discriminate.
  - intros [n H]. discriminate.
Qed.

Lemma mem_false k d : Dict.mem k d = false <-> Dict.get k d = None.
Proof. unfold Dict.mem. destruct (Dict.get k d); split; congruence. Qed.

Lemma node_count_eq fs fo : node_count (mkNode fs fo) = level_measure (fun _ => 1) fo.
Proof.
  simpl. induction fo as [|[k c] fo IH]; simpl; [reflexivity|].
  rewrite IH. reflexivity.
Qed.

Lemma node_files_eq fs fo : node_files (mkNode fs fo) = length fs + level_files fo.
Proof.
  simpl. apply (f_equal (Nat.add (length fs))).
  induction fo as [|[k c] fo IH]; simpl; [reflexivity|].
  rewrite IH. reflexivity.
Qed.

Lemma measure_set_new w k v d :
  Dict.get k d = None ->
  level_measure w (Dict.set k v d) = level_measure w d + w k + node_count v.
Proof.
  induction d as [|[k0 v0] d IH]; simpl; intros H.
  - lia.
  - destruct (String.eqb k k0) eqn:E; [discriminate|].
    simpl. rewrite IH by assumption. lia.
Qed.

Lemma measure_set_old w k v n d :
  Dict.get k d = Some n ->
  level_measure w (Dict.set k v d) + node_count n =
  level_measure w d + node_count v.
Proof.
  induction d as [|[k0 v0] d IH]; simpl; intros H; [discriminate|].
  destruct (String.eqb k k0) eqn:E; simpl.
  - injection H as ->. lia.
  - specialize (IH H). lia.
Qed.

Lemma measure_alter w f k n d :
  Dict.get k d = Some n ->
  level_measure w (Dict.alter f k d) + node_count n =
  level_measure w d + node_count (f n).
Proof.
  induction d as [|[k0 v0] d IH]; simpl; intros H; [discriminate|].
  destruct (String.eqb k k0) eqn:E; simpl.
  - injection H as ->. lia.
  - specialize (IH H). lia.
Qed.

Lemma files_set_new k v d :
  Dict.get k d = None ->
  level_files (Dict.set k v d) = level_files d + node_files v.
Proof.
  induction d as [|[k0 v0] d IH]; simpl; intros H.
  - lia.
  - destruct (String.eqb k k0) eqn:E; [discriminate|].
    simpl. rewrite IH by assumption. lia.
Qed.

Lemma files_set_old k v n d :
  Dict.get k d = Some n ->
  level_files (Dict.set k v d) + node_files n = level_files d + node_files v.
Proof.
  induction d as [|[k0 v0] d IH]; simpl; intros H; [discriminate|].
  destruct (String.eqb k k0) eqn:E; simpl.
  - injection H as ->. lia.
  - specialize (IH H). lia.
Qed.

Lemma files_alter f k n d :
  Dict.get k d = Some n ->
  level_files (Dict.alter f k d) + node_files n =
  level_files d + node_files (f n).
Proof.
  induction d as [|[k0 v0] d IH]; simpl; intros H; [discriminate|].
  destruct (String.eqb k k0) eqn:E; simpl.
  - injection H as ->. lia.
  - specialize (IH H). lia.
Qed.

Lemma ensured_get k d : exists n, Dict.get k (ensured k d) = Some n.
Proof.
  unfold ensured. destruct (Dict.mem k d) eqn:E.
  - now apply mem_get.
  - exists empty_node. rewrite get_set, String.eqb_refl. reflexivity.
Qed.

Lemma ensured_keeps k k' n d :
  Dict.get k d = Some n -> Dict.get k (ensured k' d) = Some n.
Proof.
  intros H. unfold ensured. destruct (Dict.mem k' d) eqn:E; [assumption|].
  rewrite get_set. destruct (String.eqb k k') eqn:E1; [|assumption].
  apply String.eqb_eq in E1. subst k'. apply mem_false in E. congruence.
Qed.

Lemma ensured_measure w k d :
  (forall k, w k <= 1) ->
  level_measure w d <= level_measure w (ensured k d) <= level_measure w d + 1.
Proof.
  intros Hw. unfold ensured. destruct (Dict.mem k d) eqn:E; [lia|].
  apply mem_false in E. rewrite measure_set_new by assumption.
  simpl. specialize (Hw k). lia.
Qed.

Lemma ensured_present k d :
  Dict.mem k d = true -> ensured k d = d.
Proof. intros H. unfold ensured. now rewrite H. Qed.

Lemma ensured_files k d : level_files (ensured k d) = level_files d.
Proof.
  unfold ensured. destruct (Dict.mem k d) eqn:E; [reflexivity|].
  apply mem_false in E. rewrite files_set_new by assumption. simpl. lia.
Qed.

End DictFacts.

(** ** The two walks of the tree builder *)

Section Walks.
Implicit Types (k : string) (d : Tree) (n m : Node) (ps chain : list string).

Lemma walk_measure w :
  (forall k, w k <= 1) ->
  forall ps d,
    level_measure w d <= level_measure w (walk_create ps d)
    <= level_measure w d + length ps.
Proof.
  intros Hw ps. revert w Hw.
  induction ps as [|p ps IH]; intros w Hw d; simpl; [lia|].
  destruct (ensured_get p d) as [n Hn].
  pose proof (ensured_measure w p d Hw) as He.
  pose proof (measure_alter w
    (fun n => with_folders n (walk_create ps (folders n))) p n _ Hn) as Ha.
  unfold with_folders in *. rewrite node_count_eq in Ha.
  destruct n as [fs fo]. rewrite node_count_eq in Ha. simpl in Ha.
  specialize (IH (fun _ => 1) (fun _ => le_n 1) fo). lia.
Qed.

Lemma walk_files ps : forall d, level_files (walk_create ps d) = level_files d.
Proof.
  induction ps as [|p ps IH]; intros d; simpl; [reflexivity|].
  destruct (ensured_get p d) as [n Hn].
  pose proof (files_alter
    (fun n => with_folders n (walk_create ps (folders n))) p n _ Hn) as Ha.
  unfold with_folders in *. rewrite node_files_eq in Ha.
  destruct n as [fs fo]. rewrite node_files_eq in Ha. simpl in Ha.
  rewrite IH in Ha. rewrite <- (ensured_files p d). lia.
Qed.

(** The walk removes nothing and leaves every file list as it is. *)
Lemma walk_keeps chain : forall ps fs d m,
  node_at chain (mkNode fs d) = Some m ->
  exists m', node_at chain (mkNode fs (walk_create ps d)) = Some m' /\
             files m' = files m.
Proof.
  induction chain as [|c chain IH]; intros ps fs d m H; simpl in *.
  - injection H as <-. eexists. split; reflexivity.
  - destruct ps as [|p ps]; simpl; [eauto|].
    destruct (Dict.get c d) as [n|] eqn:Hc; [|discriminate].
    rewrite get_alter, (ensured_keeps _ p _ _ Hc). simpl.
    destruct (String.eqb c p); [|eauto].
    destruct n as [fs' fo']. unfold with_folders. simpl. apply IH. exact H.
Qed.

(** After the walk the whole chain is there. *)
Lemma walk_reaches ps : forall fs d,
  exists m, node_at ps (mkNode fs (walk_create ps d)) = Some m.
Proof.
  induction ps as [|p ps IH]; intros fs d; simpl; [eauto|].
  rewrite get_alter, String.eqb_refl.
  destruct (ensured_get p d) as [n ->]. simpl. apply IH.
Qed.

Lemma node_at_app chain : forall k n,
  node_at (chain ++ [k]) n =
  match node_at chain n with
  | Some m => Dict.get k (folders m)
  | None => None
  end.
Proof.
  induction chain as [|c chain IH]; intros k n; simpl.
  - destruct (Dict.get k (folders n)); reflexivity.
  - destruct (Dict.get c (folders n)); [apply IH | reflexivity].
Qed.

Lemma node_at_prefix chain k n m :
  node_at (chain ++ [k]) n = Some m -> exists m', node_at chain n = Some m'.
Proof.
  rewrite node_at_app. destruct (node_at chain n); [eauto | discriminate].
Qed.

(** The second walk finds its way when the chain is there, makes no
    node, adds one file entry, at the end of the chain, and keeps all
    the others. *)
Lemma add_file_spec dirs : forall parent e fs d m,
  node_at (dirs ++ [parent]) (mkNode fs d) = Some m ->
  exists d' m',
    add_file dirs parent e d = Some d' /\
    node_at (dirs ++ [parent]) (mkNode fs d') = Some m' /\
    files m' = app (files m) [e] /\
    (forall w, level_measure w d' = level_measure w d) /\
    level_files d' = level_files d + 1.
Proof.
  induction dirs as [|p dirs IH]; intros parent e fs d m H; simpl in *.
  - destruct (Dict.get parent d) as [n|] eqn:Hp; [|discriminate].
    injection H as ->.
    assert (Hmem : Dict.mem parent d = true) by (apply mem_get; eauto).
    rewrite (ensured_present _ _ Hmem).
    eexists _, _. split; [reflexivity|].
    rewrite get_alter, String.eqb_refl, Hp. simpl.
    split; [reflexivity|]. split; [reflexivity|]. split.
    + intros w. pose proof (measure_alter w (append_file e) parent m d Hp) as Ha.
      destruct m as [fs' fo']. unfold append_file in *.
      rewrite !node_count_eq in Ha. simpl in Ha. lia.
    + pose proof (files_alter (append_file e) parent m d Hp) as Ha.
      destruct m as [fs' fo']. unfold append_file in *.
      rewrite !node_files_eq in Ha. simpl in Ha.
      rewrite length_app in Ha. simpl in Ha. lia.
  - destruct (Dict.get p d) as [n|] eqn:Hp; [|discriminate].
    destruct n as [fs' fo']. simpl.
    destruct (IH parent e fs' fo' m H) as (f & m' & Hadd & Hat & Hfiles & Hm & Hf).
    rewrite Hadd. eexists _, m'. split; [reflexivity|].
    rewrite get_set, String.eqb_refl. unfold with_folders. simpl.
    split; [exact Hat|]. split; [exact Hfiles|]. split.
    + intros w.
      pose proof (measure_set_old w p (mkNode fs' f) _ d Hp) as Ha.
      rewrite !node_count_eq in Ha. rewrite (Hm (fun _ => 1)) in Ha. lia.
    + pose proof (files_set_old p (mkNode fs' f) _ d Hp) as Ha.
      rewrite !node_files_eq in Ha. lia.
Qed.

Lemma add_file_keeps dirs : forall parent e d d' chain fs m,
  add_file dirs parent e d = Some d' ->
  node_at chain (mkNode fs d) = Some m ->
  exists m', node_at chain (mkNode fs d') = Some m' /\
             forall x, In x (files m) -> In x (files m').
Proof.
  induction dirs as [|p dirs IH]; intros parent e d d' chain fs m Hadd H;
    simpl in Hadd.
  - injection Hadd as <-. destruct chain as [|c chain]; simpl in *.
    + injection H as <-. eexists. split; [reflexivity|]. auto.
    + destruct (Dict.get c d) as [n|] eqn:Hc; [|discriminate].
      rewrite get_alter, (ensured_keeps _ parent _ _ Hc). simpl.
      destruct (String.eqb c parent); [|eauto].
      destruct chain as [|c' chain]; simpl in *.
      * injection H as <-. eexists. split; [reflexivity|].
        intros x Hx. simpl. apply in_or_app. now left.
      * destruct (Dict.get c' (folders n)); [eauto | discriminate].
  - destruct (Dict.get p d) as [n|] eqn:Hp; [|discriminate].
    destruct (add_file dirs parent e (folders n)) as [f|] eqn:Hf; [|discriminate].
    injection Hadd as <-. destruct chain as [|c chain]; simpl in *.
    + injection H as <-. eexists. split; [reflexivity|]. auto.
    + rewrite get_set. destruct (String.eqb c p) eqn:E; [|eauto].
      apply String.eqb_eq in E. subst c. rewrite Hp in H.
      destruct n as [fs' fo']. unfold with_folders. simpl in *.
      exact (IH _ _ _ _ _ _ _ Hf H).
Qed.

End Walks.

(** ** One object, then a listing *)

Section AddObject.
Implicit Types (tree : Tree) (obj : ObjectRecord).

Lemma split_nonempty s : PyStr.split s <> [].
Proof.
  destruct s as [|c s]; simpl; [discriminate|].
  destruct (Ascii.eqb c PyStr.slash); [discriminate|].
  destruct (PyStr.split s); discriminate.
Qed.

Lemma split_single s : forall seg, PyStr.split s = [seg] -> seg = s.
Proof.
  induction s as [|c s IH]; intros seg H; simpl in H.
  - congruence.
  - destruct (Ascii.eqb c PyStr.slash).
    + injection H as _ H. destruct (split_nonempty s H).
    + destruct (PyStr.split s) as [|h t] eqn:Hs.
      * destruct (split_nonempty s Hs).
      * injection H as <- ->. now rewrite (IH h eq_refl).
Qed.

Lemma init_length {A} (l : list A) : length (PyStr.init l) = length l - 1.
Proof.
  unfold PyStr.init. induction l as [|x l IH]; simpl; [reflexivity|].
  destruct l; simpl in *; [reflexivity | rewrite IH; lia].
Qed.

Lemma init_last (l : list string) :
  l <> [] -> app (PyStr.init l) [PyStr.last1 l] = l.
Proof. intros H. symmetry. now apply app_removelast_last. Qed.

Lemma folder_weight_le k : folder_weight k <= 1.
Proof. unfold folder_weight. destruct (String.eqb k root_files_key); lia. Qed.

Lemma get_add_root e tree k :
  Dict.get k (add_root_file e tree) =
  if String.eqb k root_files_key then
    Some (append_file e (match Dict.get root_files_key tree with
                         | Some n => n
                         | None => empty_node
                         end))
  else Dict.get k tree.
Proof.
  unfold add_root_file. rewrite get_alter, get_set.
  destruct (String.eqb k root_files_key); reflexivity.
Qed.

Lemma add_root_counts e tree :
  folder_count (add_root_file e tree) = folder_count tree /\
  level_files (add_root_file e tree) = level_files tree + 1.
Proof.
  unfold add_root_file, folder_count.
  set (n := match Dict.get root_files_key tree with
            | Some n => n | None => empty_node end).
  assert (Hget : Dict.get root_files_key (Dict.set root_files_key n tree) = Some n)
    by (rewrite get_set, String.eqb_refl; reflexivity).
  pose proof (measure_alter folder_weight (append_file e) _ _ _ Hget) as Hm.
  pose proof (files_alter (append_file e) _ _ _ Hget) as Hf.
  assert (Hn : node_count (append_file e n) = node_count n /\
               node_files (append_file e n) = node_files n + 1).
  { destruct n as [fs fo]. unfold append_file.
    rewrite !node_count_eq, !node_files_eq. simpl.
    rewrite length_app. simpl. lia. }
  destruct Hn as [Hn1 Hn2]. rewrite Hn1 in Hm. rewrite Hn2 in Hf.
  subst n. destruct (Dict.get root_files_key tree) as [n|] eqn:Hr.
  - pose proof (measure_set_old folder_weight _ n n _ Hr).
    pose proof (files_set_old _ n n _ Hr). lia.
  - pose proof (measure_set_new folder_weight _ empty_node _ Hr) as H1.
    pose proof (files_set_new _ empty_node _ Hr) as H2.
    change (folder_weight root_files_key) with 0 in H1.
    change (node_count empty_node) with 0 in *.
    change (node_files empty_node) with 0 in *. lia.
Qed.

Lemma add_root_keeps e tree chain fs m :
  node_at chain (mkNode fs tree) = Some m ->
  exists m', node_at chain (mkNode fs (add_root_file e tree)) = Some m' /\
             forall x, In x (files m) -> In x (files m').
Proof.
  destruct chain as [|c chain]; simpl; intros H.
  - injection H as <-. eexists. split; [reflexivity|]. auto.
  - rewrite get_add_root.
    destruct (Dict.get c tree) as [n|] eqn:Hc; [|discriminate].
    destruct (String.eqb c root_files_key) eqn:E; [|eauto].
    apply String.eqb_eq in E. subst c. rewrite Hc.
    destruct chain as [|c' chain]; simpl in *.
    + injection H as <-. eexists. split; [reflexivity|].
      intros x Hx. simpl. apply in_or_app. now left.
    + destruct (Dict.get c' (folders n)); [eauto | discriminate].
Qed.

Lemma add_root_places e tree : In e (root_files (add_root_file e tree)).
Proof.
  unfold root_files. rewrite get_add_root, String.eqb_refl. simpl.
  apply in_or_app. right. now left.
Qed.

(** What one iteration of the loop over [objects] does. *)
Lemma add_object_spec tree obj :
  let parts := PyStr.split (Key obj) in
  let is_file := PyStr.nonempty (PyStr.last1 parts) in
  exists tree',
    add_object tree obj = Some tree' /\
    folder_count tree <= folder_count tree'
      <= folder_count tree + (length parts - 1) /\
    file_entry_count tree' =
      file_entry_count tree + (if is_file then 1 else 0) /\
    (forall chain fs m,
        node_at chain (mkNode fs tree) = Some m ->
        exists m', node_at chain (mkNode fs tree') = Some m' /\
                   forall x, In x (files m) -> In x (files m')) /\
    (is_file = true ->
     In (entry_of obj) (files_under (PyStr.init parts) tree')).
Proof.
  intros parts is_file. unfold add_object. fold parts. fold is_file.
  fold (entry_of obj).
  pose proof (walk_measure folder_weight folder_weight_le
                (PyStr.init parts) tree) as Hwm.
  pose proof (walk_files (PyStr.init parts) tree) as Hwf.
  rewrite init_length in Hwm.
  assert (Hkeep : forall chain fs m,
             node_at chain (mkNode fs tree) = Some m ->
             exists m', node_at chain
                          (mkNode fs (walk_create (PyStr.init parts) tree))
                        = Some m' /\ files m' = files m)
    by (intros; now apply walk_keeps).
  unfold file_entry_count, folder_count in *.
  destruct is_file eqn:Hfile.
  - destruct (Nat.ltb 1 (length parts)) eqn:Hlen.
    + apply Nat.ltb_lt in Hlen.
      assert (Hne : PyStr.init parts <> []).
      { intros E. pose proof (init_length parts) as Hl.
        rewrite E in Hl. simpl in Hl. lia. }
      destruct (walk_reaches (PyStr.init parts) []
                  tree) as [m Hm].
      rewrite <- (init_last _ Hne) in Hm at 1.
      destruct (add_file_spec _ _ (entry_of obj) _ _ _ Hm)
        as (t' & m' & Hadd & Hat & Hfs & Hmeas & Hfiles).
      exists t'. split; [exact Hadd|].
      rewrite Hmeas, Hfiles, Hwf.
      split; [lia|]. split; [reflexivity|]. split.
      * intros chain fs m0 H0.
        destruct (Hkeep _ _ _ H0) as (m1 & H1 & E1).
        destruct (add_file_keeps _ _ _ _ _ _ _ _ Hadd H1) as (m2 & H2 & I2).
        exists m2. split; [exact H2|]. intros x Hx. apply I2. now rewrite E1.
      * intros _. rewrite (init_last _ Hne) in Hat.
        unfold files_under, files_at.
        destruct (PyStr.init parts) as [|p0 ps0] eqn:Ei; [congruence|].
        rewrite Hat, Hfs. apply in_or_app. right. now left.
    + apply Nat.ltb_ge in Hlen.
      assert (Ei : PyStr.init parts = []).
      { pose proof (init_length parts) as Hl.
        destruct (PyStr.init parts); [reflexivity | simpl in Hl; lia]. }
      rewrite Ei in *. simpl in *.
      destruct (add_root_counts (entry_of obj) tree) as [Hc Hf].
      unfold folder_count in Hc.
      eexists. split; [reflexivity|]. rewrite Hc, Hf.
      split; [lia|]. split; [reflexivity|]. split.
      * intros chain fs m0 H0. now apply add_root_keeps.
      * intros _. apply add_root_places.
  - eexists. split; [reflexivity|]. rewrite Hwf.
    split; [lia|]. split; [lia|]. split; [|discriminate].
    intros chain fs m0 H0. destruct (Hkeep _ _ _ H0) as (m1 & H1 & E1).
    exists m1. split; [exact H1|]. intros x Hx. now rewrite E1.
Qed.

Lemma files_under_at chain tree :
  files_under chain tree =
  files_at (match chain with [] => [root_files_key] | _ => chain end) tree.
Proof.
  destruct chain; [|reflexivity].
  unfold files_under, files_at, root_files. simpl.
  destruct (Dict.get root_files_key tree); reflexivity.
Qed.

Lemma keeps_files_at tree tree' :
  (forall chain fs m,
      node_at chain (mkNode fs tree) = Some m ->
      exists m', node_at chain (mkNode fs tree') = Some m' /\
                 forall x, In x (files m) -> In x (files m')) ->
  forall chain x, In x (files_under chain tree) -> In x (files_under chain tree').
Proof.
  intros H chain x. rewrite !files_under_at. unfold files_at.
  destruct (node_at _ (mkNode [] tree)) as [m|] eqn:E; [|intros []].
  destruct (H _ _ _ E) as (m' & -> & I). apply I.
Qed.

(** The loop over a whole listing never fails; it keeps every entry it
    has placed and places each object of the listing. *)
Lemma build_from_spec objects : forall tree,
  exists tree',
    build_from tree objects = Some tree' /\
    (forall chain x,
        In x (files_under chain tree) -> In x (files_under chain tree')) /\
    (forall obj,
        In obj objects ->
        PyStr.nonempty (PyStr.last1 (PyStr.split (Key obj))) = true ->
        In (entry_of obj)
           (files_under (PyStr.init (PyStr.split (Key obj))) tree')).
Proof.
  induction objects as [|o objects IH]; intros tree; simpl.
  - exists tree. split; [reflexivity|]. split; [auto|]. intros obj [].
  - destruct (add_object_spec tree o) as (t1 & -> & _ & _ & Hk & Hp).
    destruct (IH t1) as (t2 & Hb & Hmono & Hplaced).
    exists t2. split; [exact Hb|]. split.
    + intros chain x Hx. apply Hmono. revert Hx. now apply keeps_files_at.
    + intros obj [<- | Hin] Hfile; [|now apply Hplaced].
      apply Hmono. now apply Hp.
Qed.

End AddObject.

(** ** The tree of a listing *)

(** C5: for every listing [build_tree] returns a tree in which the entry
    of every object whose last segment is not empty lies in the file list
    its folder chain (all segments but the last) leads to, the files of
    the root for a key of one segment; an object whose key has N segments
    adds at most N-1 folder nodes, removes none, and adds exactly one file
    entry, or none when its last segment is empty; and the listing
    a/b.txt (10), a/c/d.txt (20), root.txt (5) gives the root file
    root.txt (5) and the folder a with the file b.txt (10) and the
    subfolder c with the file d.txt (20). *)
Theorem build_tree_places_every_file :
  (forall objects,
      exists tree,
        build_tree objects = Some tree /\
        forall obj,
          In obj objects ->
          PyStr.nonempty (PyStr.last1 (PyStr.split (Key obj))) = true ->
          In (entry_of obj)
             (files_under (PyStr.init (PyStr.split (Key obj))) tree)) /\
  (forall tree obj,
      let parts := PyStr.split (Key obj) in
      exists tree',
        add_object tree obj = Some tree' /\
        folder_count tree <= folder_count tree'
          <= folder_count tree + (length parts - 1) /\
        file_entry_count tree' =
          file_entry_count tree +
          (if PyStr.nonempty (PyStr.last1 parts) then 1 else 0)) /\
  (exists tree,
      build_tree scenario_listing = Some tree /\
      tree =
        [ ("a",
           mkNode [ {| key := "a/b.txt"; size := 10 |} ]
                  [ ("c", mkNode [ {| key := "a/c/d.txt"; size := 20 |} ] []) ]);
          ("_root_files", mkNode [ {| key := "root.txt"; size := 5 |} ] []) ] /\
      files_under [] tree = [ {| key := "root.txt"; size := 5 |} ] /\
      files_under ["a"] tree = [ {| key := "a/b.txt"; size := 10 |} ] /\
      files_under ["a"; "c"] tree = [ {| key := "a/c/d.txt"; size := 20 |} ] /\
      map file_name (files_under [] tree) = ["root.txt"] /\
      map file_name (files_under ["a"] tree) = ["b.txt"] /\
      map file_name (files_under ["a"; "c"] tree) = ["d.txt"] /\
      folder_count tree = 2 /\
      file_entry_count tree = 3 /\
      render_tree tree "" =
        [ FileLi "root.txt" "root.txt" 5;
          FolderLi "a" "a" [FileLi "a/b.txt" "b.txt" 10]
            (Some [FolderLi "c" "a/c" [FileLi "a/c/d.txt" "d.txt" 20] None]) ]).
Proof.
  split; [|split].
  - intros objects. unfold build_tree.
    destruct (build_from_spec objects []) as (tree & Hb & _ & Hp).
    exists tree. split; assumption.
  - intros tree obj parts.
    destruct (add_object_spec tree obj) as (tree' & Ha & Hc & Hf & _).
    exists tree'. repeat split; try assumption; apply Hc.
  - eexists. split; [reflexivity|]. repeat split; reflexivity.
Qed.

(** ** The renderer and the reserved key *)

Section Render.
Implicit Types (d : Tree) (n : Node).

Lemma insert_sorted_in {A} (keyf : A -> string) x y l :
  In y (insert_sorted keyf x l) <-> y = x \/ In y l.
Proof.
  induction l as [|z l IH]; simpl.
  - intuition auto.
  - destruct (String.ltb (keyf x) (keyf z)); simpl; [intuition auto|].
    rewrite IH. intuition auto.
Qed.

Lemma sorted_in {A} (keyf : A -> string) y l :
  In y (sorted keyf l) <-> In y l.
Proof.
  unfold sorted.
  assert (H : forall acc, In y (fold_left (fun acc x => insert_sorted keyf x acc) l acc)
                          <-> In y acc \/ In y l).
  { induction l as [|x l IH]; intros acc; simpl; [intuition auto|].
    rewrite IH, insert_sorted_in. intuition auto. }
  rewrite H. simpl. intuition auto.
Qed.

Lemma render_folder_eq parent_path name fs fo :
  render_folder parent_path name (mkNode fs fo) =
  FolderLi name (join_path parent_path name)
    (map file_li (sorted key fs))
    (match fo with
     | [] => None
     | _ => Some (render_tree fo (join_path parent_path name))
     end).
Proof.
  simpl.
  match goal with
  | |- context [sorted fst (?items fo)] =>
      assert (Hitems : forall l,
                 items l = folder_items (join_path parent_path name) l)
  end.
  { induction l as [|[k c] l IH]; simpl; [reflexivity|].
    destruct (String.eqb k root_files_key); [exact IH | now rewrite IH]. }
  rewrite Hitems. destruct fo; reflexivity.
Qed.

Lemma rendered_folders_eq name path fl sub :
  rendered_folders (FolderLi name path fl sub) =
  name :: match sub with
          | None => []
          | Some items => rendered_folders_ul items
          end.
Proof.
  destruct sub as [items|]; simpl; [|reflexivity].
  apply (f_equal (cons name)). unfold rendered_folders_ul.
  induction items as [|h items IH]; simpl; [reflexivity|].
  rewrite IH. reflexivity.
Qed.

Lemma file_items_no_folder fl :
  rendered_folders_ul (map file_li fl) = [].
Proof. induction fl; simpl; auto. Qed.

Lemma folder_items_spec parent_path d k h :
  In (k, h) (folder_items parent_path d) ->
  k <> root_files_key /\
  exists c, In (k, c) d /\ h = render_folder parent_path k c.
Proof.
  induction d as [|[k0 c0] d IH]; simpl; [intros []|].
  destruct (String.eqb k0 root_files_key) eqn:E.
  - intros H. destruct (IH H) as (Hne & c & Hin & ->). eauto.
  - intros [H | H].
    + injection H as <- <-. apply String.eqb_neq in E. eauto.
    + destruct (IH H) as (Hne & c & Hin & ->). eauto.
Qed.

(** No folder item carries the reserved name, at any depth. *)
Lemma render_folder_skips n : forall parent_path name,
  name <> root_files_key ->
  ~ In root_files_key (rendered_folders (render_folder parent_path name n)).
Proof.
  induction n as [fs fo IH] using node_induction.
  intros parent_path name Hname.
  rewrite render_folder_eq, rendered_folders_eq.
  intros [E | Hin]; [congruence|].
  destruct fo as [|kc fo']; [exact Hin|].
  remember (kc :: fo') as fo eqn:Efo. clear Efo.
  unfold render_tree, rendered_folders_ul in Hin.
  rewrite flat_map_app in Hin. apply in_app_or in Hin.
  destruct Hin as [Hin | Hin].
  - fold (rendered_folders_ul (map file_li (root_files fo))) in Hin.
    rewrite file_items_no_folder in Hin. exact Hin.
  - apply in_flat_map in Hin. destruct Hin as (h & Hh & Hin).
    apply in_map_iff in Hh. destruct Hh as ([k h'] & <- & Hh).
    apply sorted_in in Hh. apply folder_items_spec in Hh.
    destruct Hh as (Hk & c & Hc & ->). simpl in Hin.
    rewrite List.Forall_forall in IH.
    exact (IH (k, c) Hc _ _ Hk Hin).
Qed.

Lemma render_tree_skips d parent_path :
  ~ In root_files_key (rendered_folders_ul (render_tree d parent_path)).
Proof.
  unfold render_tree, rendered_folders_ul. rewrite flat_map_app.
  intros Hin. apply in_app_or in Hin. destruct Hin as [Hin | Hin].
  - fold (rendered_folders_ul (map file_li (root_files d))) in Hin.
    rewrite file_items_no_folder in Hin. exact Hin.
  - apply in_flat_map in Hin. destruct Hin as (h & Hh & Hin).
    apply in_map_iff in Hh. destruct Hh as ([k h'] & <- & Hh).
    apply sorted_in in Hh. apply folder_items_spec in Hh.
    destruct Hh as (Hk & c & Hc & ->). simpl in Hin.
    exact (render_folder_skips c _ _ Hk Hin).
Qed.

Lemma shown_files_root d parent_path e :
  In e (root_files d) -> In (key e) (shown_files (render_tree d parent_path)).
Proof.
  intros H. unfold render_tree, shown_files. rewrite flat_map_app.
  apply in_or_app. left. apply in_flat_map. exists (file_li e).
  split; [now apply in_map | simpl; now left].
Qed.

End Render.

(** C10: [build_tree] keeps the files of the root in the node bound to
    the reserved key ["_root_files"] of the very mapping that holds the
    top folders.  For every listing, the entry of an object whose key has
    one segment is in the file list of that node, and the entry of an
    object whose first segment is literally ["_root_files"] is put inside
    that same node, at the chain of its remaining folder segments: for
    ["_root_files/<name>"] it joins the root files themselves and is shown
    as one of them.  The renderer shows no folder item named
    ["_root_files"], at any depth. *)
Theorem reserved_key_collects_and_is_no_folder :
  (forall objects,
      exists tree,
        build_tree objects = Some tree /\
        (forall obj,
            In obj objects ->
            length (PyStr.split (Key obj)) = 1 ->
            PyStr.nonempty (Key obj) = true ->
            In (entry_of obj) (root_files tree)) /\
        (forall obj rest,
            In obj objects ->
            PyStr.split (Key obj) = root_files_key :: rest ->
            rest <> [] ->
            PyStr.nonempty (PyStr.last1 rest) = true ->
            exists container m,
              Dict.get root_files_key tree = Some container /\
              node_at (PyStr.init rest) container = Some m /\
              In (entry_of obj) (files m)) /\
        (forall obj name,
            In obj objects ->
            PyStr.split (Key obj) = [root_files_key; name] ->
            PyStr.nonempty name = true ->
            In (entry_of obj) (root_files tree) /\
            In (Key obj) (shown_files (render_tree tree "")))) /\
  (forall tree parent_path,
      ~ In root_files_key (rendered_folders_ul (render_tree tree parent_path))).
Proof.
  split; [|intros; apply render_tree_skips].
  intros objects. unfold build_tree.
  destruct (build_from_spec objects []) as (tree & Hb & _ & Hp).
  assert (Hdeep : forall obj rest,
             In obj objects ->
             PyStr.split (Key obj) = root_files_key :: rest ->
             rest <> [] ->
             PyStr.nonempty (PyStr.last1 rest) = true ->
             exists container m,
               Dict.get root_files_key tree = Some container /\
               node_at (PyStr.init rest) container = Some m /\
               In (entry_of obj) (files m)).
  { intros obj rest Hin Hsplit Hrest Hlast.
    specialize (Hp obj Hin). rewrite Hsplit in Hp.
    destruct rest as [|r rest]; [congruence|].
    specialize (Hp Hlast).
    change (PyStr.init (root_files_key :: r :: rest))
      with (root_files_key :: PyStr.init (r :: rest)) in Hp.
    unfold files_under, files_at in Hp.
    change (node_at (root_files_key :: PyStr.init (r :: rest)) (mkNode [] tree))
      with (match Dict.get root_files_key tree with
            | None => None
            | Some c => node_at (PyStr.init (r :: rest)) c
            end) in Hp.
    destruct (Dict.get root_files_key tree) as [container|];
      [|exact (False_ind _ Hp)].
    destruct (node_at (PyStr.init (r :: rest)) container) as [m|] eqn:Hm;
      [|exact (False_ind _ Hp)].
    exists container, m. auto. }
  exists tree. split; [exact Hb|]. split; [|split].
  - intros obj Hin Hlen Hne. specialize (Hp obj Hin).
    destruct (PyStr.split (Key obj)) as [|seg [|seg' segs]] eqn:Hs;
      simpl in Hlen; try discriminate.
    apply split_single in Hs. subst seg. exact (Hp Hne).
  - exact Hdeep.
  - intros obj name Hin Hsplit Hname.
    destruct (Hdeep obj [name] Hin Hsplit) as (container & m & Hc & Hm & He);
      [discriminate | exact Hname |].
    simpl in Hm. injection Hm as <-.
    assert (Hroot : In (entry_of obj) (root_files tree))
      by (unfold root_files; now rewrite Hc).
    split; [exact Hroot|].
    exact (shown_files_root tree "" (entry_of obj) Hroot).
Qed.

(** ** Folder statistics *)

Lemma stats_step_skips_folder folder_path st obj :
  Key obj = folder_path -> Info.stats_step folder_path st obj = st.
Proof.
  intros <-. unfold Info.stats_step. now rewrite String.eqb_refl.
Qed.

(** C7: over the listing a/b.txt (10), a/c/d.txt (20), root.txt (5) the
    folder information for the prefix a/ (given with or without its
    final delimiter) has file_count 2, subfolder_count 1 and
    total_size_bytes 30; and an object whose key is the normalized prefix
    itself leaves the size and the subfolders as they are. *)
Theorem folder_info_scenario :
  Info.folder_info scenario_storage "a/" =
    Info.InfoOk {| Info.info_path := "a";
                   Info.info_file_count := 2;
                   Info.info_total_size_bytes := 30;
                   Info.info_subfolder_count := 1 |} /\
  Info.folder_info scenario_storage "a" =
    Info.folder_info scenario_storage "a/" /\
  (forall folder_path st obj,
      Key obj = normalize folder_path ->
      Info.stats_step (normalize folder_path) st obj = st).
Proof.
  split; [vm_compute; reflexivity|]. split; [vm_compute; reflexivity|].
  intros folder_path st obj H. now apply stats_step_skips_folder.
Qed.

(** ** The registry under the other handlers *)

Section Registry.
Implicit Types (srv : Server) (id k : string) (m : gmap string Task).

Lemma wake_lookup l : forall m k,
  fold_left wake l m !! k = None \/ fold_left wake l m !! k = m !! k.
Proof.
  induction l as [|c l IH]; intros m k; simpl; [now right|].
  destruct (IH (wake m c) k) as [H | H]; [now left|].
  rewrite H. unfold wake. destruct (Nat.eqb (fst c) 0); [|now right].
  destruct (decide (snd c = k)) as [-> | Hne].
  - left. apply lookup_delete_eq.
  - right. now apply lookup_delete_ne.
Qed.

Lemma wake_other l : forall m k,
  (forall c, In c l -> fst c = 0 -> snd c <> k) ->
  fold_left wake l m !! k = m !! k.
Proof.
  induction l as [|c l IH]; intros m k H; simpl; [reflexivity|].
  rewrite IH by (intros c' Hc'; apply H; now right).
  unfold wake. destruct (Nat.eqb (fst c) 0) eqn:E; [|reflexivity].
  apply lookup_delete_ne. apply H; [now left | now apply Nat.eqb_eq].
Qed.

Lemma wake_hit l : forall m k,
  In (0, k) l -> fold_left wake l m !! k = None.
Proof.
  induction l as [|c l IH]; intros m k; simpl; [intros []|].
  intros [-> | H]; [|now apply IH].
  destruct (wake_lookup l (wake m (0, k)) k) as [E | E]; [exact E|].
  rewrite E. unfold wake. simpl. apply lookup_delete_eq.
Qed.

Lemma tick_tasks srv :
  download_tasks (tick srv) =
  fold_left wake (map (fun c => (Nat.pred (fst c), snd c)) (cleanups srv))
            (download_tasks srv).
Proof. reflexivity. Qed.

Lemma tick_cleanups srv n id :
  In (n, id) (cleanups (tick srv)) <-> In (S n, id) (cleanups srv) /\ n <> 0.
Proof.
  unfold tick. simpl. rewrite filter_In, in_map_iff. simpl. split.
  - intros [([n' id'] & E & Hin) Hn]. simpl in E. injection E as <- <-.
    destruct n' as [|n']; simpl in *; [discriminate|].
    split; [exact Hin|]. destruct n'; [discriminate | lia].
  - intros [Hin Hn]. split.
    + exists (S n, id). split; [reflexivity | exact Hin].
    + destruct n; [contradiction | reflexivity].
Qed.

Lemma kept_refl o : kept o o.
Proof. destruct o as [t|]; [right | now left]. exists t, t. auto. Qed.

Lemma env_step_kept l srv k :
  kept (download_tasks srv !! k) (download_tasks (env_step l srv) !! k).
Proof.
  destruct l as [|id|id|]; unfold env_step.
  - apply kept_refl.
  - unfold cancel_download.
    destruct (download_tasks srv !! id) as [t|] eqn:Hid; simpl;
      [|apply kept_refl].
    destruct (decide (id = k)) as [-> | Hne].
    + rewrite lookup_insert_eq, Hid. right. eexists _, _.
      split; [reflexivity|]. split; [reflexivity|]. simpl. auto.
    + rewrite lookup_insert_ne by assumption. apply kept_refl.
  - unfold get_zip. destruct (download_tasks srv !! id) as [t|]; simpl;
      [|apply kept_refl].
    destruct (zip_buffer t); simpl; apply kept_refl.
  - rewrite tick_tasks.
    destruct (wake_lookup (map (fun c => (Nat.pred (fst c), snd c)) (cleanups srv))
                (download_tasks srv) k) as [H | H]; rewrite H.
    + now left.
    + apply kept_refl.
Qed.

Lemma kept_no_buffer srv srv' id :
  kept (download_tasks srv !! id) (download_tasks srv' !! id) ->
  holds_buffer srv id = false -> holds_buffer srv' id = false.
Proof.
  unfold holds_buffer. intros [-> | (t & t' & -> & -> & Hz & _)]; [reflexivity|].
  now rewrite Hz.
Qed.

Lemma kept_none srv srv' id :
  kept (download_tasks srv !! id) (download_tasks srv' !! id) ->
  download_tasks srv !! id = None -> download_tasks srv' !! id = None.
Proof.
  intros [H | (t & t' & H & _)] E; [exact H | congruence].
Qed.

(** Without a cleanup that sleeps for it, an entry that no get-zip
    request asks for stays, with its archive. *)
Lemma env_step_stays l srv id t :
  l <> LGetZip id ->
  no_cleanup_for id srv ->
  download_tasks srv !! id = Some t ->
  no_cleanup_for id (env_step l srv) /\
  exists t', download_tasks (env_step l srv) !! id = Some t' /\
             zip_buffer t' = zip_buffer t /\
             folder_name t' = folder_name t /\
             (cancelled t = true -> cancelled t' = true).
Proof.
  intros Hl Hno Hid. destruct l as [|id'|id'|]; unfold env_step.
  - split; [exact Hno|]. exists t. auto.
  - unfold cancel_download.
    destruct (download_tasks srv !! id') as [t0|] eqn:H0; simpl.
    + split; [exact Hno|]. destruct (decide (id' = id)) as [-> | Hne].
      * rewrite lookup_insert_eq. eexists. split; [reflexivity|].
        assert (t0 = t) by congruence. subst t0. simpl. auto.
      * rewrite lookup_insert_ne by assumption. exists t. auto.
    + split; [exact Hno|]. exists t. auto.
  - assert (Hne : id' <> id) by congruence.
    unfold get_zip. destruct (download_tasks srv !! id') as [t0|]; simpl.
    + destruct (zip_buffer t0); simpl.
      * split; [|exists t; auto].
        intros c Hc. apply in_app_or in Hc. destruct Hc as [Hc | [<- | []]].
        -- now apply Hno.
        -- exact Hne.
      * split; [exact Hno|]. exists t. auto.
    + split; [exact Hno|]. exists t. auto.
  - split.
    + intros [n id0] Hc. apply tick_cleanups in Hc. destruct Hc as [Hc _].
      exact (Hno _ Hc).
    + rewrite tick_tasks, wake_other; [exists t; auto|].
      intros c Hc _. apply in_map_iff in Hc. destruct Hc as (c0 & <- & Hc0).
      simpl. now apply Hno.
Qed.


Lemma env_step_evicted l r id srv :
  evicted_within r id srv ->
  evicted_within (match l with LTick => Nat.pred r | _ => r end) id
                 (env_step l srv).
Proof.
  intros [H | (n & Hin & Hn)].
  - left. exact (kept_none _ _ _ (env_step_kept l srv id) H).
  - destruct l as [|id'|id'|]; unfold env_step.
    + right. eauto.
    + right. exists n. split; [|exact Hn].
      unfold cancel_download. destruct (download_tasks srv !! id'); exact Hin.
    + right. exists n. split; [|exact Hn].
      unfold get_zip. destruct (download_tasks srv !! id') as [t|]; [|exact Hin].
      destruct (zip_buffer t); simpl; [|exact Hin].
      apply in_or_app. now left.
    + destruct n as [|[|n]]; [lia | |].
      * left. rewrite tick_tasks. apply wake_hit. apply in_map_iff.
        exists (1, id). split; [reflexivity | exact Hin].
      * right. exists (S n). split; [|lia].
        apply tick_cleanups. split; [exact Hin | discriminate].
Qed.

Lemma evicted_within_0 id srv :
  evicted_within 0 id srv -> download_tasks srv !! id = None.
Proof. intros [H | (n & _ & Hn)]; [exact H | lia]. Qed.

Lemma get_zip_schedules id srv z name srv' :
  get_zip id srv = (ZipSent z name, srv') ->
  evicted_within eviction_delay id srv'.
Proof.
  unfold get_zip. destruct (download_tasks srv !! id) as [t|]; [|discriminate].
  destruct (zip_buffer t); [|discriminate]. intros H. injection H as _ _ <-.
  right. exists eviction_delay. simpl. split; [|unfold eviction_delay; lia].
  apply in_or_app. right. now left.
Qed.

Lemma not_found_answer id srv :
  download_tasks srv !! id = None -> get_zip_answer id srv = NotFound.
Proof. unfold get_zip_answer, get_zip. now intros ->. Qed.

End Registry.

(** ** The generator on its own *)

Section GeneratorFacts.
Variable s : Storage.
Variable folder_path : string.
Variable task_id : string.

Lemma progress_of_snoc evs e :
  progress_of (app evs [e]) =
  app (progress_of evs)
      (match e with EvProgress c t => [(c, t)] | _ => [] end).
Proof.
  unfold progress_of. rewrite flat_map_app. simpl. now rewrite app_nil_r.
Qed.

Lemma in_snoc {A} (x y : A) l : In x (app l [y]) <-> In x l \/ x = y.
Proof.
  split.
  - intros H. apply in_app_or in H. destruct H as [H | [H | []]]; auto.
  - intros [H | ->]; apply in_or_app; [now left | right; now left].
Qed.

Lemma gen_start_inv : GenInv s folder_path gen_start.
Proof.
  constructor; simpl; try discriminate; auto; try lia.
  intros [H | H]; discriminate.
Qed.

Ltac inv_prep :=
  repeat match goal with
         | H : true = true -> _ |- _ => specialize (H eq_refl)
         | H : _ \/ true = true -> _ |- _ => specialize (H (or_intror eq_refl))
         | H : ?x = ?x \/ _ -> _ |- _ => specialize (H (or_introl eq_refl))
         | H : ?x = ?x -> _ |- _ => specialize (H eq_refl)
         | H : false = true -> _ |- _ => clear H
         end.

Ltac inv_auto :=
  repeat match goal with
         | H : _ /\ _ |- _ => destruct H
         | H : In _ (app _ [_]) |- _ => apply in_snoc in H
         | H : _ \/ _ |- _ => destruct H
         | H : EvComplete _ = _ |- _ => first [discriminate H | injection H as ->]
         | H : EvCancelled = _ |- _ => discriminate H
         | H : EvProgress _ _ = _ |- _ => discriminate H
         | H : EvError _ = _ |- _ => discriminate H
         | H : AtLoop _ = AtLoop _ |- _ => injection H as ->
         | |- _ /\ _ => split
         | |- forall _, _ => intro
         | |- ~ _ => intro
         end;
  try discriminate; try congruence; auto; try lia.

Lemma process_inv obj rest g :
  GenInv s folder_path g ->
  pc g = AtLoop (obj :: rest) ->
  GenInv s folder_path (process s folder_path obj rest g).
Proof.
  intros [] Hpc. destruct g as [pc0 objs z fc tb em]. simpl in *. subst pc0.
  specialize (gi_loop0 _ eq_refl). simpl in gi_loop0.
  assert (Hreg : registered
            {| pc := AtLoop (obj :: rest); objects := objs; zip_file := z;
               file_count := fc; total_bytes := tb; emitted := em |} = true)
    by reflexivity.
  unfold registered, after_loop in *. simpl in *. inv_prep.
  unfold process.
  destruct (String.eqb (Key obj) (folder_path_normalized folder_path)).
  { constructor; unfold registered, after_loop; simpl; inv_auto.
    all: try (edestruct gi_complete0; eauto; inv_auto; fail).
    all: try (edestruct gi_cancelled0; eauto; inv_auto; fail). }
  destruct (get_object s (Key obj)) as [file_data|].
  2:{ constructor; unfold registered, after_loop; simpl; inv_auto.
      all: try (edestruct gi_complete0; eauto; inv_auto; fail).
      all: try (edestruct gi_cancelled0; eauto; inv_auto; fail). }
  destruct (PyStr.nonempty _).
  2:{ constructor; unfold registered, after_loop; simpl; inv_auto.
      all: try (edestruct gi_complete0; eauto; inv_auto; fail).
      all: try (edestruct gi_cancelled0; eauto; inv_auto; fail). }
  constructor; unfold registered, after_loop; simpl;
    try rewrite progress_of_snoc; inv_auto.
  all: try (edestruct gi_complete0; eauto; inv_auto; fail).
  all: try (edestruct gi_cancelled0; eauto; inv_auto; fail).
  - change ((1, length objs) :: map (fun c => (c, length objs)) (seq 2 fc))
      with (map (fun c => (c, length objs)) (seq 1 (S fc))).
    rewrite gi_progress0, seq_S, map_app. reflexivity.
  - rewrite length_app. simpl. lia.
Qed.

Ltac inv_close H1 H2 :=
  constructor; unfold registered, after_loop; simpl;
  try rewrite progress_of_snoc; try rewrite app_nil_r; inv_auto;
  try (edestruct H1; eauto; inv_auto; fail);
  try (edestruct H2; eauto; inv_auto; fail).

Lemma nonempty_length {A} (l : list A) :
  l <> [] -> negb (Nat.eqb (length l) 0) = true.
Proof. destruct l; [congruence | reflexivity]. Qed.

Lemma gen_step_inv srv g :
  GenInv s folder_path g ->
  GenInv s folder_path (snd (gen_step s folder_path task_id srv g)).
Proof.
  intros Hinv. unfold gen_step.
  destruct (pc g) as [| |[|obj rest]| | | | |] eqn:Hpc.
  - rewrite (gi_start _ _ _ Hinv Hpc).
    unfold folder_path_normalized.
    destruct (list_all s (normalize folder_path)) as [objs|msg] eqn:Hl; simpl.
    + destruct objs as [|o objs]; simpl.
      * constructor; unfold registered, after_loop; simpl; inv_auto.
      * constructor; unfold registered, after_loop; simpl; inv_auto.
    + constructor; unfold registered, after_loop; simpl; inv_auto.
  - destruct Hinv. destruct g as [pc0 objs z fc tb em]. simpl in *. subst pc0.
    unfold registered, after_loop in *. simpl in *. inv_prep.
    destruct gi_init0 as [-> ->]. destruct gi_listed0 as [Hl Hne].
    constructor; unfold registered, after_loop; simpl; inv_auto.
  - destruct Hinv. destruct g as [pc0 objs z fc tb em]. simpl in *. subst pc0.
    unfold registered, after_loop in *. simpl in *. inv_prep.
    inv_close gi_complete0 gi_cancelled0.
  - destruct (cancel_requested (download_tasks srv) task_id); simpl;
      [|now apply process_inv].
    destruct Hinv. destruct g as [pc0 objs z fc tb em]. simpl in *. subst pc0.
    unfold registered, after_loop in *. simpl in *. inv_prep.
    destruct gi_listed0 as [Hl Hne]. pose proof (nonempty_length _ Hne).
    inv_close gi_complete0 gi_cancelled0.
  - destruct Hinv. destruct g as [pc0 objs z fc tb em]. simpl in *. subst pc0.
    unfold registered, after_loop in *. simpl in *. inv_prep.
    destruct gi_listed0 as [Hl Hne]. pose proof (nonempty_length _ Hne).
    destruct (cancel_requested (download_tasks srv) task_id); simpl;
      inv_close gi_complete0 gi_cancelled0.
  - destruct Hinv. destruct g as [pc0 objs z fc tb em]. simpl in *. subst pc0.
    unfold registered, after_loop in *. simpl in *. inv_prep.
    destruct gi_listed0 as [Hl Hne]. pose proof (nonempty_length _ Hne).
    destruct (download_tasks srv !! task_id); simpl;
      inv_close gi_complete0 gi_cancelled0.
  - destruct Hinv. destruct g as [pc0 objs z fc tb em]. simpl in *. subst pc0.
    unfold registered, after_loop in *. simpl in *. inv_prep.
    destruct gi_listed0 as [Hl Hne]. pose proof (nonempty_length _ Hne).
    destruct (download_tasks srv !! task_id); simpl;
      inv_close gi_complete0 gi_cancelled0.
  - destruct Hinv. destruct g as [pc0 objs z fc tb em]. simpl in *. subst pc0.
    unfold registered, after_loop in *. simpl in *. inv_prep.
    destruct gi_listed0 as [Hl Hne]. pose proof (nonempty_length _ Hne).
    inv_close gi_complete0 gi_cancelled0.
  - exact Hinv.
Qed.

Lemma process_facts obj rest g :
  pc (process s folder_path obj rest g) = AtLoop rest /\
  (In EvCancelled (emitted (process s folder_path obj rest g)) ->
   In EvCancelled (emitted g)).
Proof.
  unfold process.
  destruct (String.eqb (Key obj) (folder_path_normalized folder_path));
    [simpl; auto|].
  destruct (get_object s (Key obj)); [|simpl; auto].
  destruct (PyStr.nonempty _); simpl; [|auto].
  split; [reflexivity|]. intros H. apply in_snoc in H.
  destruct H as [H | H]; [exact H | discriminate].
Qed.

Lemma no_buffer_absurd srv id t z :
  holds_buffer srv id = false ->
  download_tasks srv !! id = Some t -> zip_buffer t = Some z -> False.
Proof.
  unfold holds_buffer. intros H Ht E. rewrite Ht, E in H. discriminate.
Qed.

Lemma holds_buffer_insert srv id t :
  holds_buffer (with_tasks (<[id := t]> (download_tasks srv)) srv) id =
  match zip_buffer t with Some _ => true | None => false end.
Proof. unfold holds_buffer. simpl. now rewrite lookup_insert_eq. Qed.

Ltac sys_snoc :=
  match goal with
  | H : In _ (app _ [_]) |- _ =>
      apply in_snoc in H; destruct H; [contradiction | discriminate]
  end.

Lemma gen_step_sys_inv srv g :
  GenInv s folder_path g ->
  SysInv task_id {| server := srv; gen := g |} ->
  SysInv task_id
    {| server := fst (gen_step s folder_path task_id srv g);
       gen := snd (gen_step s folder_path task_id srv g) |}.
Proof.
  intros Hg [Hbs Hc Hb]. simpl in *. unfold gen_step.
  destruct (pc g) as [| |[|obj rest]| | | | |] eqn:Hpc.
  - rewrite (gi_start _ _ _ Hg Hpc). unfold folder_path_normalized.
    destruct (list_all s (normalize folder_path)) as [objs|msg]; simpl.
    + destruct objs; simpl; constructor; simpl; try discriminate;
        intros H; try apply in_snoc in H; simpl in H; intuition discriminate.
    + constructor; unfold registered; simpl; try discriminate.
      intros [H | []]; discriminate.
  - destruct (gi_init _ _ _ Hg Hpc) as [Hem _]. simpl.
    constructor; simpl; intros.
    + apply holds_buffer_insert.
    + rewrite Hem in *. contradiction.
    + rewrite lookup_insert_eq in *. simplify_eq.
  - assert (Hnb : holds_buffer srv task_id = false)
      by (apply Hbs; unfold before_store; now rewrite Hpc).
    simpl. constructor; simpl; intros; auto.
    exfalso. eapply no_buffer_absurd; eauto.
  - assert (Hnb : holds_buffer srv task_id = false)
      by (apply Hbs; unfold before_store; now rewrite Hpc).
    destruct (cancel_requested (download_tasks srv) task_id); simpl.
    + constructor; simpl; intros; auto.
      exfalso. eapply no_buffer_absurd; eauto.
    + destruct (process_facts obj rest g) as [Hp Hpe].
      constructor; simpl; intros; auto.
      exfalso. eapply no_buffer_absurd; eauto.
  - assert (Hnb : holds_buffer srv task_id = false)
      by (apply Hbs; unfold before_store; now rewrite Hpc).
    destruct (cancel_requested (download_tasks srv) task_id); simpl;
      constructor; simpl; intros; auto;
      exfalso; eapply no_buffer_absurd; eauto.
  - assert (Hnb : holds_buffer srv task_id = false)
      by (apply Hbs; unfold before_store; now rewrite Hpc).
    assert (Hnc : ~ In EvCancelled (emitted g)).
    { intros H. destruct (gi_cancelled _ _ _ Hg H) as [E _]. congruence. }
    destruct (download_tasks srv !! task_id) as [t|] eqn:Ht; simpl.
    + constructor; simpl; intros; try contradiction; try discriminate.
      rewrite lookup_insert_eq in *. simplify_eq. simpl in *. simplify_eq.
      split; [reflexivity|]. apply (gi_closed _ _ _ Hg).
      unfold after_loop. now rewrite Hpc.
    + constructor; simpl; intros; try discriminate; try congruence;
        try sys_snoc.
  - assert (Hnc : ~ In EvCancelled (emitted g)).
    { intros H. destruct (gi_cancelled _ _ _ Hg H) as [E _]. congruence. }
    assert (Hreg : registered g = true) by (unfold registered; now rewrite Hpc).
    destruct (download_tasks srv !! task_id) as [t|] eqn:Ht; simpl.
    + constructor; simpl; intros; try contradiction; try discriminate.
      rewrite lookup_insert_eq in *. simplify_eq. simpl in *.
      eapply Hb; eauto.
    + constructor; simpl; intros; try discriminate; try congruence;
        try sys_snoc.
  - assert (Hnc : ~ In EvCancelled (emitted g)).
    { intros H. destruct (gi_cancelled _ _ _ Hg H) as [E _]. congruence. }
    assert (Hreg : registered g = true) by (unfold registered; now rewrite Hpc).
    simpl. constructor; simpl; intros; try discriminate; eauto;
      try sys_snoc.
  - simpl. constructor; simpl; auto.
Qed.

Lemma env_step_sys_inv l srv g :
  SysInv task_id {| server := srv; gen := g |} ->
  SysInv task_id {| server := env_step l srv; gen := g |}.
Proof.
  intros [Hbs Hc Hb]. simpl in *.
  pose proof (env_step_kept l srv task_id) as Hk.
  constructor; simpl.
  - intros H. exact (kept_no_buffer _ _ _ Hk (Hbs H)).
  - intros H. exact (kept_no_buffer _ _ _ Hk (Hc H)).
  - intros Hreg t' z Ht' Hz.
    destruct Hk as [Hk | (t & t0 & Ht & Ht0 & Ez & _)]; [congruence|].
    assert (t0 = t') by congruence. subst t0.
    apply (Hb Hreg t z Ht). congruence.
Qed.

Lemma step_gen sys l :
  step s folder_path task_id sys l =
  match l with
  | LGen =>
      {| server := fst (gen_step s folder_path task_id (server sys) (gen sys));
         gen := snd (gen_step s folder_path task_id (server sys) (gen sys)) |}
  | _ => {| server := env_step l (server sys); gen := gen sys |}
  end.
Proof.
  destruct l; simpl; try reflexivity.
  destruct (gen_step s folder_path task_id (server sys) (gen sys)); reflexivity.
Qed.

Lemma step_inv sys l :
  GenInv s folder_path (gen sys) /\ SysInv task_id sys ->
  GenInv s folder_path (gen (step s folder_path task_id sys l)) /\
  SysInv task_id (step s folder_path task_id sys l).
Proof.
  intros [Hg Hs]. destruct sys as [srv g]. rewrite step_gen. simpl in *.
  destruct l; cbn [server gen];
    [split; [now apply gen_step_inv | now apply gen_step_sys_inv]
    | split; [exact Hg | now apply env_step_sys_inv] ..].
Qed.

Lemma run_inv sched : forall sys,
  GenInv s folder_path (gen sys) /\ SysInv task_id sys ->
  GenInv s folder_path (gen (run s folder_path task_id sched sys)) /\
  SysInv task_id (run s folder_path task_id sched sys).
Proof.
  induction sched as [|l sched IH]; intros sys H; simpl; [exact H|].
  apply IH. now apply step_inv.
Qed.

Lemma start_inv srv :
  GenInv s folder_path (gen (start srv)) /\ SysInv task_id (start srv).
Proof.
  split; [apply gen_start_inv|].
  constructor; simpl; try discriminate. intros [].
Qed.

Lemma run_start_inv sched srv :
  GenInv s folder_path (gen (run s folder_path task_id sched (start srv))) /\
  SysInv task_id (run s folder_path task_id sched (start srv)).
Proof. apply run_inv, start_inv. Qed.

Lemma run_app sched1 sched2 sys :
  run s folder_path task_id (app sched1 sched2) sys =
  run s folder_path task_id sched2 (run s folder_path task_id sched1 sys).
Proof. unfold run. apply fold_left_app. Qed.



End GeneratorFacts.

(** ** Cancellation *)



(** ** Progress *)

Lemma currents_of_progress (total fc : nat) :
  map fst (map (fun c => (c, total)) (seq 1 fc)) = seq 1 fc.
Proof. rewrite map_map. simpl. apply map_id. Qed.

Lemma progress_registered s folder_path g :
  GenInv s folder_path g ->
  progress_of (emitted g) <> [] -> registered g = true.
Proof.
  intros Hg Hne. rewrite (gi_progress _ _ _ Hg) in Hne.
  assert (Hfc : file_count g <> 0).
  { intros E. rewrite E in Hne. now apply Hne. }
  pose proof (gi_bound _ _ _ Hg) as Hb.
  unfold registered. destruct (pc g) eqn:Hpc; try reflexivity.
  - rewrite (gi_start _ _ _ Hg Hpc) in Hfc. now contradiction Hfc.
  - destruct (gi_init _ _ _ Hg Hpc) as [_ E]. contradiction.
  - destruct (objects g); simpl in *; [lia | reflexivity].
Qed.

(** C6: in every run of the generator, interleaved in any way with the
    other requests, the [current] values of the progress events emitted
    so far are 1, 2, 3, ... in this order, hence strictly increasing;
    every progress event has [current <= total], where [total] is the
    number of objects of the listing; the archive is closed when the
    generator is about to emit the complete event, and once that event is
    emitted the archive is closed, holds as many members as the event
    reports, and an archive found in the registry for the task is that
    closed archive. *)
Theorem progress_increases_and_archive_is_closed_first
    (s : Storage) (folder_path task_id : string) (srv : Server)
    (sched : list Label) :
  let sys := run s folder_path task_id sched (start srv) in
  let g := gen sys in
  let stream := progress_of (emitted g) in
  let currents := map fst stream in
  (forall i j ci cj,
      i < j -> currents !! i = Some ci -> currents !! j = Some cj -> ci < cj) /\
  currents = seq 1 (length currents) /\
  (forall c t, In (c, t) stream -> c <= t /\ t = length (objects g)) /\
  (stream <> [] ->
   list_all s (normalize folder_path) = Returned (objects g)) /\
  (pc g = AtComplete -> closed (zip_file g) = true) /\
  (forall n,
      In (EvComplete n) (emitted g) ->
      closed (zip_file g) = true /\
      n = length (members (zip_file g)) /\
      forall t z,
        download_tasks (server sys) !! task_id = Some t ->
        zip_buffer t = Some z -> z = zip_file g /\ closed z = true).
Proof.
  intros sys g stream currents.
  destruct (run_start_inv s folder_path task_id sched srv) as [Hg Hs].
  fold sys in Hg, Hs. fold g in Hg.
  assert (Hstream : stream =
            map (fun c => (c, length (objects g))) (seq 1 (file_count g)))
    by apply (gi_progress _ _ _ Hg).
  assert (Hcur : currents = seq 1 (file_count g))
    by (unfold currents; rewrite Hstream; apply currents_of_progress).
  split; [|split; [|split; [|split; [|split]]]].
  - intros i j ci cj Hij Hi Hj. rewrite Hcur in Hi, Hj.
    apply lookup_seq in Hi, Hj. lia.
  - rewrite Hcur at 2. rewrite length_seq. exact Hcur.
  - intros c t Hin. rewrite Hstream in Hin. apply in_map_iff in Hin.
    destruct Hin as (c' & E & Hc'). injection E as -> <-.
    apply in_seq in Hc'. pose proof (gi_bound _ _ _ Hg). split; [lia | reflexivity].
  - intros Hne. apply (gi_listed _ _ _ Hg). right.
    now apply (progress_registered s folder_path).
  - intros Hpc. apply (gi_closed _ _ _ Hg). unfold after_loop. now rewrite Hpc.
  - intros n Hin. destruct (gi_complete _ _ _ Hg n Hin) as (_ & Hcl & -> & Hreg).
    split; [exact Hcl|]. split; [symmetry; now apply (gi_members _ _ _ Hg)|].
    exact (si_buffer _ _ Hs Hreg).
Qed.

(** ** The empty listing *)

Section EmptyListing.
Variable s : Storage.
Variable folder_path : string.
Variable task_id : string.
Hypothesis listing_empty : list_all s (normalize folder_path) = Returned [].

Let no_files : Gen :=
  yield (EvError "No files found in folder") Finished gen_start.

Lemma run_after_no_files sched : forall srv,
  run s folder_path task_id sched {| server := srv; gen := no_files |} =
  {| server := run_env sched srv; gen := no_files |}.
Proof.
  induction sched as [|l sched IH]; intros srv; simpl; [reflexivity|].
  rewrite <- IH. f_equal. destruct l; reflexivity.
Qed.

Lemma run_empty_listing sched : forall srv,
  run s folder_path task_id sched (start srv) =
  {| server := run_env sched srv;
     gen := if existsb is_gen sched then no_files else gen_start |}.
Proof.
  induction sched as [|l sched IH]; intros srv; [reflexivity|].
  destruct l.
  - change (run s folder_path task_id (LGen :: sched) (start srv))
      with (run s folder_path task_id sched
              (step s folder_path task_id (start srv) LGen)).
    assert (E : step s folder_path task_id (start srv) LGen =
                {| server := srv; gen := no_files |}).
    { rewrite step_gen. simpl. unfold gen_step. simpl.
      unfold folder_path_normalized. rewrite listing_empty. reflexivity. }
    rewrite E, run_after_no_files. reflexivity.
  - apply (IH (env_step (LCancel id) srv)).
  - apply (IH (env_step (LGetZip id) srv)).
  - apply (IH (env_step LTick srv)).
Qed.

End EmptyListing.

Lemma run_env_kept sched : forall srv k,
  kept (download_tasks srv !! k) (download_tasks (run_env sched srv) !! k).
Proof.
  induction sched as [|l sched IH]; intros srv k; simpl; [apply kept_refl|].
  specialize (IH (env_step l srv) k).
  pose proof (env_step_kept l srv k) as H.
  destruct IH as [E | (t1 & t2 & E1 & E2 & Hz & Hn & Hc)]; [now left|].
  destruct H as [E | (t0 & t1' & E0 & E1' & Hz' & Hn' & Hc')]; [congruence|].
  assert (t1' = t1) by congruence. subst t1'.
  right. exists t0, t2. repeat split; try assumption; try congruence. auto.
Qed.

(** C8: when the listing of the normalized prefix is empty, the
    generator, run among any other requests, emits the single event
    error "No files found in folder" at its first step and ends; the
    registry is at every moment what the other requests alone make of it:
    the generator creates and stores nothing, and a task id that has no
    entry before the run has none after it. *)
Theorem empty_listing_emits_one_error
    (s : Storage) (folder_path task_id : string) (srv : Server)
    (sched : list Label) :
  list_all s (normalize folder_path) = Returned [] ->
  let sys := run s folder_path task_id sched (start srv) in
  server sys = run_env sched srv /\
  (existsb is_gen sched = true ->
   emitted (gen sys) = [EvError "No files found in folder"] /\
   pc (gen sys) = Finished) /\
  (existsb is_gen sched = false ->
   emitted (gen sys) = [] /\ pc (gen sys) = AtListing) /\
  (download_tasks srv !! task_id = None ->
   download_tasks (server sys) !! task_id = None).
Proof.
  intros Hl sys. subst sys. rewrite (run_empty_listing _ _ _ Hl). simpl.
  split; [reflexivity|]. split; [|split].
  - intros ->. split; reflexivity.
  - intros ->. split; reflexivity.
  - apply kept_none, run_env_kept.
Qed.

Lemma empty_listing_witness :
  list_all scenario_storage (normalize "empty") = Returned [] /\
  emitted (gen (run scenario_storage "empty" "t1" [LGen; LCancel "t1"; LGen]
                    (start fresh_server))) =
    [EvError "No files found in folder"] /\
  download_tasks
    (server (run scenario_storage "empty" "t1" [LGen; LCancel "t1"; LGen]
                 (start fresh_server))) !! "t1" = None.
Proof.
  split; [reflexivity|].
  destruct (empty_listing_emits_one_error scenario_storage "empty" "t1"
              fresh_server [LGen; LCancel "t1"; LGen] eq_refl)
    as (_ & H1 & _ & H2).
  split; [apply H1; reflexivity | apply H2; reflexivity].
Defined.

(** ** The archive format *)

Lemma legacy_fold_compression s folder_path objects : forall z,
  compression (fold_left (legacy_add s folder_path) objects z) = compression z.
Proof.
  induction objects as [|o objects IH]; intros z; simpl; [reflexivity|].
  rewrite IH. unfold legacy_add.
  destruct (String.eqb (Key o) folder_path); [reflexivity|].
  destruct (get_object s (Key o)); [|reflexivity].
  destruct (PyStr.nonempty _); reflexivity.
Qed.

Lemma mode_by_size (c : Compression) (n : nat) :
  c = (if Nat.ltb 100 n then ZIP_STORED else ZIP_DEFLATED) ->
  (c = ZIP_STORED <-> 100 < n) /\ (c = ZIP_DEFLATED <-> n <= 100).
Proof.
  intros ->. destruct (Nat.ltb 100 n) eqn:E.
  - apply Nat.ltb_lt in E. repeat split; intros; try lia; discriminate.
  - apply Nat.ltb_ge in E. repeat split; intros; try lia; discriminate.
Qed.

(** C9: for a listing that is not empty, the archive of the generator,
    from the moment it is opened and in every interleaving with the other
    requests, and the archive that the legacy download sends are both in
    stored mode exactly when the listing has more than 100 objects, and
    in deflated mode exactly when it has at most 100; the same holds of
    an archive found in the registry for the task once the generator has
    registered it. *)
Theorem compression_follows_listing_size
    (s : Storage) (folder_path task_id : string) (srv : Server)
    (sched : list Label) (objs : list ObjectRecord) :
  list_all s (normalize folder_path) = Returned objs ->
  objs <> [] ->
  let sys := run s folder_path task_id sched (start srv) in
  let opened := run_alone s folder_path task_id 2 srv in
  (registered (gen opened) = true /\
   (compression (zip_file (gen opened)) = ZIP_STORED <-> 100 < length objs)) /\
  (registered (gen sys) = true ->
   (compression (zip_file (gen sys)) = ZIP_STORED <-> 100 < length objs) /\
   (compression (zip_file (gen sys)) = ZIP_DEFLATED <-> length objs <= 100) /\
   forall t z,
     download_tasks (server sys) !! task_id = Some t ->
     zip_buffer t = Some z ->
     (compression z = ZIP_STORED <-> 100 < length objs)) /\
  exists z name,
    download_folder s folder_path = SendFile z name /\
    (compression z = ZIP_STORED <-> 100 < length objs) /\
    (compression z = ZIP_DEFLATED <-> length objs <= 100).
Proof.
  intros Hl Hne sys opened.
  assert (Hmode : forall sched',
             let g := gen (run s folder_path task_id sched' (start srv)) in
             registered g = true ->
             compression (zip_file g) =
             if Nat.ltb 100 (length objs) then ZIP_STORED else ZIP_DEFLATED).
  { intros sched' g Hreg.
    destruct (run_start_inv s folder_path task_id sched' srv) as [Hg _].
    fold g in Hg. rewrite (gi_mode _ _ _ Hg Hreg).
    destruct (gi_listed _ _ _ Hg (or_intror Hreg)) as [E _].
    rewrite Hl in E. injection E as <-. reflexivity. }
  assert (Hopened : registered (gen opened) = true).
  { destruct objs as [|o objs'] eqn:Eo; [congruence|].
    assert (E1 : gen_step s folder_path task_id srv gen_start =
                 (srv, {| pc := AtInit; objects := o :: objs';
                          zip_file := zip_open ZIP_DEFLATED;
                          file_count := 0; total_bytes := 0;
                          emitted := [] |})).
    { unfold gen_step. simpl. unfold folder_path_normalized.
      rewrite Hl. reflexivity. }
    unfold opened, run_alone. cbn [repeat run fold_left].
    rewrite !step_gen. cbn [server gen start]. rewrite E1. reflexivity. }
  split; [|split].
  - split; [exact Hopened|].
    apply (mode_by_size _ _ (Hmode (repeat LGen 2) Hopened)).
  - intros Hreg. pose proof (mode_by_size _ _ (Hmode sched Hreg)) as [H1 H2].
    split; [exact H1|]. split; [exact H2|].
    intros t z Ht Hz.
    destruct (run_start_inv s folder_path task_id sched srv) as [_ Hs].
    destruct (si_buffer _ _ Hs Hreg t z Ht Hz) as [-> _]. exact H1.
  - unfold download_folder. rewrite Hl.
    rewrite (proj1 (Bool.negb_true_iff _) (nonempty_length _ Hne)).
    eexists _, _. split; [reflexivity|].
    apply mode_by_size. unfold zip_close. cbn [compression].
    now rewrite legacy_fold_compression.
Qed.

Lemma compression_witness :
  (list_all scenario_storage (normalize "a") =
     Returned [ {| Key := "a/b.txt"; Size := 10 |};
                {| Key := "a/c/d.txt"; Size := 20 |} ] /\
   exists z name,
     download_folder scenario_storage "a" = SendFile z name /\
     compression z = ZIP_DEFLATED) /\
  (length (big_bucket 101) = 101 /\
   exists z name,
     download_folder (bucket_storage (big_bucket 101)) "big" = SendFile z name /\
     compression z = ZIP_STORED).
Proof.
  split.
  - split; [reflexivity|].
    destruct (compression_follows_listing_size scenario_storage "a" "t1"
                fresh_server [] _ eq_refl)
      as (_ & _ & z & name & Hsend & _ & Hdef); [discriminate|].
    exists z, name. split; [exact Hsend|]. apply Hdef. simpl. lia.
  - split; [reflexivity|].
    destruct (compression_follows_listing_size
                (bucket_storage (big_bucket 101)) "big" "t1"
                fresh_server [] (big_bucket 101))
      as (_ & _ & z & name & Hsend & Hst & _).
    + vm_compute. reflexivity.
    + discriminate.
    + exists z, name. split; [exact Hsend|]. apply Hst.
      change (length (big_bucket 101)) with 101. lia.
Defined.

(** ** Eviction *)

Section Eviction.
Variable s : Storage.
Variable folder_path : string.
Variable task_id : string.

(** The generator touches no entry but its own, and no cleanup. *)
Lemma gen_step_other srv g id :
  id <> task_id ->
  download_tasks (fst (gen_step s folder_path task_id srv g)) !! id =
    download_tasks srv !! id /\
  cleanups (fst (gen_step s folder_path task_id srv g)) = cleanups srv.
Proof.
  intros Hne. unfold gen_step.
  destruct (pc g) as [| |[|obj rest]| | | | |]; simpl; auto.
  - destruct (list_all s (folder_path_normalized folder_path)); simpl; auto.
    destruct (Nat.eqb (length a) 0); simpl; auto.
  - split; [|reflexivity]. now apply lookup_insert_ne.
  - destruct (cancel_requested (download_tasks srv) task_id); simpl; auto.
  - destruct (cancel_requested (download_tasks srv) task_id); simpl; auto.
  - destruct (download_tasks srv !! task_id); simpl; auto.
    split; [|reflexivity]. now apply lookup_insert_ne.
  - destruct (download_tasks srv !! task_id); simpl; auto.
    split; [|reflexivity]. now apply lookup_insert_ne.
Qed.

Lemma step_evicted l r id sys :
  id <> task_id ->
  evicted_within r id (server sys) ->
  evicted_within (match l with LTick => Nat.pred r | _ => r end) id
                 (server (step s folder_path task_id sys l)).
Proof.
  intros Hne H. rewrite step_gen.
  destruct l as [|id0|id0|]; cbn [server];
    [ | exact (env_step_evicted (LCancel id0) r id _ H)
      | exact (env_step_evicted (LGetZip id0) r id _ H)
      | exact (env_step_evicted LTick r id _ H) ].
  destruct (gen_step_other (server sys) (gen sys) id Hne) as [Et Ec].
  unfold evicted_within. rewrite Et, Ec. exact H.
Qed.

Lemma run_evicted sched : forall r id sys,
  id <> task_id ->
  evicted_within r id (server sys) ->
  evicted_within (r - ticks sched) id
                 (server (run s folder_path task_id sched sys)).
Proof.
  induction sched as [|l sched IH]; intros r id sys Hne H.
  - simpl. now rewrite Nat.sub_0_r.
  - change (run s folder_path task_id (l :: sched) sys)
      with (run s folder_path task_id sched (step s folder_path task_id sys l)).
    pose proof (step_evicted l r id sys Hne H) as H1.
    specialize (IH _ id _ Hne H1).
    destruct l; unfold ticks in *; simpl in *; try exact IH.
    now replace (r - S (length (List.filter
                   (fun l => match l with LTick => true | _ => false end) sched)))
      with (Nat.pred r - length (List.filter
                   (fun l => match l with LTick => true | _ => false end) sched))
      by lia.
Qed.

End Eviction.

Lemma run_env_unfetched sched : forall srv id t,
  ~ In (LGetZip id) sched ->
  no_cleanup_for id srv ->
  download_tasks srv !! id = Some t ->
  exists t', download_tasks (run_env sched srv) !! id = Some t' /\
             zip_buffer t' = zip_buffer t /\
             folder_name t' = folder_name t.
Proof.
  induction sched as [|l sched IH]; intros srv id t Hnot Hno Ht; simpl.
  - exists t. auto.
  - assert (Hl : l <> LGetZip id) by (intros ->; apply Hnot; now left).
    destruct (env_step_stays l srv id t Hl Hno Ht)
      as (Hno' & t1 & Ht1 & Hz & Hn & _).
    destruct (IH (env_step l srv) id t1) as (t' & Ht' & Hz' & Hn'); auto.
    + intros Hin. apply Hnot. now right.
    + exists t'. split; [exact Ht'|]. split; congruence.
Qed.

Lemma buffer_answer id srv t z :
  download_tasks srv !! id = Some t -> zip_buffer t = Some z ->
  exists name, get_zip_answer id srv = ZipSent z name.
Proof.
  intros Ht Hz. unfold get_zip_answer, get_zip. rewrite Ht, Hz.
  eexists. reflexivity.
Qed.

(** ** Registration of the task *)

Lemma listing_step s folder_path task_id srv objs :
  list_all s (normalize folder_path) = Returned objs ->
  objs <> [] ->
  gen_step s folder_path task_id srv gen_start =
  (srv, {| pc := AtInit; objects := objs; zip_file := zip_open ZIP_DEFLATED;
           file_count := 0; total_bytes := 0; emitted := [] |}).
Proof.
  intros Hl Hne. unfold gen_step. simpl. unfold folder_path_normalized.
  rewrite Hl. rewrite (proj1 (Bool.negb_true_iff _) (nonempty_length _ Hne)).
  reflexivity.
Qed.

(** The first two steps of the generator alone: the listing, then the
    registration. *)
Lemma registration_alone s folder_path task_id srv objs :
  list_all s (normalize folder_path) = Returned objs ->
  objs <> [] ->
  run_alone s folder_path task_id 2 srv =
  {| server :=
       with_tasks (<[task_id := fresh_task]> (download_tasks srv)) srv;
     gen :=
       {| pc := AtLoop objs; objects := objs;
          zip_file :=
            zip_open (if Nat.ltb 100 (length objs) then ZIP_STORED
                      else ZIP_DEFLATED);
          file_count := 0; total_bytes := 0; emitted := [] |} |}.
Proof.
  intros Hl Hne. unfold run_alone.
  cbn [repeat run fold_left]. rewrite !step_gen. cbn [server gen start].
  rewrite (listing_step s folder_path task_id srv objs Hl Hne).
  reflexivity.
Qed.

(** C3 (amended): the generator registers its task with a plain
    assignment.  For every registry, whether it holds the id or not, and
    every listing that is not empty, the registration does not fail: it
    emits no event, binds the id to a fresh entry (not cancelled, no
    archive, no name), so an entry the id had is replaced, leaves every
    other entry and the cleanups as they are, and the generator goes on
    to its loop. *)
Theorem registration_replaces_the_entry
    (s : Storage) (folder_path task_id : string) (srv : Server)
    (objs : list ObjectRecord) :
  list_all s (normalize folder_path) = Returned objs ->
  objs <> [] ->
  let sys := run_alone s folder_path task_id 2 srv in
  download_tasks (server sys) !! task_id = Some fresh_task /\
  (forall k, k <> task_id ->
             download_tasks (server sys) !! k = download_tasks srv !! k) /\
  cleanups (server sys) = cleanups srv /\
  emitted (gen sys) = [] /\
  pc (gen sys) = AtLoop objs.
Proof.
  intros Hl Hne sys. subst sys.
  rewrite (registration_alone s folder_path task_id srv objs Hl Hne).
  cbn [server gen with_tasks download_tasks cleanups emitted pc].
  split; [apply lookup_insert_eq|]. split; [|auto].
  intros k Hk. now apply lookup_insert_ne.
Qed.

(** C3, as stated, fails: ["t1"] is in the registry, with an archive and
    its flag set; a generation for ["t1"] reports no error and binds
    ["t1"] to a fresh entry, where the claim has it fail and keep the
    entry. *)
Lemma duplicate_id_resets_the_entry :
  download_tasks used_server !! "t1" =
    Some {| cancelled := true; zip_buffer := Some scenario_archive;
            folder_name := Some "a" |} /\
  emitted (gen (run_alone scenario_storage "a" "t1" 2 used_server)) = [] /\
  pc (gen (run_alone scenario_storage "a" "t1" 2 used_server)) =
    AtLoop [ {| Key := "a/b.txt"; Size := 10 |};
             {| Key := "a/c/d.txt"; Size := 20 |} ] /\
  download_tasks (server (run_alone scenario_storage "a" "t1" 2 used_server))
    !! "t1" = Some fresh_task.
Proof. repeat split; vm_compute; reflexivity. Qed.

Lemma registration_witness :
  list_all scenario_storage (normalize "a") =
    Returned [ {| Key := "a/b.txt"; Size := 10 |};
               {| Key := "a/c/d.txt"; Size := 20 |} ] /\
  download_tasks (server (run_alone scenario_storage "a" "t1" 2 used_server))
    !! "t1" = Some fresh_task /\
  emitted (gen (run_alone scenario_storage "a" "t1" 2 used_server)) = [].
Proof.
  split; [reflexivity|].
  destruct (registration_replaces_the_entry scenario_storage "a" "t1"
              used_server _ eq_refl) as (H1 & _ & _ & H2 & _);
    [discriminate|].
  split; [exact H1 | exact H2].
Defined.

(** ** The entry of a cancelled generation *)



Section CancelledEntry.
Variable s : Storage.
Variable folder_path : string.
Variable task_id : string.








End CancelledEntry.

Lemma run_env_evicted sched : forall r id srv,
  evicted_within r id srv ->
  evicted_within (r - ticks sched) id (run_env sched srv).
Proof.
  induction sched as [|l sched IH]; intros r id srv H.
  - simpl. now rewrite Nat.sub_0_r.
  - change (run_env (l :: sched) srv) with (run_env sched (env_step l srv)).
    pose proof (env_step_evicted l r id srv H) as H1.
    specialize (IH _ id _ H1).
    destruct l; unfold ticks in *; simpl in *; try exact IH.
    now replace (r - S (length (List.filter
                   (fun l => match l with LTick => true | _ => false end) sched)))
      with (Nat.pred r - length (List.filter
                   (fun l => match l with LTick => true | _ => false end) sched))
      by lia.
Qed.



(** ** The generator left alone *)

Section Alone.
Variable s : Storage.
Variable folder_path : string.
Variable task_id : string.

Lemma run_cons l sched sys :
  run s folder_path task_id (l :: sched) sys =
  run s folder_path task_id sched (step s folder_path task_id sys l).
Proof. reflexivity. Qed.

Lemma gen_step_at srv g :
  step s folder_path task_id {| server := srv; gen := g |} LGen =
  {| server := fst (gen_step s folder_path task_id srv g);
     gen := snd (gen_step s folder_path task_id srv g) |}.
Proof. now rewrite step_gen. Qed.

Lemma loop_alone pending : forall srv g,
  pc g = AtLoop pending ->
  cancel_requested (download_tasks srv) task_id = false ->
  exists g',
    run s folder_path task_id (repeat LGen (length pending))
        {| server := srv; gen := g |} = {| server := srv; gen := g' |} /\
    pc g' = AtLoop [].
Proof.
  induction pending as [|obj rest IH]; intros srv g Hpc Hc.
  - exists g. split; [reflexivity | exact Hpc].
  - cbn [length repeat]. rewrite run_cons, gen_step_at.
    unfold gen_step. rewrite Hpc, Hc. cbn [fst snd].
    apply IH; [|exact Hc]. apply process_facts.
Qed.

Lemma step_loop_exit srv g :
  pc g = AtLoop [] ->
  gen_step s folder_path task_id srv g = (srv, goto AtRecheck (close_zip g)).
Proof. unfold gen_step. now intros ->. Qed.

Lemma step_recheck_clear srv g :
  pc g = AtRecheck ->
  cancel_requested (download_tasks srv) task_id = false ->
  gen_step s folder_path task_id srv g = (srv, goto AtStoreBuffer g).
Proof. unfold gen_step. now intros -> ->. Qed.

Lemma step_store_buffer srv g t :
  pc g = AtStoreBuffer ->
  download_tasks srv !! task_id = Some t ->
  gen_step s folder_path task_id srv g =
  (with_tasks
     (<[task_id := {| cancelled := cancelled t;
                      zip_buffer := Some (zip_file g);
                      folder_name := folder_name t |}]>
        (download_tasks srv)) srv,
   goto AtStoreName g).
Proof. unfold gen_step. now intros -> ->. Qed.

Lemma step_store_name srv g t :
  pc g = AtStoreName ->
  download_tasks srv !! task_id = Some t ->
  gen_step s folder_path task_id srv g =
  (with_tasks
     (<[task_id := {| cancelled := cancelled t;
                      zip_buffer := zip_buffer t;
                      folder_name :=
                        Some (PyStr.basename
                                (PyStr.rstrip_slash folder_path)) |}]>
        (download_tasks srv)) srv,
   goto AtComplete g).
Proof. unfold gen_step. now intros -> ->. Qed.

Lemma step_complete srv g :
  pc g = AtComplete ->
  gen_step s folder_path task_id srv g =
  (srv, yield (EvComplete (file_count g)) Finished g).
Proof. unfold gen_step. now intros ->. Qed.

Lemma finish_alone srv g :
  pc g = AtLoop [] ->
  download_tasks srv !! task_id = Some fresh_task ->
  let sys :=
    run s folder_path task_id (repeat LGen 5) {| server := srv; gen := g |} in
  pc (gen sys) = Finished /\
  emitted (gen sys) = app (emitted g) [EvComplete (file_count g)] /\
  file_count (gen sys) = file_count g /\
  zip_file (gen sys) = zip_close (zip_file g) /\
  download_tasks (server sys) !! task_id =
    Some {| cancelled := false;
            zip_buffer := Some (zip_close (zip_file g));
            folder_name :=
              Some (PyStr.basename (PyStr.rstrip_slash folder_path)) |}.
Proof.
  intros Hpc Hfresh sys. subst sys. cbn [repeat].
  assert (Hc : cancel_requested (download_tasks srv) task_id = false)
    by (unfold cancel_requested; now rewrite Hfresh).
  rewrite run_cons, gen_step_at, (step_loop_exit _ _ Hpc). cbn [fst snd].
  rewrite run_cons, gen_step_at.
  match goal with
  | |- context [gen_step _ _ _ ?srv0 ?g0] =>
      rewrite (step_recheck_clear srv0 g0 eq_refl Hc)
  end.
  cbn [fst snd]. rewrite run_cons, gen_step_at.
  match goal with
  | |- context [gen_step _ _ _ ?srv0 ?g0] =>
      rewrite (step_store_buffer srv0 g0 _ eq_refl Hfresh)
  end.
  cbn [fst snd]. rewrite run_cons, gen_step_at.
  match goal with
  | |- context [gen_step _ _ _ ?srv0 ?g0] =>
      rewrite (step_store_name srv0 g0 _ eq_refl (lookup_insert_eq _ _ _))
  end.
  cbn [fst snd]. rewrite run_cons, gen_step_at.
  match goal with
  | |- context [gen_step _ _ _ ?srv0 ?g0] =>
      rewrite (step_complete srv0 g0 eq_refl)
  end.
  cbn [fst snd run fold_left gen server].
  repeat split; try reflexivity.
  cbn [with_tasks download_tasks].
  rewrite insert_insert_eq, lookup_insert_eq. reflexivity.
Qed.

(** X2: with no other request in between, a generation over a listing of
    n objects ends after n + 7 steps with the complete event as its last
    event, and the registry binds the task to the closed archive under
    the name of the folder. *)
Theorem generation_alone_completes (srv : Server) (objs : list ObjectRecord) :
  list_all s (normalize folder_path) = Returned objs ->
  objs <> [] ->
  let sys := run_alone s folder_path task_id (length objs + 7) srv in
  pc (gen sys) = Finished /\
  (exists evs,
      emitted (gen sys) = app evs [EvComplete (file_count (gen sys))]) /\
  closed (zip_file (gen sys)) = true /\
  download_tasks (server sys) !! task_id =
    Some {| cancelled := false;
            zip_buffer := Some (zip_file (gen sys));
            folder_name :=
              Some (PyStr.basename (PyStr.rstrip_slash folder_path)) |}.
Proof.
  intros Hl Hne sys. subst sys. unfold run_alone.
  replace (length objs + 7) with (2 + (length objs + 5)) by lia.
  rewrite repeat_app, run_app.
  pose proof (registration_alone s folder_path task_id srv objs Hl Hne)
    as Hreg.
  unfold run_alone in Hreg. rewrite Hreg.
  match goal with
  | |- context [run _ _ _ _ {| server := ?srv0; gen := ?g0 |}] =>
      set (srv1 := srv0); set (g1 := g0)
  end.
  assert (Hfresh : download_tasks srv1 !! task_id = Some fresh_task)
    by apply lookup_insert_eq.
  assert (Hpc : pc g1 = AtLoop objs) by reflexivity.
  clearbody srv1 g1.
  rewrite repeat_app, run_app.
  destruct (loop_alone objs srv1 g1 Hpc) as (g2 & -> & Hpc2).
  { unfold cancel_requested. now rewrite Hfresh. }
  destruct (finish_alone srv1 g2 Hpc2 Hfresh) as (H1 & H2 & H3 & H4 & H5).
  split; [exact H1|]. split; [|split].
  - exists (emitted g2). now rewrite H2, H3.
  - now rewrite H4.
  - now rewrite H5, H4.
Qed.

(** X1: a cancel request served after the last check of the flag and
    before the store of the archive is accepted, and yet the archive is stored
    and the complete event emitted: the generator reads the flag at its
    checks only. *)
Theorem cancellation_after_last_check_is_lost (srv : Server) (g : Gen) (t : Task) :
  pc g = AtStoreBuffer ->
  download_tasks srv !! task_id = Some t ->
  let sys :=
    run s folder_path task_id [LCancel task_id; LGen; LGen; LGen]
        {| server := srv; gen := g |} in
  fst (cancel_download task_id srv) = true /\
  pc (gen sys) = Finished /\
  emitted (gen sys) = app (emitted g) [EvComplete (file_count g)] /\
  download_tasks (server sys) !! task_id =
    Some {| cancelled := true;
            zip_buffer := Some (zip_file g);
            folder_name :=
              Some (PyStr.basename (PyStr.rstrip_slash folder_path)) |}.
Proof.
  intros Hpc Ht sys. subst sys.
  assert (Hcancel : cancel_download task_id srv =
            (true,
             with_tasks (<[task_id := {| cancelled := true;
                                         zip_buffer := zip_buffer t;
                                         folder_name := folder_name t |}]>
                           (download_tasks srv)) srv))
    by (unfold cancel_download; now rewrite Ht).
  split; [now rewrite Hcancel|].
  rewrite run_cons. rewrite step_gen. cbn [env_step server gen].
  rewrite Hcancel. cbn [snd].
  rewrite run_cons, gen_step_at.
  match goal with
  | |- context [gen_step _ _ _ ?srv0 ?g0] =>
      rewrite (step_store_buffer srv0 g0 _ Hpc (lookup_insert_eq _ _ _))
  end.
  cbn [fst snd]. rewrite run_cons, gen_step_at.
  match goal with
  | |- context [gen_step _ _ _ ?srv0 ?g0] =>
      rewrite (step_store_name srv0 g0 _ eq_refl (lookup_insert_eq _ _ _))
  end.
  cbn [fst snd]. rewrite run_cons, gen_step_at.
  match goal with
  | |- context [gen_step _ _ _ ?srv0 ?g0] =>
      rewrite (step_complete srv0 g0 eq_refl)
  end.
  cbn [fst snd run fold_left gen server].
  repeat split; try reflexivity.
  cbn [with_tasks download_tasks].
  rewrite !insert_insert_eq, lookup_insert_eq. reflexivity.
Qed.

End Alone.

Lemma generation_alone_witness :
  let sys := run_alone scenario_storage "a" "t1" 9 fresh_server in
  list_all scenario_storage (normalize "a") =
    Returned [ {| Key := "a/b.txt"; Size := 10 |};
               {| Key := "a/c/d.txt"; Size := 20 |} ] /\
  pc (gen sys) = Finished /\
  emitted (gen sys) = [EvProgress 1 2; EvProgress 2 2; EvComplete 2] /\
  get_zip_answer "t1" (server sys) = ZipSent scenario_archive "a.zip".
Proof.
  intros sys.
  split; [reflexivity|].
  destruct (generation_alone_completes scenario_storage "a" "t1" fresh_server
              _ eq_refl) as (H & _); [discriminate|].
  split; [exact H|]. split; vm_compute; reflexivity.
Defined.

Lemma cancellation_after_last_check_witness :
  let sys :=
    run scenario_storage "a" "t1" [LCancel "t1"; LGen; LGen; LGen]
        checked_system in
  run_alone scenario_storage "a" "t1" 6 fresh_server = checked_system /\
  pc (gen checked_system) = AtStoreBuffer /\
  download_tasks (server checked_system) !! "t1" = Some fresh_task /\
  emitted (gen sys) = [EvProgress 1 2; EvProgress 2 2; EvComplete 2] /\
  download_tasks (server sys) !! "t1" =
    Some {| cancelled := true; zip_buffer := Some scenario_archive;
            folder_name := Some "a" |}.
Proof.
  intros sys.
  assert (Ht : download_tasks (server checked_system) !! "t1" = Some fresh_task)
    by (vm_compute; reflexivity).
  split; [vm_compute; reflexivity|]. split; [reflexivity|].
  split; [exact Ht|].
  destruct (cancellation_after_last_check_is_lost scenario_storage "a" "t1"
              (server checked_system) (gen checked_system) fresh_task
              eq_refl Ht) as (_ & _ & H1 & H2).
  split; [exact H1 | exact H2].
Defined.

(** ** What the index page links to *)

Section Links.
Implicit Types (d : Tree) (n c : Node) (e : FileEntry) (chain : list string).

Lemma get_in k d n : Dict.get k d = Some n -> In (k, n) d.
Proof.
  induction d as [|[k0 v0] d IH]; simpl; [discriminate|].
  destruct (String.eqb k k0) eqn:E.
  - apply String.eqb_eq in E. subst k0. intros H. injection H as ->. now left.
  - intros H. right. now apply IH.
Qed.

Lemma in_set k c p v d :
  In (k, c) (Dict.set p v d) -> In (k, c) d \/ (k = p /\ c = v).
Proof.
  induction d as [|[k0 v0] d IH]; simpl.
  - intros [H | []]. injection H as <- <-. now right.
  - destruct (String.eqb p k0) eqn:E; simpl.
    + apply String.eqb_eq in E. subst k0.
      intros [H | H]; [injection H as <- <-; now right | left; now right].
    + intros [H | H]; [left; now left|].
      destruct (IH H) as [H1 | H1]; [left; now right | now right].
Qed.

Lemma in_alter k c f p d :
  In (k, c) (Dict.alter f p d) ->
  In (k, c) d \/ (k = p /\ exists c0, In (p, c0) d /\ c = f c0).
Proof.
  induction d as [|[k0 v0] d IH]; simpl; [intros []|].
  destruct (String.eqb p k0) eqn:E; simpl.
  - apply String.eqb_eq in E. subst k0.
    intros [H | H]; [|left; now right].
    injection H as <- <-. right. split; [reflexivity|]. exists v0.
    split; [now left | reflexivity].
  - intros [H | H]; [left; now left|].
    destruct (IH H) as [H1 | (-> & c0 & Hc0 & ->)]; [left; now right|].
    right. split; [reflexivity|]. exists c0. split; [now right | reflexivity].
Qed.

Lemma in_ensured k c p d :
  In (k, c) (ensured p d) -> In (k, c) d \/ (k = p /\ c = empty_node).
Proof.
  unfold ensured. destruct (Dict.mem p d); [now left|]. apply in_set.
Qed.

Lemma in_node_empty chain e : ~ in_node chain empty_node e.
Proof. destruct chain; simpl; [tauto|]. intros (c & [] & _). Qed.

Lemma in_node_files chain fs fs' fo e :
  chain <> [] -> in_node chain (mkNode fs fo) e -> in_node chain (mkNode fs' fo) e.
Proof. destruct chain; [congruence | auto]. Qed.

(** The folder walk puts no entry anywhere. *)
Lemma walk_adds_no_entry ps : forall chain fs d e,
  in_node chain (mkNode fs (walk_create ps d)) e ->
  in_node chain (mkNode fs d) e.
Proof.
  induction ps as [|p ps IH]; intros chain fs d e; [auto|].
  destruct chain as [|k rest]; [auto|]. simpl.
  intros (c & Hin & Hc).
  apply in_alter in Hin. destruct Hin as [Hin | (-> & c0 & Hc0 & ->)].
  - apply in_ensured in Hin. destruct Hin as [Hin | [_ ->]]; [eauto|].
    now destruct (in_node_empty rest e).
  - unfold with_folders in Hc. apply IH in Hc.
    assert (Hc' : in_node rest c0 e) by (now destruct c0).
    apply in_ensured in Hc0. destruct Hc0 as [Hc0 | [_ ->]]; [eauto|].
    now destruct (in_node_empty rest e).
Qed.

(** The second walk puts its entry at the end of its chain, and no
    other. *)
Lemma add_file_adds_one dirs : forall parent e0 d d' chain fs e,
  add_file dirs parent e0 d = Some d' ->
  in_node chain (mkNode fs d') e ->
  in_node chain (mkNode fs d) e \/ (e = e0 /\ chain = app dirs [parent]).
Proof.
  induction dirs as [|p dirs IH]; intros parent e0 d d' chain fs e Hadd;
    simpl in Hadd.
  - injection Hadd as <-. destruct chain as [|k rest]; [now left|]. simpl.
    intros (c & Hin & Hc).
    apply in_alter in Hin. destruct Hin as [Hin | (-> & c0 & Hc0 & ->)].
    + apply in_ensured in Hin. destruct Hin as [Hin | [_ ->]]; [left; eauto|].
      now destruct (in_node_empty rest e).
    + assert (Hcase : in_node rest c0 e \/ (e = e0 /\ rest = [])).
      { destruct rest as [|k' rest']; simpl in *.
        - apply in_app_or in Hc. destruct Hc as [Hc | [<- | []]]; auto.
        - now left. }
      destruct Hcase as [Hc' | [-> ->]]; [|now right].
      apply in_ensured in Hc0. destruct Hc0 as [Hc0 | [_ ->]]; [left; eauto|].
      now destruct (in_node_empty rest e).
  - destruct (Dict.get p d) as [n|] eqn:Hp; [|discriminate].
    destruct (add_file dirs parent e0 (folders n)) as [f|] eqn:Hf;
      [|discriminate].
    injection Hadd as <-. destruct chain as [|k rest]; [now left|]. simpl.
    intros (c & Hin & Hc).
    apply in_set in Hin. destruct Hin as [Hin | [-> ->]]; [left; eauto|].
    unfold with_folders in Hc.
    destruct (IH _ _ _ _ _ _ _ Hf Hc) as [Hc' | [-> ->]].
    + left. exists n. split; [now apply get_in|]. now destruct n.
    + now right.
Qed.

Lemma add_root_adds_one e0 d chain fs e :
  in_node chain (mkNode fs (add_root_file e0 d)) e ->
  in_node chain (mkNode fs d) e \/ (e = e0 /\ chain = [root_files_key]).
Proof.
  destruct chain as [|k rest]; [now left|]. simpl. unfold add_root_file.
  intros (c & Hin & Hc).
  apply in_alter in Hin. destruct Hin as [Hin | (-> & c0 & Hc0 & ->)].
  - apply in_set in Hin. destruct Hin as [Hin | [-> ->]]; [left; eauto|].
    destruct (Dict.get root_files_key d) as [n|] eqn:Hr.
    + left. exists n. split; [now apply get_in | exact Hc].
    + now destruct (in_node_empty rest e).
  - assert (Hcase : in_node rest c0 e \/ (e = e0 /\ rest = [])).
    { destruct rest as [|k' rest']; simpl in *.
      - apply in_app_or in Hc. destruct Hc as [Hc | [<- | []]]; auto.
      - now left. }
    destruct Hcase as [Hc' | [-> ->]]; [|now right].
    apply in_set in Hc0. destruct Hc0 as [Hc0 | [_ ->]]; [left; eauto|].
    destruct (Dict.get root_files_key d) as [n|] eqn:Hr.
    + left. exists n. split; [now apply get_in | exact Hc'].
    + now destruct (in_node_empty rest e).
Qed.

Lemma add_object_adds_one tree obj tree' chain e :
  add_object tree obj = Some tree' ->
  at_path chain tree' e ->
  at_path chain tree e \/ (e = entry_of obj /\ home obj chain).
Proof.
  unfold add_object, at_path, home, is_file, folder_chain.
  fold (entry_of obj).
  set (parts := PyStr.split (Key obj)).
  destruct (PyStr.nonempty (PyStr.last1 parts)) eqn:Hfile.
  - destruct (Nat.ltb 1 (length parts)) eqn:Hlen.
    + apply Nat.ltb_lt in Hlen. intros Hadd Hin.
      assert (Hne : PyStr.init parts <> []).
      { intros E. pose proof (init_length parts) as Hl.
        rewrite E in Hl. simpl in Hl. lia. }
      destruct (add_file_adds_one _ _ _ _ _ _ _ _ Hadd Hin) as [H | [-> ->]].
      * left. now apply walk_adds_no_entry in H.
      * right. split; [reflexivity|]. split; [reflexivity|].
        rewrite (init_last _ Hne).
        destruct (PyStr.init parts); [congruence | reflexivity].
    + apply Nat.ltb_ge in Hlen. intros Hadd Hin. injection Hadd as <-.
      assert (Ei : PyStr.init parts = []).
      { pose proof (init_length parts) as Hl.
        destruct (PyStr.init parts); [reflexivity | simpl in Hl; lia]. }
      rewrite Ei in *. simpl in Hin.
      destruct (add_root_adds_one _ _ _ _ _ Hin) as [H | [-> ->]];
        [now left | right; auto].
  - intros Hadd Hin. injection Hadd as <-. left.
    now apply walk_adds_no_entry in Hin.
Qed.

Lemma build_from_entries objects : forall tree tree' chain e,
  build_from tree objects = Some tree' ->
  at_path chain tree' e ->
  at_path chain tree e \/
  exists obj, In obj objects /\ e = entry_of obj /\ home obj chain.
Proof.
  induction objects as [|o objects IH]; intros tree tree' chain e; simpl.
  - intros H. injection H as <-. now left.
  - destruct (add_object tree o) as [t1|] eqn:Ha; [|discriminate].
    intros Hb Hin. destruct (IH _ _ _ _ Hb Hin) as [H | (obj & Ho & He & Hh)].
    + destruct (add_object_adds_one _ _ _ _ _ Ha H) as [H1 | [-> Hh]];
        [now left|]. right. exists o. split; [now left | auto].
    + right. exists obj. split; [now right | auto].
Qed.

End Links.

Section RenderLinks.
Implicit Types (d : Tree) (n c : Node) (e : FileEntry) (chain : list string).

Lemma links_eq name path fl sub :
  links (FolderLi name path fl sub) =
  app (links_ul fl)
      (match sub with None => [] | Some items => links_ul items end).
Proof.
  assert (Hall : forall l,
             (fix all (l : list Html) : list string :=
                match l with
                | [] => []
                | h' :: l' => app (links h') (all l')
                end) l = links_ul l).
  { induction l as [|h l IH]; simpl; [reflexivity|]. now rewrite IH. }
  simpl. apply (f_equal2 (@app string)); [apply Hall|].
  destruct sub as [items|]; [apply Hall | reflexivity].
Qed.

Lemma links_file_items fl k :
  In k (links_ul (map file_li fl)) <-> exists e, In e fl /\ key e = k.
Proof.
  unfold links_ul. rewrite in_flat_map. split.
  - intros (h & Hh & Hk). apply in_map_iff in Hh. destruct Hh as (e & <- & He).
    simpl in Hk. destruct Hk as [<- | []]. eauto.
  - intros (e & He & <-). exists (file_li e). split; [now apply in_map|].
    simpl. now left.
Qed.

Lemma visible_cons k chain :
  k <> root_files_key -> visible chain -> visible (k :: chain).
Proof.
  unfold visible. intros Hk Hv. destruct chain as [|k' chain]; [auto|].
  change (removelast (k :: k' :: chain)) with (k :: removelast (k' :: chain)).
  intros [E | H]; [congruence | auto].
Qed.

Lemma visible_tail k k' chain :
  visible (k :: k' :: chain) -> k <> root_files_key /\ visible (k' :: chain).
Proof.
  unfold visible.
  change (removelast (k :: k' :: chain)) with (k :: removelast (k' :: chain)).
  intros H. split; [intros E; apply H; now left | intros H1; apply H; now right].
Qed.

Lemma folder_items_in parent_path d k c :
  In (k, c) d -> k <> root_files_key ->
  In (k, render_folder parent_path k c) (folder_items parent_path d).
Proof.
  intros Hin Hk. induction d as [|[k0 c0] d IH]; simpl in *; [contradiction|].
  destruct Hin as [H | H].
  - injection H as -> ->. apply String.eqb_neq in Hk. rewrite Hk. now left.
  - destruct (String.eqb k0 root_files_key); [auto | right; auto].
Qed.

(** What a rendered level links to, given what its folders link to. *)
Lemma render_level_links d parent_path k :
  Forall (fun kc =>
            forall pp name k,
              In k (links (render_folder pp name (snd kc))) ->
              exists chain e,
                key e = k /\ in_node chain (snd kc) e /\ visible chain) d ->
  In k (links_ul (render_tree d parent_path)) ->
  exists chain e, key e = k /\ at_path chain d e /\ visible chain.
Proof.
  intros Hall Hin. unfold render_tree, links_ul in Hin.
  rewrite flat_map_app in Hin. apply in_app_or in Hin.
  destruct Hin as [Hin | Hin].
  - apply links_file_items in Hin. destruct Hin as (e & He & <-).
    unfold root_files in He.
    destruct (Dict.get root_files_key d) as [n|] eqn:Hr; [|destruct He].
    exists [root_files_key], e. split; [reflexivity|]. split.
    + exists n. split; [now apply get_in | exact He].
    + unfold visible. simpl. tauto.
  - apply in_flat_map in Hin. destruct Hin as (h & Hh & Hk).
    apply in_map_iff in Hh. destruct Hh as ([k' h'] & <- & Hh).
    apply sorted_in in Hh. apply folder_items_spec in Hh.
    destruct Hh as (Hne & c & Hc & ->). simpl in Hk.
    rewrite List.Forall_forall in Hall.
    destruct (Hall (k', c) Hc _ _ _ Hk) as (chain & e & He & Hn & Hv).
    exists (k' :: chain), e. split; [exact He|]. split.
    + exists c. split; [exact Hc | exact Hn].
    + now apply visible_cons.
Qed.

Lemma render_folder_links n : forall pp name k,
  In k (links (render_folder pp name n)) ->
  exists chain e, key e = k /\ in_node chain n e /\ visible chain.
Proof.
  induction n as [fs fo IH] using node_induction. intros pp name k.
  rewrite render_folder_eq, links_eq. intros Hin.
  apply in_app_or in Hin. destruct Hin as [Hin | Hin].
  - apply links_file_items in Hin. destruct Hin as (e & He & <-).
    apply sorted_in in He. exists [], e. split; [reflexivity|].
    split; [exact He|]. unfold visible. simpl. tauto.
  - destruct fo as [|kc fo']; [destruct Hin|].
    destruct (render_level_links _ _ _ IH Hin) as (chain & e & He & Hn & Hv).
    exists chain, e. split; [exact He|]. split; [|exact Hv].
    apply (in_node_files chain []); [|exact Hn].
    intros ->. exact Hn.
Qed.

Lemma render_tree_links d parent_path k :
  In k (links_ul (render_tree d parent_path)) ->
  exists chain e, key e = k /\ at_path chain d e /\ visible chain.
Proof.
  apply render_level_links. apply List.Forall_forall.
  intros kc _. apply render_folder_links.
Qed.

(** Every entry at the end of a visible chain is linked. *)
Lemma node_at_links chain : forall d parent_path fs m e,
  node_at chain (mkNode fs d) = Some m ->
  chain <> [] -> visible chain -> In e (files m) ->
  In (key e) (links_ul (render_tree d parent_path)).
Proof.
  induction chain as [|k rest IH]; intros d pp fs m e Hat Hne Hv He;
    [congruence|].
  simpl in Hat. destruct (Dict.get k d) as [c|] eqn:Hk; [|discriminate].
  unfold render_tree, links_ul. rewrite flat_map_app. apply in_or_app.
  destruct (String.eqb k root_files_key) eqn:Ek.
  - apply String.eqb_eq in Ek. subst k.
    destruct rest as [|k' rest'].
    + simpl in Hat. injection Hat as <-. left.
      apply links_file_items. exists e. split; [|reflexivity].
      unfold root_files. now rewrite Hk.
    + apply visible_tail in Hv. destruct Hv as [Hv _]. congruence.
  - apply String.eqb_neq in Ek. right. apply in_flat_map.
    exists (render_folder pp k c). split.
    + apply in_map_iff. exists (k, render_folder pp k c).
      split; [reflexivity|]. apply sorted_in.
      apply folder_items_in; [now apply get_in | exact Ek].
    + destruct c as [fs' fo']. rewrite render_folder_eq, links_eq.
      apply in_or_app. destruct rest as [|k' rest'].
      * simpl in Hat. injection Hat as <-. left.
        apply links_file_items. exists e. split; [|reflexivity].
        now apply sorted_in.
      * right. apply visible_tail in Hv. destruct Hv as [_ Hv].
        assert (Hfo : fo' <> []).
        { intros ->. simpl in Hat. discriminate. }
        destruct fo' as [|kc fo'']; [congruence|].
        apply (IH _ _ fs' m e Hat); [discriminate | exact Hv | exact He].
Qed.

End RenderLinks.

Lemma linked_is_listed objects tree parent_path k :
  build_from [] objects = Some tree ->
  In k (links_ul (render_tree tree parent_path)) ->
  exists obj,
    In obj objects /\ Key obj = k /\ is_file obj = true /\
    visible (folder_chain k).
Proof.
  intros Hb Hin.
  destruct (render_tree_links _ _ _ Hin) as (chain & e & He & Hat & Hv).
  destruct (build_from_entries _ _ _ _ _ Hb Hat)
    as [H | (obj & Ho & -> & Hfile & Hhome)].
  - destruct chain; simpl in H; [destruct H | destruct H as (c & [] & _)].
  - exists obj. simpl in He. subst k. split; [exact Ho|].
    split; [reflexivity|]. split; [exact Hfile|].
    destruct (folder_chain (Key obj)) as [|k0 fc] eqn:Efc.
    + unfold visible. simpl. tauto.
    + now rewrite <- Hhome.
Qed.

Lemma listed_is_linked objects tree parent_path obj :
  build_from [] objects = Some tree ->
  In obj objects -> is_file obj = true -> visible (folder_chain (Key obj)) ->
  In (Key obj) (links_ul (render_tree tree parent_path)).
Proof.
  intros Hb Ho Hfile Hv.
  destruct (build_from_spec objects []) as (tree0 & Hb0 & _ & Hp).
  assert (tree0 = tree) by congruence. subst tree0.
  specialize (Hp obj Ho Hfile). fold (folder_chain (Key obj)) in Hp.
  destruct (folder_chain (Key obj)) as [|k0 fc] eqn:Efc.
  - unfold files_under in Hp. unfold render_tree, links_ul.
    rewrite flat_map_app. apply in_or_app. left.
    apply links_file_items. exists (entry_of obj).
    split; [exact Hp | reflexivity].
  - unfold files_under, files_at in Hp.
    destruct (node_at (k0 :: fc) (mkNode [] tree)) as [m|] eqn:Hm;
      [|destruct Hp].
    apply (node_at_links (k0 :: fc) tree parent_path [] m (entry_of obj) Hm);
      [discriminate | exact Hv | exact Hp].
Qed.

(** X5: for every listing, the markup of the tree of the listing links,
    at whatever depth, exactly the keys of the listed objects that give a
    file entry (their last segment is not empty) and whose folder chain is
    visible: no folder of the chain but the last is named
    ["_root_files"].  Nothing else is linked, folder markers never are,
    and a file below a folder of a folder named ["_root_files"] is not
    shown at all. *)
Theorem index_links_the_visible_files (objects : list ObjectRecord) :
  exists tree,
    build_tree objects = Some tree /\
    forall k,
      In k (links_ul (render_tree tree "")) <->
      exists obj,
        In obj objects /\ Key obj = k /\ is_file obj = true /\
        visible (folder_chain k).
Proof.
  unfold build_tree.
  destruct (build_from_spec objects []) as (tree & Hb & _).
  exists tree. split; [exact Hb|]. intros k. split.
  - now apply (linked_is_listed objects).
  - intros (obj & Ho & <- & Hfile & Hv).
    now apply (listed_is_linked objects).
Qed.

Lemma build_from_counts objects : forall tree,
  exists tree',
    build_from tree objects = Some tree' /\
    file_entry_count tree' =
      file_entry_count tree + length (List.filter is_file objects) /\
    folder_count tree <= folder_count tree' /\
    folder_count tree' <=
      folder_count tree +
      list_sum (map (fun o => length (PyStr.split (Key o)) - 1) objects).
Proof.
  induction objects as [|o objects IH]; intros tree; simpl.
  - exists tree. repeat split; lia.
  - destruct (add_object_spec tree o) as (t1 & -> & Hc & Hf & _).
    destruct (IH t1) as (t2 & Hb & Hf2 & Hc2 & Hc3).
    exists t2. split; [exact Hb|]. fold (is_file o) in Hf.
    destruct (is_file o); simpl; repeat split; lia.
Qed.

(** X4: the tree of a listing holds exactly as many file entries as the
    listing has objects whose last segment is not empty (a key listed
    twice gives two entries, a folder marker none), and at most as many
    folder nodes as the keys have segments before their last. *)
Theorem build_tree_counts (objects : list ObjectRecord) :
  exists tree,
    build_tree objects = Some tree /\
    file_entry_count tree = length (List.filter is_file objects) /\
    folder_count tree <=
      list_sum (map (fun o => length (PyStr.split (Key o)) - 1) objects).
Proof.
  destruct (build_from_counts objects []) as (tree & Hb & Hf & _ & Hc).
  exists tree. split; [exact Hb|]. split; [exact Hf | exact Hc].
Qed.

(** X6: the index page is made from the first page of the listing alone:
    it links exactly the visible files of that page, so an object that
    the storage serves on a later page only is not linked, while the
    folder handlers list every page. *)
Theorem index_shows_the_first_page_only
    (s : Storage) (pages : list (list ObjectRecord)) :
  list_pages s "" = Returned pages ->
  list_all s "" = Returned (concat pages) /\
  exists ul,
    index s = IndexPage ul /\
    forall k,
      In k (links_ul ul) <->
      exists obj,
        In obj (hd [] pages) /\ Key obj = k /\ is_file obj = true /\
        visible (folder_chain k).
Proof.
  intros Hl. split; [unfold list_all; now rewrite Hl|].
  unfold index, build_tree. rewrite Hl. cbn zeta.
  destruct (build_from_spec (hd [] pages) []) as (tree & Hb & _).
  rewrite Hb. exists (render_tree tree ""). split; [reflexivity|].
  intros k. split.
  - now apply (linked_is_listed (hd [] pages)).
  - intros (obj & Ho & <- & Hfile & Hv).
    now apply (listed_is_linked (hd [] pages)).
Qed.

Lemma index_first_page_witness :
  list_pages (paged_storage two_pages) "" = Returned two_pages /\
  list_all (paged_storage two_pages) "" =
    Returned [ {| Key := "a.txt"; Size := 1 |}; {| Key := "b.txt"; Size := 2 |} ] /\
  index (paged_storage two_pages) = IndexPage [FileLi "a.txt" "a.txt" 1] /\
  exists ul,
    index (paged_storage two_pages) = IndexPage ul /\
    ~ In "b.txt" (links_ul ul).
Proof.
  split; [reflexivity|]. split; [reflexivity|]. split; [reflexivity|].
  destruct (index_shows_the_first_page_only (paged_storage two_pages)
              two_pages eq_refl) as (_ & ul & Hi & Hl).
  exists ul. split; [exact Hi|]. intros Hin.
  apply Hl in Hin. destruct Hin as (obj & Ho & Hk & _).
  simpl in Ho. destruct Ho as [<- | []]. discriminate.
Defined.

(** ** The two ways to an archive *)

Lemma rstrip_app_slash p : PyStr.rstrip_slash (p ++ "/") = PyStr.rstrip_slash p.
Proof.
  induction p as [|c p IH]; [reflexivity|].
  change (String c p ++ "/") with (String c (p ++ "/")).
  simpl. now rewrite IH.
Qed.

Lemma rstrip_normalize p :
  PyStr.rstrip_slash (normalize p) = PyStr.rstrip_slash p.
Proof.
  unfold normalize. destruct (PyStr.endswith_slash p); [reflexivity|].
  apply rstrip_app_slash.
Qed.

Lemma legacy_add_members s prefix z obj :
  legacy_add s prefix z obj =
  {| compression := compression z;
     members := app (members z) (member_of s prefix obj);
     closed := closed z |}.
Proof.
  unfold legacy_add, member_of.
  destruct (String.eqb (Key obj) prefix);
    [destruct z; simpl; now rewrite app_nil_r|].
  destruct (get_object s (Key obj));
    [|destruct z; simpl; now rewrite app_nil_r].
  destruct (PyStr.nonempty _); [reflexivity|].
  destruct z; simpl; now rewrite app_nil_r.
Qed.

Lemma legacy_fold_members s prefix objects : forall z,
  fold_left (legacy_add s prefix) objects z =
  {| compression := compression z;
     members := app (members z) (flat_map (member_of s prefix) objects);
     closed := closed z |}.
Proof.
  induction objects as [|o objects IH]; intros z; simpl.
  - destruct z; simpl; now rewrite app_nil_r.
  - rewrite IH, legacy_add_members. simpl. now rewrite app_assoc.
Qed.

Section SameArchive.
Variable s : Storage.
Variable folder_path : string.
Variable task_id : string.

Lemma process_zip obj rest g :
  zip_file (process s folder_path obj rest g) =
  legacy_add s (normalize folder_path) (zip_file g) obj.
Proof.
  unfold process, legacy_add, folder_path_normalized.
  destruct (String.eqb (Key obj) (normalize folder_path)); [reflexivity|].
  destruct (get_object s (Key obj)); [|reflexivity].
  destruct (PyStr.nonempty _); reflexivity.
Qed.

Lemma loop_alone_zip pending : forall srv g,
  pc g = AtLoop pending ->
  cancel_requested (download_tasks srv) task_id = false ->
  exists g',
    run s folder_path task_id (repeat LGen (length pending))
        {| server := srv; gen := g |} = {| server := srv; gen := g' |} /\
    pc g' = AtLoop [] /\
    zip_file g' =
      fold_left (legacy_add s (normalize folder_path)) pending (zip_file g).
Proof.
  induction pending as [|obj rest IH]; intros srv g Hpc Hc.
  - exists g. split; [reflexivity|]. split; [exact Hpc | reflexivity].
  - cbn [length repeat]. rewrite run_cons, gen_step_at.
    unfold gen_step. rewrite Hpc, Hc. cbn [fst snd].
    destruct (IH srv (process s folder_path obj rest g)) as (g' & Hr & Hp & Hz);
      [apply process_facts | exact Hc |].
    exists g'. split; [exact Hr|]. split; [exact Hp|].
    rewrite Hz, process_zip. reflexivity.
Qed.

(** X7: for a listing that is not empty, the legacy download and the
    generator left alone give the same thing: the response of the legacy
    download carries the closed archive of the listing (a member per
    object that is not the folder marker, whose fetch succeeds and whose
    relative path is not empty, in the order of the listing, under its
    path relative to the prefix) named after the folder, and a get-zip
    request after the generator has finished is answered with the same
    archive under the same name. *)
Theorem both_paths_give_the_same_archive
    (srv : Server) (objs : list ObjectRecord) :
  list_all s (normalize folder_path) = Returned objs ->
  objs <> [] ->
  let z := archive_of s (normalize folder_path) objs in
  let name := PyStr.basename (PyStr.rstrip_slash folder_path) ++ ".zip" in
  download_folder s folder_path = SendFile z name /\
  get_zip_answer task_id
    (server (run_alone s folder_path task_id (length objs + 7) srv)) =
  ZipSent z name.
Proof.
  intros Hl Hne z name. split.
  - unfold download_folder. rewrite Hl.
    rewrite (proj1 (Bool.negb_true_iff _) (nonempty_length _ Hne)).
    rewrite legacy_fold_members, rstrip_normalize. reflexivity.
  - unfold run_alone.
    replace (length objs + 7) with (2 + (length objs + 5)) by lia.
    rewrite repeat_app, run_app.
    pose proof (registration_alone s folder_path task_id srv objs Hl Hne)
      as Hreg.
    unfold run_alone in Hreg. rewrite Hreg.
    match goal with
    | |- context [run _ _ _ _ {| server := ?srv0; gen := ?g0 |}] =>
        set (srv1 := srv0); set (g1 := g0)
    end.
    assert (Hfresh : download_tasks srv1 !! task_id = Some fresh_task)
      by apply lookup_insert_eq.
    assert (Hc : cancel_requested (download_tasks srv1) task_id = false)
      by (unfold cancel_requested; now rewrite Hfresh).
    rewrite repeat_app, run_app.
    destruct (loop_alone_zip objs srv1 g1 eq_refl Hc) as (g2 & -> & Hpc2 & Hz).
    destruct (finish_alone s folder_path task_id srv1 g2 Hpc2 Hfresh)
      as (_ & _ & _ & _ & H5).
    unfold get_zip_answer, get_zip. rewrite H5. cbn [zip_buffer folder_name fst].
    f_equal. rewrite Hz. subst g1. cbn [zip_file].
    rewrite legacy_fold_members. reflexivity.
Qed.

End SameArchive.

Lemma same_archive_witness :
  list_all scenario_storage (normalize "a") =
    Returned [ {| Key := "a/b.txt"; Size := 10 |};
               {| Key := "a/c/d.txt"; Size := 20 |} ] /\
  archive_of scenario_storage (normalize "a")
    [ {| Key := "a/b.txt"; Size := 10 |}; {| Key := "a/c/d.txt"; Size := 20 |} ]
    = scenario_archive /\
  download_folder scenario_storage "a" = SendFile scenario_archive "a.zip" /\
  get_zip_answer "t1"
    (server (run_alone scenario_storage "a" "t1" 9 fresh_server)) =
  ZipSent scenario_archive "a.zip".
Proof.
  split; [reflexivity|]. split; [reflexivity|].
  destruct (both_paths_give_the_same_archive scenario_storage "a" "t1"
              fresh_server _ eq_refl) as [H1 H2]; [discriminate|].
  split; [exact H1 | exact H2].
Defined.

(** ** The shape of the event stream *)

Section Stream.
Variable s : Storage.
Variable folder_path : string.
Variable task_id : string.

Lemma progress_events_S total k :
  progress_events total (S k) =
  app (progress_events total k) [EvProgress (S k) total].
Proof. unfold progress_events. now rewrite seq_S, map_app. Qed.

Lemma shape_running g :
  pc g <> Finished -> stream_shape g ->
  emitted g = progress_events (length (objects g)) (file_count g).
Proof.
  intros Hpc (tail & He & [[_ ->] | [Hf _]]); [|contradiction].
  now rewrite app_nil_r in He.
Qed.

Lemma shape_goto next g :
  next <> Finished -> pc g <> Finished ->
  stream_shape g -> stream_shape (goto next g).
Proof.
  intros Hn Hpc Hs. exists []. split; [|left; auto].
  simpl. rewrite app_nil_r. now apply shape_running.
Qed.

Lemma shape_end t g :
  terminal t = true -> pc g <> Finished ->
  stream_shape g -> stream_shape (yield t Finished g).
Proof.
  intros Ht Hpc Hs. exists [t]. split; [|right; eauto].
  simpl. now rewrite (shape_running g Hpc Hs).
Qed.

Lemma process_shape obj rest g :
  pc g <> Finished -> stream_shape g ->
  stream_shape (process s folder_path obj rest g).
Proof.
  intros Hpc Hs. unfold process.
  destruct (String.eqb (Key obj) (folder_path_normalized folder_path));
    [apply shape_goto; auto; discriminate|].
  destruct (get_object s (Key obj));
    [|apply shape_goto; auto; discriminate].
  destruct (PyStr.nonempty _); [|apply shape_goto; auto; discriminate].
  exists []. split; [|left; split; [discriminate | reflexivity]].
  cbn [yield emitted objects file_count]. rewrite app_nil_r, progress_events_S.
  now rewrite (shape_running g Hpc Hs).
Qed.

Lemma gen_step_shape srv g :
  GenInv s folder_path g ->
  stream_shape g ->
  stream_shape (snd (gen_step s folder_path task_id srv g)).
Proof.
  intros Hg Hs. unfold gen_step.
  destruct (pc g) as [| |[|obj rest]| | | | |] eqn:Hpc.
  - rewrite (gi_start _ _ _ Hg Hpc). unfold folder_path_normalized.
    destruct (list_all s (normalize folder_path)) as [objs|msg]; simpl.
    + destruct (Nat.eqb (length objs) 0); simpl.
      * exists [EvError "No files found in folder"]. split; [reflexivity|].
        right. eauto.
      * exists []. split; [reflexivity|]. left. split; [discriminate | auto].
    + exists [EvError msg]. split; [reflexivity|]. right. eauto.
  - simpl. destruct (gi_init _ _ _ Hg Hpc) as [-> _].
    exists []. split; [reflexivity|]. left. split; [discriminate | auto].
  - simpl. assert (Hn : pc g <> Finished) by congruence.
    exists []. split; [|left; split; [discriminate | reflexivity]].
    simpl. rewrite app_nil_r. now apply shape_running.
  - assert (Hn : pc g <> Finished) by congruence.
    destruct (cancel_requested (download_tasks srv) task_id); simpl.
    + exists [EvCancelled]. split; [|right; eauto].
      simpl. now rewrite (shape_running g Hn Hs).
    + now apply process_shape.
  - assert (Hn : pc g <> Finished) by congruence.
    destruct (cancel_requested (download_tasks srv) task_id); simpl;
      [apply shape_end | apply shape_goto]; auto; discriminate.
  - assert (Hn : pc g <> Finished) by congruence.
    destruct (download_tasks srv !! task_id); simpl;
      [apply shape_goto | apply shape_end]; auto; discriminate.
  - assert (Hn : pc g <> Finished) by congruence.
    destruct (download_tasks srv !! task_id); simpl;
      [apply shape_goto | apply shape_end]; auto; discriminate.
  - assert (Hn : pc g <> Finished) by congruence.
    simpl. apply shape_end; auto.
  - exact Hs.
Qed.

Lemma run_shape sched : forall sys,
  GenInv s folder_path (gen sys) -> stream_shape (gen sys) ->
  stream_shape (gen (run s folder_path task_id sched sys)).
Proof.
  induction sched as [|l sched IH]; intros sys Hg Hs; [exact Hs|].
  rewrite run_cons. rewrite step_gen.
  destruct l; cbn [gen]; try (apply IH; [exact Hg | exact Hs]).
  apply IH; cbn [gen]; [now apply gen_step_inv | now apply gen_step_shape].
Qed.

(** X8: in every run, interleaved in any way with the other requests, the
    events emitted so far are the progress events with [current] 1, 2,
    ..., [file_count] and the [total] of the listing, followed by nothing
    while the generator runs and by exactly one terminal event (complete,
    cancelled or error) once it has finished; a complete event reports
    the number of progress events before it. *)
Theorem stream_is_progress_then_one_terminal_event
    (srv : Server) (sched : list Label) :
  let g := gen (run s folder_path task_id sched (start srv)) in
  exists tail,
    emitted g =
      app (progress_events (length (objects g)) (file_count g)) tail /\
    ((pc g <> Finished /\ tail = []) \/
     (pc g = Finished /\ exists t, tail = [t] /\ terminal t = true /\
        forall n, t = EvComplete n -> n = file_count g)).
Proof.
  intros g.
  destruct (run_start_inv s folder_path task_id sched srv) as [Hg _].
  fold g in Hg.
  assert (Hs : stream_shape g).
  { apply run_shape; [apply gen_start_inv|].
    exists []. split; [reflexivity|]. left. split; [discriminate | auto]. }
  destruct Hs as (tail & He & [[Hn ->] | (Hf & t & -> & Ht)]).
  - exists []. split; [exact He | left; auto].
  - exists [t]. split; [exact He|]. right. split; [exact Hf|].
    exists t. split; [reflexivity|]. split; [exact Ht|].
    intros n ->. apply (gi_complete _ _ _ Hg n).
    rewrite He. apply in_or_app. right. now left.
Qed.

End Stream.

(** ** An entry evicted under a running generator *)

Section Lost.
Variable s : Storage.
Variable folder_path : string.
Variable task_id : string.

Lemma start_shape srv sched :
  stream_shape (gen (run s folder_path task_id sched (start srv))).
Proof.
  apply run_shape; [apply gen_start_inv|].
  exists []. split; [reflexivity|]. left. split; [discriminate | auto].
Qed.




End Lost.


(** ** The archive that get-zip sends during and after a generation *)

Section Sent.
Variable s : Storage.
Variable folder_path : string.
Variable task_id : string.

Lemma process_objects obj rest g :
  objects (process s folder_path obj rest g) = objects g.
Proof.
  unfold process.
  destruct (String.eqb (Key obj) (folder_path_normalized folder_path));
    [reflexivity|].
  destruct (get_object s (Key obj)); [|reflexivity].
  destruct (PyStr.nonempty _); reflexivity.
Qed.

Lemma gen_step_zip_inv srv g :
  GenInv s folder_path g ->
  zip_inv s folder_path g ->
  zip_inv s folder_path (snd (gen_step s folder_path task_id srv g)).
Proof.
  intros Hg Hz. unfold zip_inv in Hz. unfold gen_step.
  destruct (pc g) as [| |[|obj rest]| | | | |] eqn:Hpc.
  - rewrite (gi_start _ _ _ Hg Hpc).
    destruct (list_all s (folder_path_normalized folder_path)) as [objs|msg].
    + destruct (Nat.eqb (length objs) 0); unfold zip_inv; cbn; auto.
      discriminate.
    + unfold zip_inv; cbn. discriminate.
  - unfold zip_inv; cbn. split; reflexivity.
  - unfold zip_inv; cbn. destruct Hz as [Hc Hm].
    rewrite app_nil_r in Hm. unfold archive_of, zip_close.
    now rewrite Hc, Hm.
  - destruct (cancel_requested (download_tasks srv) task_id).
    + unfold zip_inv; cbn. intros _ Hn. exfalso. apply Hn.
      apply in_snoc. now right.
    + cbn [snd]. destruct Hz as [Hc Hm]. unfold zip_inv.
      rewrite (proj1 (process_facts s folder_path obj rest g)).
      rewrite process_objects, process_zip, legacy_add_members.
      cbn [compression members]. split; [exact Hc|].
      rewrite <- Hm. cbn [flat_map]. now rewrite app_assoc.
  - destruct (cancel_requested (download_tasks srv) task_id).
    + unfold zip_inv; cbn. intros _ Hn. exfalso. apply Hn.
      apply in_snoc. now right.
    + unfold zip_inv; cbn. exact Hz.
  - destruct (download_tasks srv !! task_id); unfold zip_inv; cbn; auto.
  - destruct (download_tasks srv !! task_id); unfold zip_inv; cbn; auto.
  - unfold zip_inv; cbn. auto.
  - cbn [snd]. unfold zip_inv. rewrite Hpc. exact Hz.
Qed.

Lemma kept_name_inv srv srv' g :
  kept (download_tasks srv !! task_id) (download_tasks srv' !! task_id) ->
  name_inv folder_path task_id {| server := srv; gen := g |} ->
  name_inv folder_path task_id {| server := srv'; gen := g |}.
Proof.
  intros [Hk | (t & t' & Ht & Ht' & Ez & En & _)] Hn t0 Ht0;
    cbn [server gen] in *; [congruence|].
  assert (t0 = t') by congruence. subst t0.
  specialize (Hn t Ht). rewrite Ez, En. exact Hn.
Qed.

Lemma gen_step_name_inv srv g :
  GenInv s folder_path g ->
  SysInv task_id {| server := srv; gen := g |} ->
  name_inv folder_path task_id {| server := srv; gen := g |} ->
  name_inv folder_path task_id
    {| server := fst (gen_step s folder_path task_id srv g);
       gen := snd (gen_step s folder_path task_id srv g) |}.
Proof.
  intros Hg [Hbs _ _] Hn. unfold name_inv in *. cbn [server gen] in *.
  unfold before_store, holds_buffer in Hbs. unfold gen_step.
  destruct (pc g) as [| |[|obj rest]| | | | |] eqn:Hpc.
  - rewrite (gi_start _ _ _ Hg Hpc).
    destruct (list_all s (folder_path_normalized folder_path)) as [objs|msg].
    + destruct (Nat.eqb (length objs) 0); cbn; auto. discriminate.
    + cbn. discriminate.
  - cbn. intros t Ht. rewrite lookup_insert_eq in Ht.
    injection Ht as <-. reflexivity.
  - cbn. exact Hn.
  - destruct (cancel_requested (download_tasks srv) task_id).
    + cbn. intros t Ht _ Hb. specialize (Hbs eq_refl). rewrite Ht in Hbs.
      destruct (zip_buffer t); [discriminate | congruence].
    + cbn [fst snd]. rewrite (proj1 (process_facts s folder_path obj rest g)).
      exact Hn.
  - destruct (cancel_requested (download_tasks srv) task_id).
    + cbn. intros t Ht _ Hb. specialize (Hbs eq_refl). rewrite Ht in Hbs.
      destruct (zip_buffer t); [discriminate | congruence].
    + cbn. exact Hn.
  - destruct (download_tasks srv !! task_id) as [t0|] eqn:Ht0.
    + cbn. intros t Ht. rewrite lookup_insert_eq in Ht.
      injection Ht as <-. cbn. now apply Hn.
    + cbn. intros t Ht. congruence.
  - destruct (download_tasks srv !! task_id) as [t0|] eqn:Ht0.
    + cbn. intros t Ht. rewrite lookup_insert_eq in Ht.
      injection Ht as <-. reflexivity.
    + cbn. intros t Ht. congruence.
  - cbn. intros t Ht _ _. now apply Hn.
  - cbn [fst snd]. rewrite Hpc. exact Hn.
Qed.

Lemma run_sent_inv sched : forall sys,
  GenInv s folder_path (gen sys) -> SysInv task_id sys ->
  zip_inv s folder_path (gen sys) -> name_inv folder_path task_id sys ->
  zip_inv s folder_path (gen (run s folder_path task_id sched sys)) /\
  name_inv folder_path task_id (run s folder_path task_id sched sys).
Proof.
  induction sched as [|l sched IH]; intros sys Hg Hs Hz Hn; [now split|].
  rewrite run_cons.
  destruct (step_inv s folder_path task_id sys l (conj Hg Hs)) as [Hg' Hs'].
  apply IH; [exact Hg' | exact Hs' | |]; rewrite step_gen; destruct sys as [srv g];
    cbn [server gen] in *.
  - destruct l; cbn [gen]; try exact Hz. now apply gen_step_zip_inv.
  - destruct l;
      [now apply gen_step_name_inv
      | apply (kept_name_inv srv); [apply env_step_kept | exact Hn] ..].
Qed.


End Sent.


(** ** Cancel requests and the archive *)

(** X11: a cancel request answers not found exactly for an id that the
    registry does not bind, and otherwise raises the flag of the entry;
    it starts no cleanup, a second one changes nothing more, and it never
    changes what get-zip answers for any id: an archive that is stored
    stays available after its task was cancelled. *)
Theorem cancel_withdraws_no_archive (id k : string) (srv : Server) :
  let srv' := snd (cancel_download id srv) in
  (fst (cancel_download id srv) = true <->
   is_Some (download_tasks srv !! id)) /\
  cancel_requested (download_tasks srv') id = fst (cancel_download id srv) /\
  get_zip_answer k srv' = get_zip_answer k srv /\
  cleanups srv' = cleanups srv /\
  cancel_download id srv' = (fst (cancel_download id srv), srv').
Proof.
  cbn zeta. destruct (cancel_download id srv) as [ok srv1] eqn:E.
  unfold cancel_download in E.
  destruct (download_tasks srv !! id) as [t|] eqn:Ht;
    injection E as <- <-; cbn [fst snd].
  - split; [split; eauto|].
    split; [unfold cancel_requested; cbn; now rewrite lookup_insert_eq|].
    split.
    + unfold get_zip_answer, get_zip. cbn [download_tasks].
      destruct (decide (id = k)) as [-> | Hne].
      * rewrite lookup_insert_eq, Ht. cbn. now destruct (zip_buffer t).
      * rewrite lookup_insert_ne by exact Hne.
        destruct (download_tasks srv !! k) as [t0|]; [|reflexivity].
        now destruct (zip_buffer t0).
    + split; [reflexivity|].
      unfold cancel_download. cbn [download_tasks cleanups].
      rewrite lookup_insert_eq. cbn. now rewrite insert_insert_eq.
  - split; [split; [discriminate | intros [? ?]; discriminate]|].
    split; [unfold cancel_requested; now rewrite Ht|].
    split; [reflexivity|]. split; [reflexivity|].
    unfold cancel_download. now rewrite Ht.
Qed.

(** ** A generation and the other tasks *)

Section Others.
Variable s : Storage.
Variable folder_path : string.
Variable task_id : string.

Lemma wake_congr l : forall m1 m2 k,
  m1 !! k = m2 !! k ->
  fold_left wake l m1 !! k = fold_left wake l m2 !! k.
Proof.
  induction l as [|c l IH]; intros m1 m2 k H; simpl; [exact H|].
  apply IH. unfold wake. destruct (Nat.eqb (fst c) 0); [|exact H].
  destruct (decide (snd c = k)) as [-> | Hne].
  - now rewrite !lookup_delete_eq.
  - now rewrite !lookup_delete_ne.
Qed.

Lemma wake_only l : forall m k,
  fold_left wake l m !! k =
  fold_left wake (List.filter (fun c => String.eqb (snd c) k) l) m !! k.
Proof.
  induction l as [|c l IH]; intros m k; simpl; [reflexivity|].
  destruct (String.eqb (snd c) k) eqn:E; simpl; [apply IH|].
  rewrite IH. apply wake_congr. unfold wake.
  destruct (Nat.eqb (fst c) 0); [|reflexivity].
  apply lookup_delete_ne. intros H. apply String.eqb_neq in E. contradiction.
Qed.

Lemma filter_aged k (l : list (nat * string)) :
  List.filter (fun c => String.eqb (snd c) k)
    (map (fun c => (Nat.pred (fst c), snd c)) l) =
  map (fun c => (Nat.pred (fst c), snd c))
    (List.filter (fun c => String.eqb (snd c) k) l).
Proof.
  induction l as [|c l IH]; simpl; [reflexivity|].
  destruct (String.eqb (snd c) k); simpl; now rewrite IH.
Qed.

Lemma filter_swap {A} (p q : A -> bool) l :
  List.filter p (List.filter q l) = List.filter q (List.filter p l).
Proof.
  induction l as [|x l IH]; simpl; [reflexivity|].
  destruct (p x) eqn:P, (q x) eqn:Q; simpl; rewrite ?P, ?Q, IH; reflexivity.
Qed.

Lemma tick_same id srv1 srv2 :
  same_for id srv1 srv2 -> same_for id (tick srv1) (tick srv2).
Proof.
  intros [Hl Hc]. unfold same_for, tick. cbn [download_tasks cleanups]. split.
  - rewrite (wake_only _ (download_tasks srv1)),
            (wake_only _ (download_tasks srv2)).
    rewrite !filter_aged, Hc. now apply wake_congr.
  - rewrite (filter_swap _ _ (map _ (cleanups srv1))),
            (filter_swap _ _ (map _ (cleanups srv2))).
    now rewrite !filter_aged, Hc.
Qed.

Lemma env_step_same l id srv1 srv2 :
  same_for id srv1 srv2 -> same_for id (env_step l srv1) (env_step l srv2).
Proof.
  intros H. destruct l as [|k|k|]; unfold env_step;
    [exact H | | | now apply tick_same].
  - destruct H as [Hl Hc]. unfold cancel_download, same_for.
    destruct (decide (k = id)) as [-> | Hne].
    + rewrite Hl. destruct (download_tasks srv2 !! id) as [t|] eqn:Ht;
        cbn [snd download_tasks cleanups]; [|split; [congruence | exact Hc]].
      split; [now rewrite !lookup_insert_eq | exact Hc].
    + destruct (download_tasks srv1 !! k), (download_tasks srv2 !! k);
        cbn [snd download_tasks cleanups];
        rewrite ?lookup_insert_ne by exact Hne; split; assumption.
  - destruct H as [Hl Hc]. unfold get_zip, same_for.
    destruct (decide (k = id)) as [-> | Hne].
    + rewrite Hl. destruct (download_tasks srv2 !! id) as [t|] eqn:Ht;
        [|cbn [snd]; split; [congruence | exact Hc]].
      destruct (zip_buffer t); cbn [snd download_tasks cleanups];
        [|split; [congruence | exact Hc]].
      split; [congruence|]. now rewrite !List.filter_app, Hc.
    + assert (E : String.eqb k id = false) by now apply String.eqb_neq.
      destruct (download_tasks srv1 !! k) as [t1|];
        [destruct (zip_buffer t1)|];
        (destruct (download_tasks srv2 !! k) as [t2|];
           [destruct (zip_buffer t2)|]);
        cbn [snd download_tasks cleanups];
        rewrite ?List.filter_app; cbn [List.filter snd]; rewrite ?E, ?app_nil_r;
        split; assumption.
Qed.

Lemma run_same sched id : forall sys srv2,
  id <> task_id ->
  same_for id (server sys) srv2 ->
  same_for id (server (run s folder_path task_id sched sys))
              (run_env sched srv2).
Proof.
  induction sched as [|l sched IH]; intros sys srv2 Hne H; [exact H|].
  rewrite run_cons.
  change (run_env (l :: sched) srv2) with (run_env sched (env_step l srv2)).
  apply IH; [exact Hne|]. rewrite step_gen.
  destruct l; cbn [server];
    [|exact (env_step_same (LCancel id0) id _ _ H)
     |exact (env_step_same (LGetZip id0) id _ _ H)
     |exact (env_step_same LTick id _ _ H)].
  destruct (gen_step_other s folder_path task_id (server sys) (gen sys) id Hne)
    as [E1 E2].
  destruct H as [Hl Hc]. unfold same_for, env_step. now rewrite E1, E2.
Qed.

(** X12: a generation changes nothing for the other tasks.  For an id
    other than its own, after any schedule the entry of that id, and the
    answer of get-zip for it, are what they would be had the generator
    never run: the same requests served with its steps left out. *)
Theorem generation_leaves_other_tasks_alone
    (id : string) (srv : Server) (sched : list Label) :
  id <> task_id ->
  let srv' := server (run s folder_path task_id sched (start srv)) in
  download_tasks srv' !! id = download_tasks (run_env sched srv) !! id /\
  get_zip_answer id srv' = get_zip_answer id (run_env sched srv).
Proof.
  intros Hne srv'.
  destruct (run_same sched id (start srv) srv Hne) as [Hl _];
    [split; reflexivity|].
  fold srv' in Hl. split; [exact Hl|].
  unfold get_zip_answer, get_zip. rewrite Hl.
  destruct (download_tasks (run_env sched srv) !! id) as [t|]; [|reflexivity].
  now destruct (zip_buffer t).
Qed.

End Others.

Lemma other_task_witness :
  let srv' :=
    server (run scenario_storage "a" "t2"
              (LGen :: LGen :: LGetZip "t1" :: LGen :: LCancel "t1"
                 :: repeat LGen 6)
              (start finished_server)) in
  download_tasks srv' !! "t1" =
    download_tasks
      (run_env (LGen :: LGen :: LGetZip "t1" :: LGen :: LCancel "t1"
                  :: repeat LGen 6) finished_server) !! "t1" /\
  get_zip_answer "t1" srv' = ZipSent scenario_archive "a.zip".
Proof.
  destruct (generation_leaves_other_tasks_alone scenario_storage "a" "t2"
              "t1" finished_server
              (LGen :: LGen :: LGetZip "t1" :: LGen :: LCancel "t1"
                 :: repeat LGen 6)) as [H1 H2]; [discriminate|].
  split; [exact H1|]. rewrite H2. vm_compute. reflexivity.
Defined.

(** ** The statistics of the folder information *)

Section Statistics.
Import Info.
Set Warnings "-clear-no-such-hyp".

Lemma stats_fold prefix objs : forall st,
  total_size (fold_left (stats_step prefix) objs st) =
    (total_size st + sum_sizes (List.filter (counted prefix) objs))%Z /\
  subfolders (fold_left (stats_step prefix) objs st) =
    list_to_set (flat_map (subfolder_of prefix) objs) ∪ subfolders st.
Proof.
  induction objs as [|o objs IH]; intros st; cbn [fold_left].
  - cbn. split; [lia | set_solver].
  - destruct (IH (stats_step prefix st o)) as [-> ->].
    cbn [List.filter flat_map]. unfold stats_step, subfolder_of, counted.
    destruct (String.eqb (Key o) prefix); cbn [negb andb].
    + split; [reflexivity | set_solver].
    + destruct (PyStr.contains_slash _); cbn [total_size subfolders sum_sizes
                                               fold_right];
        [split; [unfold sum_sizes; lia | set_solver]|].
      destruct (PyStr.nonempty _); cbn [total_size subfolders];
        (split; [unfold sum_sizes; lia | set_solver]).
Qed.

(** X13: the folder information said at once.  The byte total is the
    sum of the sizes of the listed objects other than the folder marker,
    the subfolder count is the number of distinct first segments of the
    relative paths that hold a slash, and the path is the folder path
    without its trailing slashes; so the answer does not depend on the
    order of the listing. *)
Theorem folder_info_totals
    (s : Storage) (folder_path : string) (objs : list ObjectRecord) :
  list_all s (normalize folder_path) = Returned objs ->
  exists info,
    folder_info s folder_path = InfoOk info /\
    info_path info = PyStr.rstrip_slash folder_path /\
    info_total_size_bytes info =
      sum_sizes (List.filter (counted (normalize folder_path)) objs) /\
    info_subfolder_count info =
      base.size (list_to_set (C := gset string)
                   (flat_map (subfolder_of (normalize folder_path)) objs)).
Proof.
  intros Hl. unfold folder_info. rewrite Hl. eexists. split; [reflexivity|].
  cbn [info_path info_total_size_bytes info_subfolder_count].
  destruct (stats_fold (normalize folder_path) objs stats_init) as [-> ->].
  split; [apply rstrip_normalize|]. split; [cbn; lia|].
  apply (f_equal base.size). cbn. set_solver.
Qed.

Set Warnings "clear-no-such-hyp".
End Statistics.

Lemma folder_info_totals_witness :
  list_all (bucket_storage marker_listing) (normalize "a") =
    Returned [ {| Key := "a/"; Size := 7 |};
               {| Key := "a/b.txt"; Size := 10 |};
               {| Key := "a/c/d.txt"; Size := 20 |} ] /\
  Info.folder_info (bucket_storage marker_listing) "a" =
    Info.InfoOk {| Info.info_path := "a";
                   Info.info_file_count := 3;
                   Info.info_total_size_bytes := 30;
                   Info.info_subfolder_count := 1 |} /\
  sum_sizes
    (List.filter (counted (normalize "a"))
       [ {| Key := "a/"; Size := 7 |};
         {| Key := "a/b.txt"; Size := 10 |};
         {| Key := "a/c/d.txt"; Size := 20 |} ]) = 30%Z.
Proof.
  split; [reflexivity|].
  destruct (folder_info_totals (bucket_storage marker_listing) "a"
              _ eq_refl) as (info & H & _).
  split; [rewrite H; rewrite <- H; vm_compute; reflexivity | reflexivity].
Defined.

(** ** How long a fetched archive stays *)

Section Stays.
Variable s : Storage.
Variable folder_path : string.
Variable task_id : string.

Lemma env_step_available l id z fn r srv :
  available id z fn r srv ->
  (l = LTick -> 1 <= r) ->
  available id z fn (match l with LTick => Nat.pred r | _ => r end)
            (env_step l srv).
Proof.
  intros ((t & Ht & Hz & Hn) & Hr & Hc) Hpos.
  destruct l as [|k|k|]; unfold env_step.
  - split; [eauto | split; assumption].
  - unfold cancel_download.
    destruct (download_tasks srv !! k) as [t0|] eqn:Hk; cbn [snd];
      [|split; [eauto | split; assumption]].
    split; [|split; assumption]. cbn [download_tasks].
    destruct (decide (k = id)) as [-> | Hne].
    + rewrite lookup_insert_eq. eexists. split; [reflexivity|]. cbn.
      split; congruence.
    + rewrite lookup_insert_ne by exact Hne. eauto.
  - unfold get_zip.
    destruct (download_tasks srv !! k) as [t0|] eqn:Hk; cbn [snd];
      [|split; [eauto | split; assumption]].
    destruct (zip_buffer t0); cbn [snd];
      [|split; [eauto | split; assumption]].
    split; [cbn; eauto|]. split; [exact Hr|]. cbn [cleanups].
    intros n Hin. apply in_app_or in Hin as [Hin | [Hin | []]];
      [now apply Hc|]. injection Hin as <- _. exact Hr.
  - specialize (Hpos eq_refl). split; [|split; [lia|]].
    + exists t. split; [|split; assumption]. rewrite tick_tasks.
      rewrite wake_other; [exact Ht|].
      intros [n k] Hin H0 Hk. cbn in H0, Hk. subst k.
      apply in_map_iff in Hin as ([n' k'] & E & Hin). cbn in E.
      injection E as <- ->. specialize (Hc n' Hin). lia.
    + intros n Hin. apply tick_cleanups in Hin as [Hin _].
      specialize (Hc _ Hin). lia.
Qed.

Lemma run_env_available sched : forall id z fn r srv,
  available id z fn r srv ->
  ticks sched <= r ->
  available id z fn (r - ticks sched) (run_env sched srv).
Proof.
  induction sched as [|l sched IH]; intros id z fn r srv H Hle.
  - cbn. now rewrite Nat.sub_0_r.
  - change (run_env (l :: sched) srv) with (run_env sched (env_step l srv)).
    pose proof (env_step_available l id z fn r srv H) as H1.
    destruct l; unfold ticks in *; cbn [List.filter length] in *;
      try (apply IH; [apply H1; discriminate | exact Hle]).
    replace (r - S (length (List.filter
               (fun l => match l with LTick => true | _ => false end) sched)))
      with (Nat.pred r - length (List.filter
               (fun l => match l with LTick => true | _ => false end) sched))
      by lia.
    apply IH; [apply H1; lia | lia].
Qed.

Lemma available_answer id z fn r srv :
  available id z fn r srv ->
  get_zip_answer id srv =
  ZipSent z (match fn with Some n => n | None => "download" end ++ ".zip").
Proof.
  intros ((t & Ht & Hz & Hn) & _). unfold get_zip_answer, get_zip.
  rewrite Ht, Hz, Hn. reflexivity.
Qed.

(** X14: an archive that was fetched stays for the whole delay.  When no
    cleanup sleeps for the id and a get-zip request sends its archive,
    then after any schedule of requests in which fewer than
    [eviction_delay] = 60 time units pass (further get-zip and cancel
    requests for the same id, and a generation for another task, among
    them) a get-zip request is answered with the same archive under the
    same name. *)
Theorem fetched_archive_stays_for_the_delay
    (id : string) (srv : Server) (g : Gen) (z : ZipFile) (name : string)
    (sched : list Label) :
  id <> task_id ->
  no_cleanup_for id srv ->
  get_zip_answer id srv = ZipSent z name ->
  ticks sched < eviction_delay ->
  get_zip_answer id
    (server (run s folder_path task_id sched
               {| server := snd (get_zip id srv); gen := g |}))
  = ZipSent z name.
Proof.
  intros Hne Hno Hans Hlt.
  destruct (run_same s folder_path task_id sched id
              {| server := snd (get_zip id srv); gen := g |}
              (snd (get_zip id srv)) Hne) as [Hl _];
    [split; reflexivity|].
  assert (Hsame : forall srv1 srv2,
            download_tasks srv1 !! id = download_tasks srv2 !! id ->
            get_zip_answer id srv1 = get_zip_answer id srv2).
  { intros srv1 srv2 E. unfold get_zip_answer, get_zip. rewrite E.
    destruct (download_tasks srv2 !! id) as [t|]; [|reflexivity].
    now destruct (zip_buffer t). }
  rewrite (Hsame _ _ Hl). clear Hl Hsame.
  unfold get_zip_answer, get_zip in Hans. unfold get_zip.
  destruct (download_tasks srv !! id) as [t|] eqn:Ht; [|discriminate].
  destruct (zip_buffer t) as [buf|] eqn:Hb; [|discriminate].
  cbn in Hans. injection Hans as -> <-. cbn [snd].
  assert (Hav : available id z (folder_name t) (eviction_delay - 1)
                  {| download_tasks := download_tasks srv;
                     cleanups := app (cleanups srv) [(eviction_delay, id)] |}).
  { split; [exists t; auto|]. split; [unfold eviction_delay; lia|].
    cbn [cleanups]. intros n Hin.
    apply in_app_or in Hin as [Hin | [Hin | []]].
    - exfalso. exact (Hno _ Hin eq_refl).
    - injection Hin as <-. unfold eviction_delay. lia. }
  apply (run_env_available sched) in Hav; [|unfold eviction_delay in *; lia].
  now rewrite (available_answer _ _ _ _ _ Hav).
Qed.

End Stays.

Lemma fetched_archive_stays_witness :
  get_zip_answer "t1" finished_server = ZipSent scenario_archive "a.zip" /\
  get_zip_answer "t1"
    (server (run scenario_storage "a" "t2"
               (LGetZip "t1" :: LCancel "t1" :: LGen :: repeat LTick 59)
               {| server := snd (get_zip "t1" finished_server);
                  gen := gen_start |}))
  = ZipSent scenario_archive "a.zip".
Proof.
  assert (H : get_zip_answer "t1" finished_server =
              ZipSent scenario_archive "a.zip") by (vm_compute; reflexivity).
  split; [exact H|].
  apply (fetched_archive_stays_for_the_delay scenario_storage "a" "t2" "t1"
           finished_server gen_start scenario_archive "a.zip"
           (LGetZip "t1" :: LCancel "t1" :: LGen :: repeat LTick 59)).
  - discriminate.
  - assert (E : cleanups finished_server = []) by (vm_compute; reflexivity).
    intros c Hin. rewrite E in Hin. destruct Hin.
  - exact H.
  - vm_compute. lia.
Defined.

(** ** The path that a folder item passes to the folder handlers *)

Section Actions.
Implicit Types (d : Tree) (n c m : Node) (e : FileEntry) (chain : list string).

Lemma concat_split k : String.concat "/" (PyStr.split k) = k.
Proof.
  induction k as [|ch k IH]; [reflexivity|]. cbn [PyStr.split].
  destruct (Ascii.eqb ch PyStr.slash) eqn:E.
  - apply Ascii.eqb_eq in E. subst ch.
    destruct (PyStr.split k) as [|seg segs] eqn:Es;
      [destruct (split_nonempty k Es)|].
    cbn [String.concat]. cbn [String.concat] in IH. rewrite IH. reflexivity.
  - destruct (PyStr.split k) as [|seg segs] eqn:Es;
      [destruct (split_nonempty k Es)|].
    destruct segs as [|seg' segs]; cbn [String.concat] in *;
      rewrite <- IH; reflexivity.
Qed.

Lemma append_assoc (a b c : string) : (a ++ b) ++ c = a ++ (b ++ c).
Proof.
  induction a as [|ch a IH]; [reflexivity|].
  change (String ch ((a ++ b) ++ c) = String ch (a ++ (b ++ c))).
  now rewrite IH.
Qed.

Lemma concat_cons x (l : list string) :
  l <> [] -> String.concat "/" (x :: l) = x ++ "/" ++ String.concat "/" l.
Proof. destruct l; [congruence | reflexivity]. Qed.

Lemma concat_app (l1 l2 : list string) :
  l1 <> [] -> l2 <> [] ->
  String.concat "/" (app l1 l2) =
  String.concat "/" l1 ++ "/" ++ String.concat "/" l2.
Proof.
  intros H1 H2. induction l1 as [|x l1 IH]; [congruence|].
  destruct l1 as [|y l1].
  - cbn [app]. now rewrite concat_cons by exact H2.
  - change (app (x :: y :: l1) l2) with (x :: app (y :: l1) l2).
    rewrite (concat_cons x (app (y :: l1) l2)) by discriminate.
    rewrite IH by discriminate.
    rewrite (concat_cons x (y :: l1)) by discriminate.
    now rewrite !append_assoc.
Qed.

Lemma prefix_append (p x : string) : String.prefix p (p ++ x) = true.
Proof.
  induction p as [|ch p IH]; [now destruct x|].
  change (String.prefix (String ch p) (String ch (p ++ x)) = true).
  cbn [String.prefix]. destruct (ascii_dec ch ch); [exact IH | congruence].
Qed.

Lemma join_chain chain : forall p,
  PyStr.nonempty p = true ->
  fold_left join_path chain p = String.concat "/" (p :: chain).
Proof.
  induction chain as [|k chain IH]; intros p Hp; [reflexivity|].
  cbn [fold_left]. unfold join_path at 2. rewrite Hp.
  rewrite IH by (destruct p; [discriminate | reflexivity]).
  destruct chain as [|k' chain]; cbn [String.concat];
    [reflexivity | now rewrite !append_assoc].
Qed.

Lemma actions_eq name path fl sub :
  actions (FolderLi name path fl sub) =
  (path, links (FolderLi name path fl sub)) ::
  match sub with None => [] | Some items => actions_ul items end.
Proof.
  assert (Hall : forall l,
             (fix all (l : list Html) : list (string * list string) :=
                match l with
                | [] => []
                | h' :: l' => app (actions h') (all l')
                end) l = actions_ul l).
  { induction l as [|h l IH]; cbn; [reflexivity|]. now rewrite IH. }
  cbn [actions]. apply (f_equal (cons _)).
  destruct sub as [items|]; [apply Hall | reflexivity].
Qed.

Lemma actions_file_items fl : actions_ul (map file_li fl) = [].
Proof. induction fl as [|e fl IH]; [reflexivity | exact IH]. Qed.

(** The folder items of a rendered level, given those of its folders. *)
Lemma render_level_actions d parent_path path ks :
  Forall (fun kc =>
            forall pp name path ks,
              In (path, ks) (actions (render_folder pp name (snd kc))) ->
              exists chain m pp' name',
                reach chain (snd kc) m /\
                path = fold_left join_path (name :: chain) pp /\
                ks = links (render_folder pp' name' m)) d ->
  In (path, ks) (actions_ul (render_tree d parent_path)) ->
  exists chain m pp' name',
    chain <> [] /\ reach chain (mkNode [] d) m /\
    path = fold_left join_path chain parent_path /\
    ks = links (render_folder pp' name' m).
Proof.
  intros Hall Hin. unfold render_tree, actions_ul in Hin.
  rewrite flat_map_app in Hin. apply in_app_or in Hin.
  destruct Hin as [Hin | Hin].
  - fold (actions_ul (map file_li (root_files d))) in Hin.
    rewrite actions_file_items in Hin. destruct Hin.
  - apply in_flat_map in Hin. destruct Hin as (h & Hh & Hk).
    apply in_map_iff in Hh. destruct Hh as ([k' h'] & <- & Hh).
    apply sorted_in in Hh. apply folder_items_spec in Hh.
    destruct Hh as (Hne & c & Hc & ->). cbn [snd] in Hk.
    rewrite List.Forall_forall in Hall.
    destruct (Hall (k', c) Hc _ _ _ _ Hk) as (chain & m & pp' & name' & Hr & -> & ->).
    exists (k' :: chain), m, pp', name'. split; [discriminate|].
    split; [|split; reflexivity].
    split; [exact Hne|]. exists c. split; [exact Hc | exact Hr].
Qed.

Lemma render_folder_actions n : forall pp name path ks,
  In (path, ks) (actions (render_folder pp name n)) ->
  exists chain m pp' name',
    reach chain n m /\
    path = fold_left join_path (name :: chain) pp /\
    ks = links (render_folder pp' name' m).
Proof.
  induction n as [fs fo IH] using node_induction. intros pp name path ks.
  rewrite render_folder_eq, actions_eq. intros [Hin | Hin].
  - injection Hin as <- <-. exists [], (mkNode fs fo), pp, name.
    split; [reflexivity|]. split; [reflexivity|].
    now rewrite render_folder_eq.
  - destruct fo as [|kc fo']; [destruct Hin|].
    destruct (render_level_actions _ _ _ _ IH Hin)
      as (chain & m & pp' & name' & Hne & Hr & -> & ->).
    exists chain, m, pp', name'. split; [|split; reflexivity].
    destruct chain as [|k rest]; [congruence|]. exact Hr.
Qed.

Lemma render_tree_actions d parent_path path ks :
  In (path, ks) (actions_ul (render_tree d parent_path)) ->
  exists chain m pp' name',
    chain <> [] /\ reach chain (mkNode [] d) m /\
    path = fold_left join_path chain parent_path /\
    ks = links (render_folder pp' name' m).
Proof.
  apply render_level_actions. apply List.Forall_forall.
  intros kc _. apply render_folder_actions.
Qed.

Lemma reach_in_node chain : forall n m rest e,
  reach chain n m -> in_node rest m e -> in_node (app chain rest) n e.
Proof.
  induction chain as [|k chain IH]; intros n m rest e Hr Hin.
  - cbn in Hr. now subst m.
  - destruct Hr as (_ & c & Hc & Hr). exists c. split; [exact Hc|].
    now apply (IH c m).
Qed.

Lemma reach_head chain n m :
  chain <> [] -> reach chain n m -> hd EmptyString chain <> root_files_key.
Proof. destruct chain as [|k rest]; [congruence|]. now intros _ [H _]. Qed.

Lemma split_head k seg segs :
  PyStr.split k = seg :: segs -> segs <> [] ->
  PyStr.startswith "/" k = false -> PyStr.nonempty seg = true.
Proof.
  destruct k as [|ch k]; cbn [PyStr.split].
  - intros H. injection H as _ <-. congruence.
  - unfold PyStr.startswith. cbn [String.prefix].
    destruct (Ascii.eqb ch PyStr.slash) eqn:E.
    + apply Ascii.eqb_eq in E. subst ch. intros _ _ H. cbn in H.
      now destruct k.
    + destruct (PyStr.split k) as [|seg0 segs0]; intros H _ _;
        injection H as <- _; reflexivity.
Qed.

Lemma normalize_cases p : normalize p = p \/ normalize p = p ++ "/".
Proof. unfold normalize. destruct (PyStr.endswith_slash p); auto. Qed.

(** X15: the path that a folder item of the index page passes to the
    folder handlers (download and info) covers what the item shows: for
    every listing, every folder item of the markup, at whatever depth,
    and every key that the item links to, if the key does not begin with
    a slash then it begins with the normalized path of the item, which
    is the prefix that the folder handlers list. *)
Theorem folder_action_path_covers_its_files (objects : list ObjectRecord) :
  exists tree,
    build_tree objects = Some tree /\
    forall path ks k,
      In (path, ks) (actions_ul (render_tree tree "")) ->
      In k ks ->
      PyStr.startswith "/" k = false ->
      PyStr.startswith (normalize path) k = true.
Proof.
  unfold build_tree.
  destruct (build_from_spec objects []) as (tree & Hb & _).
  exists tree. split; [exact Hb|]. intros path ks k Hin Hk Hslash.
  destruct (render_tree_actions _ _ _ _ Hin)
    as (chain & m & pp' & name' & Hne & Hr & -> & ->).
  destruct (render_folder_links _ _ _ _ Hk) as (rest & e & <- & Hn & _).
  pose proof (reach_in_node _ _ _ _ _ Hr Hn) as Hat.
  pose proof (reach_head _ _ _ Hne Hr) as Hhd.
  destruct (build_from_entries _ _ _ _ _ Hb Hat)
    as [H | (obj & Ho & -> & Hfile & Hhome)].
  { destruct chain as [|k0 chain0]; [congruence|].
    destruct H as (c & [] & _). }
  cbn [key entry_of] in *. unfold folder_chain in Hhome.
  assert (Hsplit : PyStr.split (Key obj) =
                   app chain (app rest [PyStr.last1 (PyStr.split (Key obj))])).
  { rewrite <- (init_last (PyStr.split (Key obj))) at 1
      by apply split_nonempty.
    destruct (PyStr.init (PyStr.split (Key obj))) as [|k0 fc] eqn:Efc.
    - destruct chain as [|k1 chain1]; [congruence|].
      injection Hhome as -> _. cbn in Hhd. congruence.
    - rewrite <- Hhome. now rewrite <- app_assoc. }
  destruct chain as [|k0 chain0]; [congruence|].
  assert (Hk0 : PyStr.nonempty k0 = true).
  { apply (split_head (Key obj) k0 _ Hsplit); [|exact Hslash].
    destruct chain0; destruct rest; discriminate. }
  assert (Hpath : fold_left join_path (k0 :: chain0) "" =
                  String.concat "/" (k0 :: chain0)).
  { cbn [fold_left]. unfold join_path at 2. cbn [PyStr.nonempty].
    now apply join_chain. }
  rewrite Hpath. rewrite <- (concat_split (Key obj)). rewrite Hsplit.
  rewrite concat_app by (try discriminate; destruct rest; discriminate).
  unfold PyStr.startswith.
  destruct (normalize_cases (String.concat "/" (k0 :: chain0))) as [-> | ->].
  - apply prefix_append.
  - rewrite <- append_assoc. apply prefix_append.
Qed.

End Actions.

Lemma folder_action_witness :
  In ("a", ["a/b.txt"; "a/c/d.txt"])
     (actions_ul
        (render_tree
           (match build_tree scenario_listing with
            | Some t => t
            | None => []
            end) "")) /\
  PyStr.startswith (normalize "a") "a/c/d.txt" = true /\
  In ("x", ["/x/y"])
     (actions_ul
        (render_tree
           (match build_tree [ {| Key := "/x/y"; Size := 1 |} ] with
            | Some t => t
            | None => []
            end) "")) /\
  PyStr.startswith (normalize "x") "/x/y" = false.
Proof.
  assert (Hin : In ("a", ["a/b.txt"; "a/c/d.txt"])
                  (actions_ul
                     (render_tree
                        (match build_tree scenario_listing with
                         | Some t => t
                         | None => []
                         end) "")))
    by (vm_compute; left; reflexivity).
  split; [exact Hin|]. split.
  - destruct (folder_action_path_covers_its_files scenario_listing)
      as (tree & Hb & H).
    assert (E : build_tree scenario_listing =
                Some (match build_tree scenario_listing with
                      | Some t => t
                      | None => []
                      end)) by (vm_compute; reflexivity).
    rewrite E in Hb. injection Hb as <-.
    apply (H "a" ["a/b.txt"; "a/c/d.txt"] "a/c/d.txt" Hin);
      [right; left; reflexivity | reflexivity].
  - split; [vm_compute; right; left; reflexivity | reflexivity].
Defined.

(** ** What the complete event counts *)

Section Complete.
Variable s : Storage.
Variable folder_path : string.
Variable task_id : string.

Lemma member_of_length prefix obj : length (member_of s prefix obj) <= 1.
Proof.
  unfold member_of. destruct (String.eqb (Key obj) prefix); [cbn; lia|].
  destruct (get_object s (Key obj)); [|cbn; lia].
  destruct (PyStr.nonempty _); cbn; lia.
Qed.

Lemma members_bound prefix objs :
  length (flat_map (member_of s prefix) objs) <= length objs /\
  ((exists obj, In obj objs /\ Key obj = prefix) ->
   length (flat_map (member_of s prefix) objs) < length objs).
Proof.
  induction objs as [|o objs [IH1 IH2]]; cbn [flat_map length].
  - split; [lia|]. intros (obj & [] & _).
  - rewrite length_app. pose proof (member_of_length prefix o) as Ho.
    split; [lia|]. intros (obj & [<- | Hin] & Hk).
    + unfold member_of in *. rewrite Hk, String.eqb_refl. cbn. lia.
    + assert (length (flat_map (member_of s prefix) objs) < length objs)
        by (apply IH2; eauto).
      lia.
Qed.

Lemma progress_events_in total k e :
  In e (progress_events total k) -> terminal e = false.
Proof.
  unfold progress_events. intros H. apply in_map_iff in H.
  destruct H as (c & <- & _). reflexivity.
Qed.

(** X16: the complete event counts the members of the archive, not the
    listed objects.  In every run, when the generator has emitted
    complete(n), its stream is the progress events 1 .. n, each with the
    number of listed objects as total, followed by that event; n is the
    number of members of the archive, at most the total, and less than
    the total when the listing holds the folder marker: the progress
    then never reaches its total. *)
Theorem complete_counts_the_members
    (srv : Server) (sched : list Label) (n : nat) :
  let g := gen (run s folder_path task_id sched (start srv)) in
  In (EvComplete n) (emitted g) ->
  emitted g = app (progress_events (length (objects g)) n) [EvComplete n] /\
  n = length (flat_map (member_of s (normalize folder_path)) (objects g)) /\
  n <= length (objects g) /\
  ((exists obj, In obj (objects g) /\ Key obj = normalize folder_path) ->
   n < length (objects g)).
Proof.
  intros g Hin.
  destruct (run_start_inv s folder_path task_id sched srv) as [Hg _].
  destruct (run_sent_inv s folder_path task_id sched (start srv)) as [Hz _];
    [apply gen_start_inv | apply (start_inv s folder_path) | exact I
    | intros t _; exact I |].
  pose proof (start_shape s folder_path task_id srv sched) as Hs.
  fold g in Hg, Hz, Hs.
  destruct (gi_complete _ _ _ Hg n Hin) as (Hpc & _ & Hn & Hreg).
  assert (Hnc : ~ In EvCancelled (emitted g)).
  { intros Hc. destruct (gi_cancelled _ _ _ Hg Hc) as (_ & _ & Hno).
    exact (Hno n Hin). }
  unfold zip_inv in Hz. rewrite Hpc in Hz. specialize (Hz Hreg Hnc).
  pose proof (gi_members _ _ _ Hg Hreg) as Hm. rewrite Hz in Hm.
  cbn [members archive_of] in Hm.
  destruct (members_bound (normalize folder_path) (objects g)) as [Hb1 Hb2].
  split; [|split; [congruence | split; [lia | intros H; specialize (Hb2 H); lia]]].
  destruct Hs as (tail & He & [[Hne _] | (_ & t & -> & _)]); [congruence|].
  rewrite He in Hin. apply in_app_or in Hin. destruct Hin as [Hin | [-> | []]].
  - apply progress_events_in in Hin. discriminate.
  - rewrite He, <- Hn. reflexivity.
Qed.

End Complete.

Lemma complete_with_marker_witness :
  let g :=
    gen (run (bucket_storage marker_listing) "a" "t1" (repeat LGen 10)
           (start fresh_server)) in
  emitted g = [EvProgress 1 3; EvProgress 2 3; EvComplete 2] /\
  2 < length (objects g).
Proof.
  assert (Hin : In (EvComplete 2)
                  (emitted
                     (gen (run (bucket_storage marker_listing) "a" "t1"
                             (repeat LGen 10) (start fresh_server)))))
    by (vm_compute; right; right; left; reflexivity).
  destruct (complete_counts_the_members (bucket_storage marker_listing) "a"
              "t1" fresh_server (repeat LGen 10) 2 Hin) as (_ & _ & _ & H).
  split; [vm_compute; reflexivity|]. apply H.
  exists {| Key := "a/"; Size := 7 |}.
  split; [vm_compute; left; reflexivity | reflexivity].
Defined.

(** ** The file count of the folder information *)

Section MarkerCount.
Import Info.

Lemma counted_marker prefix marker :
  Key marker = prefix -> counted prefix marker = false.
Proof. intros <-. unfold counted. now rewrite String.eqb_refl. Qed.

(** X3: the [file_count] of the folder information is the number of
    listed objects, the folder marker included, although the marker is
    skipped for the size and the subfolders: a listing with the marker
    gives a [file_count] one above that of the same listing without it,
    and the same byte total, subfolder count and path. *)
Theorem folder_info_counts_every_listed_object
    (s s' : Storage) (folder_path : string)
    (before after : list ObjectRecord) (marker : ObjectRecord) :
  Key marker = normalize folder_path ->
  list_all s (normalize folder_path) =
    Returned (app before (marker :: after)) ->
  list_all s' (normalize folder_path) = Returned (app before after) ->
  exists info info',
    folder_info s folder_path = InfoOk info /\
    folder_info s' folder_path = InfoOk info' /\
    info_file_count info = length (app before (marker :: after)) /\
    info_file_count info = S (info_file_count info') /\
    info_total_size_bytes info = info_total_size_bytes info' /\
    info_subfolder_count info = info_subfolder_count info' /\
    info_path info = info_path info'.
Proof.
  intros Hm Hl Hl'. unfold folder_info. rewrite Hl, Hl'.
  eexists. eexists. split; [reflexivity|]. split; [reflexivity|].
  cbn [info_file_count info_total_size_bytes info_subfolder_count info_path].
  pose proof (counted_marker _ _ Hm) as Hc.
  destruct (stats_fold (normalize folder_path) (app before (marker :: after))
              stats_init) as [-> ->].
  destruct (stats_fold (normalize folder_path) (app before after) stats_init)
    as [-> ->].
  rewrite !List.filter_app, !flat_map_app. cbn [List.filter flat_map].
  unfold subfolder_of at 2. rewrite Hc. cbn [andb app].
  split; [reflexivity|]. split; [rewrite !length_app; cbn; lia|].
  repeat split; reflexivity.
Qed.

End MarkerCount.

Lemma folder_info_marker_witness :
  list_all (bucket_storage marker_listing) (normalize "a") =
    Returned [ {| Key := "a/"; Size := 7 |};
               {| Key := "a/b.txt"; Size := 10 |};
               {| Key := "a/c/d.txt"; Size := 20 |} ] /\
  Info.folder_info (bucket_storage marker_listing) "a" =
    Info.InfoOk {| Info.info_path := "a";
                   Info.info_file_count := 3;
                   Info.info_total_size_bytes := 30;
                   Info.info_subfolder_count := 1 |} /\
  Info.folder_info scenario_storage "a" =
    Info.InfoOk {| Info.info_path := "a";
                   Info.info_file_count := 2;
                   Info.info_total_size_bytes := 30;
                   Info.info_subfolder_count := 1 |}.
Proof.
  split; [reflexivity|].
  destruct (folder_info_counts_every_listed_object
              (bucket_storage marker_listing) scenario_storage "a"
              [] [ {| Key := "a/b.txt"; Size := 10 |};
                   {| Key := "a/c/d.txt"; Size := 20 |} ]
              {| Key := "a/"; Size := 7 |} eq_refl eq_refl eq_refl)
    as (info & info' & H & H' & _).
  split; [rewrite H; rewrite <- H | rewrite H'; rewrite <- H'];
    vm_compute; reflexivity.
Defined.

(** ** Cancellation before and after the last check *)

Section InTime.
Variable s : Storage.
Variable folder_path : string.
Variable task_id : string.




End InTime.




(** ** A scheduled eviction *)

Section Scheduled.
Variable s : Storage.
Variable folder_path : string.
Variable task_id : string.

Lemma gen_step_keeps_cleanups srv g :
  cleanups (fst (gen_step s folder_path task_id srv g)) = cleanups srv.
Proof.
  unfold gen_step.
  destruct (pc g) as [| |[|obj rest]| | | | |]; cbn; auto.
  - destruct (list_all s (folder_path_normalized folder_path)); cbn; auto.
    destruct (Nat.eqb (length a) 0); reflexivity.
  - destruct (cancel_requested (download_tasks srv) task_id); reflexivity.
  - destruct (cancel_requested (download_tasks srv) task_id); reflexivity.
  - destruct (download_tasks srv !! task_id); reflexivity.
  - destruct (download_tasks srv !! task_id); reflexivity.
Qed.

(** A cleanup goes on sleeping, whatever is served, until its time. *)
Lemma step_sleeping l sys n id :
  In (S n, id) (cleanups (server sys)) ->
  (l = LTick -> 1 <= n) ->
  In ((match l with LTick => n | _ => S n end), id)
     (cleanups (server (step s folder_path task_id sys l))).
Proof.
  intros Hin Hpos. rewrite step_gen.
  destruct l as [|k|k|]; cbn [server].
  - now rewrite gen_step_keeps_cleanups.
  - unfold env_step, cancel_download.
    now destruct (download_tasks (server sys) !! k).
  - unfold env_step, get_zip.
    destruct (download_tasks (server sys) !! k) as [t|]; [|exact Hin].
    destruct (zip_buffer t); [|exact Hin]. cbn [snd cleanups].
    apply in_or_app. now left.
  - unfold env_step. apply tick_cleanups. split; [exact Hin|].
    specialize (Hpos eq_refl). lia.
Qed.

Lemma run_sleeping sched id : forall sys n,
  In (n, id) (cleanups (server sys)) ->
  ticks sched < n ->
  In (n - ticks sched, id)
     (cleanups (server (run s folder_path task_id sched sys))).
Proof.
  induction sched as [|l sched IH]; intros sys n Hin Hlt.
  - cbn. now rewrite Nat.sub_0_r.
  - rewrite run_cons. destruct n as [|n]; [lia|].
    pose proof (step_sleeping l sys n id Hin) as H1.
    destruct l; unfold ticks in *; cbn [List.filter length] in *;
      try (apply IH; [apply H1; discriminate | exact Hlt]).
    replace (S n - S (length (List.filter
               (fun l => match l with LTick => true | _ => false end) sched)))
      with (n - length (List.filter
               (fun l => match l with LTick => true | _ => false end) sched))
      by lia.
    apply IH; [apply H1; lia | lia].
Qed.

Lemma tick_wakes srv id :
  In (1, id) (cleanups srv) -> download_tasks (tick srv) !! id = None.
Proof.
  intros Hin. rewrite tick_tasks. apply wake_hit.
  apply in_map_iff. exists (1, id). split; [reflexivity | exact Hin].
Qed.

Lemma gen_step_done srv g :
  registration_done g = true ->
  registration_done (snd (gen_step s folder_path task_id srv g)) = true.
Proof.
  unfold registration_done, gen_step.
  destruct (pc g) as [| |[|obj rest]| | | | |] eqn:Hpc; try discriminate;
    intros _.
  - reflexivity.
  - destruct (cancel_requested (download_tasks srv) task_id); cbn [snd];
      [reflexivity|].
    now rewrite (proj1 (process_facts s folder_path obj rest g)).
  - now destruct (cancel_requested (download_tasks srv) task_id).
  - now destruct (download_tasks srv !! task_id).
  - now destruct (download_tasks srv !! task_id).
  - reflexivity.
  - cbn [snd]. now rewrite Hpc.
Qed.

Lemma gen_step_binds_nothing srv g :
  registration_done g = true ->
  download_tasks srv !! task_id = None ->
  fst (gen_step s folder_path task_id srv g) = srv.
Proof.
  unfold registration_done, gen_step. intros Hd Hnone.
  unfold cancel_requested. rewrite Hnone.
  destruct (pc g) as [| |[|obj rest]| | | | |]; try discriminate; reflexivity.
Qed.

(** An entry that is gone stays gone while no generation binds its id. *)
Lemma run_gone sched id : forall sys,
  download_tasks (server sys) !! id = None ->
  id <> task_id \/ registration_done (gen sys) = true ->
  download_tasks (server (run s folder_path task_id sched sys)) !! id = None.
Proof.
  induction sched as [|l sched IH]; intros sys Hnone Henv; [exact Hnone|].
  rewrite run_cons. apply IH; rewrite step_gen.
  - destruct l; cbn [server];
      try exact (kept_none _ _ _ (env_step_kept _ (server sys) id) Hnone).
    destruct (decide (id = task_id)) as [-> | Hne].
    + destruct Henv as [Hne | Hd]; [congruence|].
      now rewrite gen_step_binds_nothing.
    + destruct (gen_step_other s folder_path task_id (server sys) (gen sys)
                  id Hne) as [-> _].
      exact Hnone.
  - destruct Henv as [Hne | Hd]; [now left|]. right.
    destruct l; cbn [gen]; try exact Hd. now apply gen_step_done.
Qed.

(** C2: a scheduled eviction removes the entry, fetched or not.  When a
    cleanup sleeps for an id with [n] time units left, at most the
    eviction delay of 60, then after any schedule of requests and
    generator steps in which [n - 1] units pass, the next unit removes
    the entry, whatever it holds: a get-zip request for the id is
    answered not found.  The entry stays away, and the answer the same,
    through every schedule in which no generation binds the id again:
    the generator works for another id or has passed its
    registration. *)
Theorem scheduled_eviction_removes_the_entry
    (id : string) (sys : System) (n : nat) (sched later : list Label) :
  In (n, id) (cleanups (server sys)) ->
  1 <= n <= eviction_delay ->
  ticks sched = n - 1 ->
  let sys' := run s folder_path task_id (app sched [LTick]) sys in
  download_tasks (server sys') !! id = None /\
  get_zip_answer id (server sys') = NotFound /\
  (id <> task_id \/ registration_done (gen sys') = true ->
   download_tasks
     (server (run s folder_path task_id later sys')) !! id = None /\
   get_zip_answer id (server (run s folder_path task_id later sys'))
     = NotFound).
Proof.
  intros Hin Hn Hticks sys'.
  assert (Hnone : download_tasks (server sys') !! id = None).
  { unfold sys'. rewrite run_app.
    pose proof (run_sleeping sched id sys n Hin ltac:(lia)) as H1.
    replace (n - ticks sched) with 1 in H1 by lia.
    change (run s folder_path task_id [LTick]
              (run s folder_path task_id sched sys))
      with (step s folder_path task_id
              (run s folder_path task_id sched sys) LTick).
    rewrite step_gen. cbn [server]. now apply tick_wakes. }
  split; [exact Hnone|]. split; [now apply not_found_answer|].
  intros Henv.
  pose proof (run_gone later id sys' Hnone Henv) as H.
  split; [exact H | now apply not_found_answer].
Qed.

End Scheduled.

Lemma scheduled_eviction_witness :
  let sys := run scenario_storage "a" "t1" [LGen; LGen] (start fetched_server) in
  let sched := app (repeat LGen 7) (repeat LTick 59) in
  In (60, "t1") (cleanups (server sys)) /\
  get_zip_answer "t1" (server (run scenario_storage "a" "t1" sched sys))
    = ZipSent scenario_archive "a.zip" /\
  get_zip_answer "t1"
    (server (run scenario_storage "a" "t1" (app sched [LTick]) sys))
    = NotFound.
Proof.
  intros sys sched.
  assert (Hin : In (60, "t1") (cleanups (server sys)))
    by (vm_compute; left; reflexivity).
  split; [exact Hin|]. split; [vm_compute; reflexivity|].
  destruct (scheduled_eviction_removes_the_entry scenario_storage "a" "t1"
              "t1" sys 60 sched [] Hin) as (_ & H & _);
    [unfold eviction_delay; lia | vm_compute; reflexivity | exact H].
Defined.

(** ** What a cancelled generation leaves *)

Section Left.
Variable s : Storage.
Variable folder_path : string.
Variable task_id : string.






End Left.

